(** * brewson: the residual-circulation pipeline of [process.ipynb]

    A shallow embedding of the notebook that turns ERA5 monthly fields into
    zonal-mean residual-circulation and Eliassen-Palm diagnostics.  Every
    assignment of the notebook is one definition below, named as in the
    notebook and taking as arguments the notebook variables it reads.

    The arithmetic is written once, over an interface [Num] of the array
    operations the notebook uses, and read at two instances:
    - the real numbers, for the algebraic content of the formulas;
    - IEEE binary64 (the kernel's primitive floats), for what happens at
      zero divisors, infinities and NaN.  The coordinates and the derived
      fields ([theta], [N2], [heat_flux], [v_star], [w_star], [EPFD]) are
      binary64 in the notebook; the five input fields are stored in
      binary32. *)

From Stdlib Require Import Reals Lra Lia ZArith List Bool Arith.
From Stdlib Require Import String Ascii DecimalString Floats.
From Stdlib Require Import DecimalZ DecimalPos Sorted Permutation.
Import ListNotations.

Set Implicit Arguments.

(** ** Exceptions and results *)

Inductive exn : Set :=
| IndexError          (* a list or array indexed out of range *)
| ValueError          (* [int] of a non-number, [np.gradient] of a short axis *)
| FileNotFoundError   (* [os.listdir] of a path that does not exist *)
| NotADirectoryError  (* [os.listdir] of a regular file *)
| PermissionError.    (* [os.listdir] of a directory that may not be read *)

Inductive result (A : Type) : Type :=
| Ok (a : A)
| Raise (e : exn).

Arguments Ok {A} a.
Arguments Raise {A} e.

Definition bind {A B : Type} (r : result A) (k : A -> result B) : result B :=
  match r with
  | Ok a => k a
  | Raise e => Raise e
  end.

Notation "x <- r ;; k" := (bind r (fun x => k))
  (at level 61, r at next level, right associativity).

(** ** The numeric interface *)

Declare Scope num_scope.
Delimit Scope num_scope with num.

(** The element-wise operations of numpy arrays that the notebook relies on.
    [of_Z] is a Python integer used in array arithmetic, [of_dec m e] the
    decimal literal [m]e[e], [eqb] numpy's [==] and [isnan] numpy's
    [isnan]. *)
Class Num (T : Type) : Type := {
  of_Z : Z -> T;
  of_dec : Z -> Z -> T;
  add : T -> T -> T;
  sub : T -> T -> T;
  mul : T -> T -> T;
  div : T -> T -> T;
  neg : T -> T;
  eqb : T -> T -> bool;
  isnan : T -> bool
}.

(** The numpy universal functions and constants of the notebook:
    [np.exp], [np.log], [np.cos], [np.sin], [np.pi] and [**]. *)
Class Ufuncs (T : Type) : Type := {
  np_exp : T -> T;
  np_log : T -> T;
  np_cos : T -> T;
  np_sin : T -> T;
  np_pi : T;
  power : T -> T -> T
}.

Infix "+" := add : num_scope.
Infix "-" := sub : num_scope.
Infix "*" := mul : num_scope.
Infix "/" := div : num_scope.
Notation "- x" := (neg x) : num_scope.

(** *** Exact arithmetic *)

Definition Req_bool (x y : R) : bool := if Req_dec_T x y then true else false.

#[export] Instance R_Num : Num R := {|
  of_Z := IZR;
  of_dec := fun m e => (IZR m * powerRZ 10 e)%R;
  add := Rplus;
  sub := Rminus;
  mul := Rmult;
  div := Rdiv;
  neg := Ropp;
  eqb := Req_bool;
  isnan := fun _ => false
|}.

#[export] Instance R_Ufuncs : Ufuncs R := {|
  np_exp := exp;
  np_log := ln;
  np_cos := cos;
  np_sin := sin;
  np_pi := PI;
  power := Rpower
|}.

(** *** IEEE binary64 *)

Definition float_of_Z (z : Z) : float :=
  match z with
  | Z0 => PrimFloat.zero
  | Zpos _ => PrimFloat.of_uint63 (Uint63.of_Z z)
  | Zneg p => PrimFloat.opp (PrimFloat.of_uint63 (Uint63.of_Z (Zpos p)))
  end.

(** A decimal literal whose mantissa and power of ten are both exact in
    binary64 is the correctly rounded quotient or product of the two. *)
Definition float_of_dec (m e : Z) : float :=
  if (e <? 0)%Z
  then PrimFloat.div (float_of_Z m) (float_of_Z (10 ^ (- e)))
  else PrimFloat.mul (float_of_Z m) (float_of_Z (10 ^ e)).

#[export] Instance float_Num : Num float := {|
  of_Z := float_of_Z;
  of_dec := float_of_dec;
  add := PrimFloat.add;
  sub := PrimFloat.sub;
  mul := PrimFloat.mul;
  div := PrimFloat.div;
  neg := PrimFloat.opp;
  eqb := PrimFloat.eqb;
  isnan := PrimFloat.is_nan
|}.

(** ** Arrays

    A one-dimensional array of length [n] is read through its index function
    on [0 .. n-1]; a field of the dataset is indexed by (time, z, latitude)
    and, before zonal averaging, by longitude as well.  Dimensions are
    addressed by name in xarray, so the order of the indices is fixed here
    once and for all. *)

Definition Arr (T : Type) : Type := nat -> T.
Definition Field3 (T : Type) : Type := nat -> nat -> nat -> T.
Definition Field4 (T : Type) : Type := nat -> nat -> nat -> nat -> T.

(** The array with the elements of [l] (and [d] past its end). *)
Definition of_list {T : Type} (d : T) (l : list T) : Arr T := fun i => nth i l d.

Section Arrays.

Context {T : Type} {num : Num T}.
Local Open Scope num_scope.

(** [x.mean(dim)] of xarray on floating-point data: [skipna] defaults to
    true, so NaN entries are left out of both the sum and the count.

    The order in which the entries are added is the library's business
    (numpy adds in pairs, dask chunk by chunk); the sum from left to right
    stands for it here.  In exact arithmetic the order does not matter, and
    the binary64 theorems of this development use the sum only through
    what holds in every order: a NaN entry is left out, an infinite entry
    makes the sum infinite or NaN. *)
Definition nansum (xs : list T) : T := fold_left add xs (of_Z 0).

Definition nanmean (n : nat) (x : Arr T) : T :=
  let kept := filter (fun v => negb (isnan v)) (map x (seq 0 n)) in
  nansum kept / of_Z (Z.of_nat (List.length kept)).

(** [np.diff]: the [n-1] spacings of a coordinate of length [n]. *)
Definition diff (x : Arr T) : Arr T := fun i => x (S i) - x i.

(** [(diffx == diffx[0]).all()]: numpy reduces to the scalar-spacing scheme
    when every spacing equals the first. *)
Definition uniform_spacing (n : nat) (x : Arr T) : bool :=
  forallb (fun i => eqb (diff x i) (diff x 0)) (seq 0 (n - 1)).

(** [np.gradient(f, x, edge_order=1)] at index [i] of an axis of length
    [n >= 2]: first-order one-sided differences at the two ends, and in the
    interior the centred difference (uniform spacing) or the second-order
    three-point formula with weights [a], [b], [c] (non-uniform). *)
Definition gradient_at (n : nat) (x f : Arr T) (i : nat) : T :=
  let dx := diff x in
  let uniform := uniform_spacing n x in
  if (i =? 0)%nat then
    (f 1%nat - f 0%nat) / dx 0%nat
  else if (i =? n - 1)%nat then
    (f (n - 1)%nat - f (n - 2)%nat) / (if uniform then dx 0%nat else dx (n - 2)%nat)
  else if uniform then
    (f (i + 1)%nat - f (i - 1)%nat) / (of_Z 2 * dx 0%nat)
  else
    let dx1 := dx (i - 1)%nat in
    let dx2 := dx i in
    let a := - dx2 / (dx1 * (dx1 + dx2)) in
    let b := (dx2 - dx1) / (dx1 * dx2) in
    let c := dx1 / (dx2 * (dx1 + dx2)) in
    a * f (i - 1)%nat + b * f i + c * f (i + 1)%nat.

End Arrays.

(** ** The notebook, cell by cell *)

(** What [xr.open_mfdataset] hands to the notebook: the four dimension
    sizes, the two coordinates the computation reads, and the five
    variables [U], [V], [W], [T], [Z] on (time, level, latitude, longitude). *)
Record RawDataset (T : Type) : Type := {
  n_time : nat;
  n_level : nat;
  n_latitude : nat;
  n_longitude : nat;
  level : Arr T;        (* hPa *)
  latitude : Arr T;     (* degrees north *)
  var_U : Field4 T;
  var_V : Field4 T;
  var_W : Field4 T;
  var_T : Field4 T;
  var_Z : Field4 T
}.

(** The dataset written by [to_netcdf]: eleven zonal-mean variables on
    (time, pressure, latitude). *)
Record Output (T : Type) : Type := {
  out_n_time : nat;
  out_n_pressure : nat;
  out_n_latitude : nat;
  out_pressure : Arr T;   (* hPa *)
  out_latitude : Arr T;   (* degrees north *)
  out_u : Field3 T;
  out_v : Field3 T;
  out_w : Field3 T;
  out_T : Field3 T;
  out_h : Field3 T;
  out_theta : Field3 T;
  out_N2 : Field3 T;
  out_heat_flux : Field3 T;
  out_v_star : Field3 T;
  out_w_star : Field3 T;
  out_EPFD : Field3 T
}.

(** The notebook variables that later statements refer to, as they stand
    after the last cell: the surface pressure, the working coordinates, the
    converted vertical velocity, the two flux components, and the final
    [ds]. *)
Record Namespace (T : Type) : Type := {
  nb_p_surf : T;
  nb_z : Arr T;
  nb_rho : Arr T;
  nb_lat : Arr T;
  nb_w : Field4 T;
  nb_F_lat : Field3 T;
  nb_F_z : Field3 T;
  nb_ds : Output T
}.

Unset Implicit Arguments.

Module Process.

Section Cells.

Context {T : Type} {num : Num T}.
Local Open Scope num_scope.

(** *** Array methods of xarray used throughout *)

(** [F.mean('longitude')] *)
Definition mean_lon (nlon : nat) (F : Field4 T) : Field3 T :=
  fun t k j => nanmean nlon (F t k j).

(** [F - F.mean('longitude')], the mean broadcast along longitude. *)
Definition eddy (F : Field4 T) (F_bar : Field3 T) : Field4 T :=
  fun t k j l => F t k j l - F_bar t k j.

(** [(A * B).mean('longitude')] *)
Definition covariance (nlon : nat) (A B : Field4 T) : Field3 T :=
  mean_lon nlon (fun t k j l => A t k j l * B t k j l).

(** [F.differentiate('z')] on a four- and on a three-dimensional field:
    [np.gradient] along the axis, which refuses an axis shorter than
    [edge_order + 1 = 2] with a [ValueError]. *)
Definition differentiate_z4 (nz : nat) (z : Arr T) (F : Field4 T)
  : result (Field4 T) :=
  if (nz <? 2)%nat then Raise ValueError
  else Ok (fun t k j l => gradient_at nz z (fun k' => F t k' j l) k).

Definition differentiate_z (nz : nat) (z : Arr T) (F : Field3 T)
  : result (Field3 T) :=
  if (nz <? 2)%nat then Raise ValueError
  else Ok (fun t k j => gradient_at nz z (fun k' => F t k' j) k).

(** [F.differentiate('latitude')] *)
Definition differentiate_lat (nlat : nat) (lat : Arr T) (F : Field3 T)
  : result (Field3 T) :=
  if (nlat <? 2)%nat then Raise ValueError
  else Ok (fun t k j => gradient_at nlat lat (fun j' => F t k j') j).

(** *** Coordinates: pressure, log-pressure height, density *)

(** [H = 6800] *)
Definition H : Z := 6800.

(** [p = 100 * ds['z']] *)
Definition p (level : Arr T) : Arr T := fun k => of_Z 100 * level k.

(** [p_surf = p[-1]] *)
Definition p_surf (nz : nat) (p : Arr T) : result T :=
  if (nz =? 0)%nat then Raise IndexError else Ok (p (nz - 1)%nat).

(** [h = ds['Phi'] / 9.8] *)
Definition h (Phi : Field4 T) : Field4 T :=
  fun t k j l => Phi t k j l / of_dec 98 (-1).

(** *** Vertical velocity in log-pressure coordinates *)

(** [dzdh = 1 / h.differentiate('z')] *)
Definition dzdh (nz : nat) (z : Arr T) (h : Field4 T) : result (Field4 T) :=
  D <- differentiate_z4 nz z h ;;
  Ok (fun t k j l => of_Z 1 / D t k j l).

(** [w = dzdh * w_cartesian] *)
Definition w (dzdh w_cartesian : Field4 T) : Field4 T :=
  fun t k j l => dzdh t k j l * w_cartesian t k j l.

(** *** Residual circulation *)

(** [a = 6.37e6] *)
Definition a : T := of_dec 637 4.

(** [v_star = v_bar - (rho * heat_flux / N2).differentiate('z') / rho] *)
Definition v_star (nz : nat) (z rho : Arr T) (v_bar heat_flux N2 : Field3 T)
  : result (Field3 T) :=
  D <- differentiate_z nz z (fun t k j => rho k * heat_flux t k j / N2 t k j) ;;
  Ok (fun t k j => v_bar t k j - D t k j / rho k).

(** [w_star = w_bar
      + (cos_lat * heat_flux / N2).differentiate('latitude') / (a * cos_lat)] *)
Definition w_star (nlat : nat) (lat cos_lat : Arr T) (a : T)
  (w_bar heat_flux N2 : Field3 T) : result (Field3 T) :=
  D <- differentiate_lat nlat lat
         (fun t k j => cos_lat j * heat_flux t k j / N2 t k j) ;;
  Ok (fun t k j => w_bar t k j + D t k j / (a * cos_lat j)).

(** *** Eliassen-Palm flux and its divergence *)

(** [Omega = 7.292e-5] *)
Definition Omega : T := of_dec 7292 (-8).

(** [offset = (u_bar * cos_lat).differentiate('latitude') / (a * cos_lat)] *)
Definition offset (nlat : nat) (lat cos_lat : Arr T) (a : T) (u_bar : Field3 T)
  : result (Field3 T) :=
  D <- differentiate_lat nlat lat (fun t k j => u_bar t k j * cos_lat j) ;;
  Ok (fun t k j => D t k j / (a * cos_lat j)).

(** [F_lat = (u_bar.differentiate('z') * heat_flux / N2 - uv_bar)
             * rho * cos_lat] *)
Definition F_lat (nz : nat) (z rho cos_lat : Arr T)
  (u_bar heat_flux N2 uv_bar : Field3 T) : result (Field3 T) :=
  D <- differentiate_z nz z u_bar ;;
  Ok (fun t k j =>
        (D t k j * heat_flux t k j / N2 t k j - uv_bar t k j)
        * rho k * cos_lat j).

(** [F_z = ((f - offset) * heat_flux / N2 - uw_bar) * rho * a * cos_lat] *)
Definition F_z (rho cos_lat f : Arr T) (a : T)
  (offset heat_flux N2 uw_bar : Field3 T) : Field3 T :=
  fun t k j =>
    ((f j - offset t k j) * heat_flux t k j / N2 t k j - uw_bar t k j)
    * rho k * a * cos_lat j.

(** [EPFD = (F_lat.differentiate('latitude') + F_z.differentiate('z'))
            / (rho * a * cos_lat)] *)
Definition EPFD (nz nlat : nat) (z lat rho cos_lat : Arr T) (a : T)
  (F_lat F_z : Field3 T) : result (Field3 T) :=
  D_lat <- differentiate_lat nlat lat F_lat ;;
  D_z <- differentiate_z nz z F_z ;;
  Ok (fun t k j => (D_lat t k j + D_z t k j) / (rho k * a * cos_lat j)).

End Cells.

Section Pipeline.

Context {T : Type} {num : Num T} {ufuncs : Ufuncs T}.
Local Open Scope num_scope.

(** [lat = np.pi * ds['latitude'] / 180] *)
Definition lat (latitude : Arr T) : Arr T :=
  fun j => np_pi * latitude j / of_Z 180.

(** [z = -H * np.log(p / p_surf)] *)
Definition z (p : Arr T) (p_surf : T) : Arr T :=
  fun k => of_Z (- H) * np_log (p k / p_surf).

(** [rho = np.exp(-z / H)] *)
Definition rho (z : Arr T) : Arr T := fun k => np_exp (- z k / of_Z H).

(** [theta = T * ((p_surf / p) ** 0.286)] *)
Definition theta (T_ : Field4 T) (p_surf : T) (p : Arr T) : Field4 T :=
  fun t k j l => T_ t k j l * power (p_surf / p k) (of_dec 286 (-3)).

(** [N2 = theta_bar.differentiate('z')] *)
Definition N2 (nz : nat) (z : Arr T) (theta_bar : Field3 T)
  : result (Field3 T) :=
  differentiate_z nz z theta_bar.

(** [cos_lat = np.cos(lat)] *)
Definition cos_lat (lat : Arr T) : Arr T := fun j => np_cos (lat j).

(** [f = 2 * Omega * np.sin(lat)] *)
Definition f (lat : Arr T) : Arr T := fun j => of_Z 2 * Omega * np_sin (lat j).

(** The last cell's [p = p_surf * np.exp(-ds['pressure'] / H) / 100], where
    [ds['pressure']] is the renamed [z] coordinate. *)
Definition p_hPa (p_surf : T) (z : Arr T) : Arr T :=
  fun k => p_surf * np_exp (- z k / of_Z H) / of_Z 100.

(** The last cell's [lat = 180 * ds['latitude'] / np.pi]. *)
Definition lat_degrees (lat : Arr T) : Arr T :=
  fun j => of_Z 180 * lat j / np_pi.

(** The cells after the vertical-velocity conversion, as a function of the
    converted velocity [w]: stability, eddy covariances, residual
    circulation, Eliassen-Palm flux divergence, and the assembly of the
    output [xr.Dataset({...}).mean('longitude')] with its coordinates put
    back to pressure and degrees.  The result is the notebook's namespace
    after the last cell. *)
Definition diagnostics (ds : RawDataset T) (p_surf : T) (p z rho lat : Arr T)
  (h w : Field4 T) : result (Namespace T) :=
  let nz := n_level ds in
  let nlat := n_latitude ds in
  let nlon := n_longitude ds in
  let u := var_U ds in
  let v := var_V ds in
  let w_cartesian := var_W ds in
  let T_ := var_T ds in
  let theta := theta T_ p_surf p in
  let theta_bar := mean_lon nlon theta in
  N2 <- N2 nz z theta_bar ;;
  let v_bar := mean_lon nlon v in
  let w_bar := mean_lon nlon w in
  let v_prime := eddy v v_bar in
  let w_prime := eddy w w_bar in
  let theta_prime := eddy theta theta_bar in
  let heat_flux := covariance nlon v_prime theta_prime in
  let cos_lat := cos_lat lat in
  v_star <- v_star nz z rho v_bar heat_flux N2 ;;
  w_star <- w_star nlat lat cos_lat a w_bar heat_flux N2 ;;
  let u_bar := mean_lon nlon u in
  let u_prime := eddy u u_bar in
  let uv_bar := covariance nlon u_prime v_prime in
  let uw_bar := covariance nlon u_prime w_prime in
  let f := f lat in
  offset <- offset nlat lat cos_lat a u_bar ;;
  F_lat <- F_lat nz z rho cos_lat u_bar heat_flux N2 uv_bar ;;
  let F_z := F_z rho cos_lat f a offset heat_flux N2 uw_bar in
  EPFD <- EPFD nz nlat z lat rho cos_lat a F_lat F_z ;;
  Ok {| nb_p_surf := p_surf;
        nb_z := z;
        nb_rho := rho;
        nb_lat := lat;
        nb_w := w;
        nb_F_lat := F_lat;
        nb_F_z := F_z;
        nb_ds :=
          {| out_n_time := n_time ds;
             out_n_pressure := nz;
             out_n_latitude := nlat;
             out_pressure := p_hPa p_surf z;
             out_latitude := lat_degrees lat;
             out_u := mean_lon nlon u;
             out_v := mean_lon nlon v;
             out_w := mean_lon nlon w_cartesian;
             out_T := mean_lon nlon T_;
             out_h := mean_lon nlon h;
             out_theta := mean_lon nlon theta;
             out_N2 := N2;
             out_heat_flux := heat_flux;
             out_v_star := v_star;
             out_w_star := w_star;
             out_EPFD := EPFD |} |}.

(** The notebook from the opened dataset to its final namespace. *)
Definition notebook (ds : RawDataset T) : result (Namespace T) :=
  let nz := n_level ds in
  let p := p (level ds) in
  let lat := lat (latitude ds) in
  p_surf <- p_surf nz p ;;
  let z := z p p_surf in
  let rho := rho z in
  let h := h (var_Z ds) in
  dzdh <- dzdh nz z h ;;
  let w := w dzdh (var_W ds) in
  diagnostics ds p_surf p z rho lat h w.

(** The dataset handed to [to_netcdf]. *)
Definition process (ds : RawDataset T) : result (Output T) :=
  ns <- notebook ds ;;
  Ok (nb_ds ns).

End Pipeline.

End Process.

(** ** The formulas of the specification, over the reals

    Each definition follows the wording of the specification; the notebook's
    definitions above are compared with these. *)

Module Spec.

Local Open Scope R_scope.

(** Scale height, Earth's radius, rotation rate, R/c_p, gravity. *)
Definition H : R := 6800.
Definition a : R := 6.37e6.
Definition Omega : R := 7.292e-5.
Definition kappa : R := 0.286.
Definition g : R := 9.8.

(** Zonal mean: the mean over the [nlon] longitudes. *)
Definition zonal_mean (nlon : nat) (F : Field4 R) : Field3 R :=
  fun t k j => fold_right Rplus 0 (map (F t k j) (seq 0 nlon)) / INR nlon.

(** Eddy part: the deviation from the zonal mean. *)
Definition eddy_part (nlon : nat) (F : Field4 R) : Field4 R :=
  fun t k j l => F t k j l - zonal_mean nlon F t k j.

(** Eddy covariance: the zonal mean of the product of two eddy parts. *)
Definition eddy_covariance (nlon : nat) (A B : Field4 R) : Field3 R :=
  zonal_mean nlon
    (fun t k j l => eddy_part nlon A t k j l * eddy_part nlon B t k j l).

(** The surface reference: the pressure at the level with the maximum raw
    value. *)
Definition level_max (nz : nat) (level : Arr R) : R :=
  fold_right Rmax (level 0%nat) (map level (seq 0 nz)).
Definition p_surf (nz : nat) (level : Arr R) : R := 100 * level_max nz level.

(** The finite-difference scheme of sections 4.3 and 4.4, on a coordinate
    [x] of [n] points.  [slope x f i j] is the difference quotient of [f]
    between the points [i] and [j].  At an interior point the derivative is
    the centred difference: the two one-sided quotients at the point,
    each weighted by the step on the other side.  This is the slope at
    [x i] of the parabola through the point and its two neighbours, and
    the quotient between the two neighbours,
    (f (i+1) - f (i-1)) / (x (i+1) - x (i-1)), when the two steps are
    equal.  At the first and at the last point the derivative is the
    one-sided quotient with the only neighbour. *)
Definition slope (x f : Arr R) (i j : nat) : R := (f j - f i) / (x j - x i).

Definition centred_difference (x f : Arr R) (i : nat) : R :=
  let before := x i - x (i - 1)%nat in
  let after := x (i + 1)%nat - x i in
  (after * slope x f (i - 1) i + before * slope x f i (i + 1))
  / (before + after).

Definition finite_difference (n : nat) (x f : Arr R) (i : nat) : R :=
  if (i =? 0)%nat then slope x f 0 1
  else if (i =? n - 1)%nat then slope x f (n - 2) (n - 1)
  else centred_difference x f i.

Section Grid.

(** The grid of the dataset and the surface reference pressure [p_surf]. *)
Variable ds : RawDataset R.
Variable p_surf : R.

Let nz := n_level ds.
Let nlat := n_latitude ds.
Let nlon := n_longitude ds.

(** Pressure in SI units, latitude in radians. *)
Definition p_SI : Arr R := fun k => 100 * level ds k.
Definition phi : Arr R := fun j => latitude ds j * (PI / 180).

(** z = -H ln(p / p_surf) and the reference density rho = exp(-z/H). *)
Definition z : Arr R := fun k => - H * ln (p_SI k / p_surf).
Definition rho : Arr R := fun k => exp (- z k / H).

(** The derivatives along the vertical and along latitude, by the
    finite-difference scheme of sections 4.3 and 4.4. *)
Definition d_dz (F : Field3 R) : Field3 R :=
  fun t k j => finite_difference nz z (fun k' => F t k' j) k.
Definition d_dphi (F : Field3 R) : Field3 R :=
  fun t k j => finite_difference nlat phi (fun j' => F t k j') j.

(** Geopotential height and the log-pressure vertical velocity
    w_target = (dz/dh) w_native, dz/dh the reciprocal of dh/dz. *)
Definition height : Field4 R := fun t k j l => var_Z ds t k j l / g.
Definition w_target : Field4 R :=
  fun t k j l =>
    1 / finite_difference nz z (fun k' => height t k' j l) k
    * var_W ds t k j l.

(** theta = T (p_surf/p)^kappa, its zonal mean, and N2 = d(theta_bar)/dz. *)
Definition theta : Field4 R :=
  fun t k j l => var_T ds t k j l * Rpower (p_surf / p_SI k) kappa.
Definition theta_bar : Field3 R := zonal_mean nlon theta.
Definition N2 : Field3 R := d_dz theta_bar.

(** Zonal means and eddy covariances. *)
Definition u_bar : Field3 R := zonal_mean nlon (var_U ds).
Definition v_bar : Field3 R := zonal_mean nlon (var_V ds).
Definition w_bar : Field3 R := zonal_mean nlon w_target.
Definition heat_flux : Field3 R := eddy_covariance nlon (var_V ds) theta.
Definition uv_bar : Field3 R := eddy_covariance nlon (var_U ds) (var_V ds).
Definition uw_bar : Field3 R := eddy_covariance nlon (var_U ds) w_target.

(** v* = v_bar - (1/rho) d/dz [ rho (v'theta' / N2) ] *)
Definition v_star : Field3 R :=
  fun t k j =>
    v_bar t k j
    - (1 / rho k) * d_dz (fun t k j => rho k * (heat_flux t k j / N2 t k j)) t k j.

(** w* = w_bar + 1/(a cos phi) d/dphi [ cos phi (v'theta' / N2) ] *)
Definition w_star : Field3 R :=
  fun t k j =>
    w_bar t k j
    + 1 / (a * cos (phi j))
      * d_dphi (fun t k j => cos (phi j) * (heat_flux t k j / N2 t k j)) t k j.

(** f = 2 Omega sin phi, and u_bar_z. *)
Definition coriolis : Arr R := fun j => 2 * Omega * sin (phi j).
Definition u_bar_z : Field3 R := d_dz u_bar.

(** F_lat = rho cos phi ( u_bar_z (v'theta'/N2) - u'v' ) *)
Definition F_lat : Field3 R :=
  fun t k j =>
    rho k * cos (phi j)
    * (u_bar_z t k j * (heat_flux t k j / N2 t k j) - uv_bar t k j).

(** F_z = rho a cos phi ( (f - (u_bar cos phi)_phi / (a cos phi)) (v'theta'/N2)
                          - u'w' ) *)
Definition F_z : Field3 R :=
  fun t k j =>
    rho k * a * cos (phi j)
    * ((coriolis j
        - d_dphi (fun t k j => u_bar t k j * cos (phi j)) t k j
          / (a * cos (phi j)))
       * (heat_flux t k j / N2 t k j)
       - uw_bar t k j).

(** EPFD = (dF_lat/dphi + dF_z/dz) / (rho a cos phi) *)
Definition EPFD : Field3 R :=
  fun t k j =>
    (d_dphi F_lat t k j + d_dz F_z t k j) / (rho k * a * cos (phi j)).

End Grid.

End Spec.

(** ** Sample inputs *)

(** A small dataset over the reals: one month, three levels stored in
    ascending pressure, three latitudes, two longitudes. *)
Definition sample_ds : RawDataset R := {|
  n_time := 1;
  n_level := 3;
  n_latitude := 3;
  n_longitude := 2;
  level := of_list 0%R [100; 500; 1000]%R;
  latitude := of_list 0%R [45; 0; -45]%R;
  var_U := fun _ k _ l => (INR k + INR l)%R;
  var_V := fun _ _ j l => (INR j - INR l)%R;
  var_W := fun _ _ _ _ => 0%R;
  var_T := fun _ k _ _ => (280 - 5 * INR k)%R;
  var_Z := fun _ k _ _ => (1000 - 300 * INR k)%R
|}.

(** The sample dataset with a meridional wind that does not vary with
    longitude. *)
Definition uniform_ds : RawDataset R := {|
  n_time := 1;
  n_level := 3;
  n_latitude := 3;
  n_longitude := 2;
  level := level sample_ds;
  latitude := latitude sample_ds;
  var_U := var_U sample_ds;
  var_V := fun _ k j _ => (INR k - 2 * INR j)%R;
  var_W := var_W sample_ds;
  var_T := var_T sample_ds;
  var_Z := var_Z sample_ds
|}.

(** A dataset in which every variable varies with longitude: the
    meridional wind and the temperature have eddy parts of -1, +1 and
    -5, +5, the vertical velocity has the zonal mean 4 + k, and the
    geopotential height is twice the log-pressure height. *)
Definition eddy_ds : RawDataset R := {|
  n_time := 1;
  n_level := 3;
  n_latitude := 3;
  n_longitude := 2;
  level := of_list 0%R [100; 500; 1000]%R;
  latitude := of_list 0%R [45; 0; -45]%R;
  var_U := fun _ k j l => (INR k + 2 * INR j + 3 * INR l)%R;
  var_V := fun _ _ j l => (INR j + (2 * INR l - 1))%R;
  var_W := fun _ k _ l => (3 + INR k + 2 * INR l)%R;
  var_T := fun _ k _ l => (280 - 5 * INR k + (10 * INR l - 5))%R;
  var_Z := fun _ k _ _ =>
    (9.8 * (2 * (- 6800
                 * ln (100 * of_list 0 [100; 500; 1000] k / (100 * 1000)))))%R
|}.

(** The same three levels stored in descending pressure. *)
Definition levels_descending : Arr R := of_list 0%R [1000; 500; 100]%R.

(** ** IEEE special values

    Classification of a binary64 value through its specification
    [Prim2SF]: zero of either sign, NaN or infinity, and what a divisor must
    be for a zero numerator to stay zero. *)

Module IEEE.

Definition fzero (x : float) : bool :=
  match Prim2SF x with
  | S754_zero _ => true
  | _ => false
  end.

Definition nonfinite (x : float) : bool :=
  match Prim2SF x with
  | S754_nan | S754_infinity _ => true
  | _ => false
  end.

Definition finite (x : float) : bool := negb (nonfinite x).

Definition infinite (x : float) : bool :=
  match Prim2SF x with
  | S754_infinity _ => true
  | _ => false
  end.

(** Neither zero nor NaN. *)
Definition divisor_ok (x : float) : bool :=
  match Prim2SF x with
  | S754_infinity _ | S754_finite _ _ _ => true
  | _ => false
  end.

(** The weights that [gradient_at n x] uses at index [i] are well defined:
    the spacing it divides by is neither zero nor NaN and, in the
    non-uniform interior, the three weights are finite. *)
Definition stencil_ok (n : nat) (x : Arr float) (i : nat) : bool :=
  let dx := diff x in
  let uniform := uniform_spacing n x in
  if (i =? 0)%nat then divisor_ok (dx 0%nat)
  else if (i =? n - 1)%nat then
    divisor_ok (if uniform then dx 0%nat else dx (n - 2)%nat)
  else if uniform then divisor_ok (of_Z 2 * dx 0%nat)%num
  else
    let dx1 := dx (i - 1)%nat in
    let dx2 := dx i in
    (finite (- dx2 / (dx1 * (dx1 + dx2)))
     && finite ((dx2 - dx1) / (dx1 * dx2))
     && finite (dx1 / (dx2 * (dx1 + dx2))))%num%bool.

(** Every entry of a field on a [nt] x [nz] x [nlat] grid is finite. *)
Definition all_finite (nt nz nlat : nat) (F : Field3 float) : bool :=
  forallb (fun t =>
    forallb (fun k =>
      forallb (fun j => finite (F t k j)) (seq 0 nlat)) (seq 0 nz)) (seq 0 nt).

Definition all_finite_result (nt nz nlat : nat) (r : result (Field3 float))
  : bool :=
  match r with
  | Ok F => all_finite nt nz nlat F
  | Raise _ => false
  end.

End IEEE.

(** A binary64 grid of three levels (unevenly spaced in [z]) and three
    latitudes (evenly spaced) with a well-behaved density and cosine, zonal
    means, and three choices of stability: positive, negative and zero. *)
Module Sample64.

Local Open Scope float_scope.

Definition z : Arr float := of_list 0 [8192; 2048; 0].
Definition lat : Arr float := of_list 0 [0.5; 0; -0.5].
Definition rho : Arr float := of_list 1 [0.25; 0.5; 1].
Definition cos_lat : Arr float := of_list 1 [0.875; 1; 0.875].
Definition f : Arr float := of_list 0 [0.0001220703125; 0; -0.0001220703125].
Definition a : float := Process.a.
Definition offset : Field3 float := fun _ _ _ => 0.0000152587890625.
Definition v_bar : Field3 float := fun _ _ _ => 1.5.
Definition w_bar : Field3 float := fun _ _ _ => 0.25.
Definition u_bar : Field3 float := fun _ k _ => if (k =? 0)%nat then 20 else 5.
Definition uv_bar : Field3 float := fun _ _ _ => 2.
Definition uw_bar : Field3 float := fun _ _ _ => 0.125.
Definition heat_flux : Field3 float := fun _ _ _ => 3.
Definition heat_flux_zero : Field3 float := fun _ _ _ => 0.
Definition N2_positive : Field3 float := fun _ _ _ => 0.0078125.
Definition N2_negative : Field3 float := fun _ _ _ => -0.0078125.
Definition N2_zero : Field3 float := fun _ _ _ => 0.
Definition zero_field : Field3 float := fun _ _ _ => 0.
Definition h_flat : Field4 float := fun _ _ _ _ => 1024.
Definition w_cartesian : Field4 float := fun _ _ _ _ => 0.5.

(** A field with an infinite value at the first longitude, and a field
    with the values 0.1, 0.2, 0.4 along the longitudes. *)
Definition with_infinity : Field4 float :=
  fun _ _ _ l => if (l =? 0)%nat then infinity else 1.
Definition tenths : Field4 float :=
  fun _ _ _ l =>
    of_list 0 [float_of_dec 1 (-1); float_of_dec 2 (-1); float_of_dec 4 (-1)]
      l.

End Sample64.

(** ** The first cells: enumerating the input files *)

Module Adapter.

Local Open Scope string_scope.

(** What a path of the file system leads to, if it exists: a directory
    with its entries in the order in which [os.listdir] returns them, a
    directory that may not be read, or a regular file. *)
Inductive node : Set :=
| Directory (entries : list string)
| Unreadable
| RegularFile.

Definition FileSystem : Type := string -> option node.

(** [os.listdir] *)
Definition listdir (fs : FileSystem) (path : string) : result (list string) :=
  match fs path with
  | Some (Directory entries) => Ok entries
  | Some Unreadable => Raise PermissionError
  | Some RegularFile => Raise NotADirectoryError
  | None => Raise FileNotFoundError
  end.

(** [era_dir] *)
Definition era_dir : string :=
  "/gpfs/fs1/collections/rda/data/ds633.1/e5.moda.an.pl".

(** [names = ['u', 'v', 'w', 'T', 'Z']] *)
Definition names : list string := ["u"; "v"; "w"; "T"; "Z"].

(** [sorted] on strings: insertion sort by code points. *)
Fixpoint insert_sorted (x : string) (l : list string) : list string :=
  match l with
  | [] => [x]
  | y :: l' => if String.leb x y then x :: l else y :: insert_sorted x l'
  end.

Definition sorted (l : list string) : list string :=
  fold_right insert_sorted [] l.

(** [x.lower()] on ASCII letters. *)
Definition lower_ascii (c : ascii) : ascii :=
  let n := nat_of_ascii c in
  if ((65 <=? n) && (n <=? 90))%nat then ascii_of_nat (n + 32) else c.

Fixpoint lower (s : string) : string :=
  match s with
  | EmptyString => EmptyString
  | String c s' => String (lower_ascii c) (lower s')
  end.

(** [x.endswith(suffix)] *)
Definition endswith (x suffix : string) : bool :=
  let n := String.length x in
  let m := String.length suffix in
  ((m <=? n)%nat && String.eqb (substring (n - m) m x) suffix)%bool.

(** [pattern in x] *)
Fixpoint contains (pattern x : string) : bool :=
  (prefix pattern x
   || match x with
      | EmptyString => false
      | String _ x' => contains pattern x'
      end)%bool.

(** [str] of an integer, as an f-string formats it. *)
Definition str (n : Z) : string := NilZero.string_of_int (Z.to_int n).

(** White space and digits among the ASCII characters, and [x.strip()]. *)
Definition isspace (c : ascii) : bool :=
  let n := nat_of_ascii c in
  (((9 <=? n) && (n <=? 13)) || ((28 <=? n) && (n <=? 32)))%nat.

Definition isdigit (c : ascii) : bool :=
  let n := nat_of_ascii c in ((48 <=? n) && (n <=? 57))%nat.

Fixpoint lstrip (s : string) : string :=
  match s with
  | EmptyString => EmptyString
  | String c s' => if isspace c then lstrip s' else s
  end.

Fixpoint rstrip (s : string) : string :=
  match s with
  | EmptyString => EmptyString
  | String c s' =>
      match rstrip s' with
      | EmptyString => if isspace c then EmptyString else String c EmptyString
      | r => String c r
      end
  end.

Definition strip (s : string) : string := rstrip (lstrip s).

(** The digits of a numeral without its underscores; nothing when the
    numeral is empty, has another character, or has an underscore that
    does not stand between two digits. *)
Fixpoint ungroup (s : string) (after_digit : bool) : option string :=
  match s with
  | EmptyString => if after_digit then Some EmptyString else None
  | String c s' =>
      if isdigit c then option_map (String c) (ungroup s' true)
      else if (Ascii.eqb c "_" && after_digit)%bool then ungroup s' false
      else None
  end.

(** [int] of a string of ASCII characters, in base ten: white space at
    both ends is dropped, then comes an optional sign and then digits,
    among which single underscores may stand between two digits. *)
Definition int_decimal (x : string) : result Z :=
  let (negative, numeral) :=
    match strip x with
    | String "-" s => (true, s)
    | String "+" s => (false, s)
    | s => (false, s)
    end in
  match ungroup numeral false with
  | Some digits =>
      match NilZero.uint_of_string digits with
      | Some d =>
          Ok (Z.of_int (if negative then Decimal.Neg d else Decimal.Pos d))
      | None => Raise ValueError
      end
  | None => Raise ValueError
  end.

(** [[f(x) for x in l]] for an [f] that may raise. *)
Fixpoint map_result {A B : Type} (f : A -> result B) (l : list A)
  : result (list B) :=
  match l with
  | [] => Ok []
  | x :: l' => y <- f x ;; ys <- map_result f l' ;; Ok (y :: ys)
  end.

(** [[x for x in fnames if f'_{name.lower()}.' in x][0]] *)
Definition matching (fnames : list string) (name : string) : list string :=
  filter (contains ("_" ++ lower name ++ ".")) fnames.

Definition fname (fnames : list string) (name : string) : result string :=
  match matching fnames name with
  | x :: _ => Ok x
  | [] => Raise IndexError
  end.

(** [year_dir = f'{era_dir}/{year}'] *)
Definition year_dir (year : Z) : string := era_dir ++ "/" ++ str year.

(** The inner loop [for name in names], appending
    [f'{year_dir}/{fname}']. *)
Fixpoint year_fnames (year_dir : string) (fnames names : list string)
  : result (list string) :=
  match names with
  | [] => Ok []
  | name :: names' =>
      x <- fname fnames name ;;
      rest <- year_fnames year_dir fnames names' ;;
      Ok ((year_dir ++ "/" ++ x) :: rest)
  end.

(** The outer loop [for year in years]. *)
Fixpoint ds_fnames (fs : FileSystem) (years : list Z) : result (list string) :=
  match years with
  | [] => Ok []
  | year :: years' =>
      entries <- listdir fs (year_dir year) ;;
      let fnames := filter (fun x => endswith x "nc") entries in
      here <- year_fnames (year_dir year) fnames names ;;
      rest <- ds_fnames fs years' ;;
      Ok (here ++ rest)%list
  end.

(** The exceptions of the enumeration: [IndexError] from [[...][0]] and
    the three of [os.listdir]. *)
Definition enumeration_error (e : exn) : Prop :=
  e = IndexError \/ e = FileNotFoundError \/ e = NotADirectoryError \/
  e = PermissionError.

(** The two messages the cells print. *)
Definition years_message (years : list Z) (first last : Z) : string :=
  "Found " ++ str (Z.of_nat (List.length years))
  ++ " years of ERA5 data, starting with " ++ str first
  ++ " and ending with " ++ str last ++ ".".

Definition files_message (found expected : nat) : string :=
  "Found " ++ str (Z.of_nat found) ++ " files out of an expected "
  ++ str (Z.of_nat expected) ++ ".".

(** What a run does to the output file [data.nc]:
    [ds.to_netcdf(path, compute=False)] creates the file and returns the
    job that will fill it, and [job.compute()] fills it. *)
Inductive DataFile (T : Type) : Type :=
| Untouched                   (* not created by this run *)
| Unfinished                  (* created, but not filled to the end *)
| Complete (out : Output T).  (* created and filled *)

Arguments Untouched {T}.
Arguments Unfinished {T}.
Arguments Complete {T} out.

(** What a run of the notebook leaves behind: the exception that stopped
    it, if any, the lines of its two [print] calls, and what it did to
    [data.nc].  What [display(ds)] and the progress bar of dask show is
    left out. *)
Record Run (T : Type) : Type := {
  raised : option exn;
  printed : list string;
  written : DataFile T
}.

Arguments raised {T} r.
Arguments printed {T} r.
Arguments written {T} r.

Section Notebook.

Context {T : Type} {num : Num T} {ufuncs : Ufuncs T}.

(** Given from outside: Python's [int] on a directory name,
    [xr.open_mfdataset] on the list of files, the exception, if any, with
    which [to_netcdf] fails and whether it had created [data.nc] by then,
    and the exception, if any, with which the deferred computation fails
    (no room on the disk, an input file that cannot be read when its
    chunks are finally loaded). *)
Variable int : string -> result Z.
Variable open_mfdataset : list string -> result (RawDataset T).
Variable to_netcdf : Output T -> option (exn * bool).
Variable compute : Output T -> option exn.

(** [years = [int(x) for x in sorted(os.listdir(era_dir))]] *)
Definition years (fs : FileSystem) : result (list Z) :=
  entries <- listdir fs era_dir ;;
  map_result int (sorted entries).

Definition stopped (e : exn) (lines : list string) (file : DataFile T)
  : Run T :=
  {| raised := Some e; printed := lines; written := file |}.

(** The notebook from its first cell to [job.compute()].  An exception in
    a cell ends the run there.  The cells that build the diagnostics
    raise, if they do, when they are run, before [to_netcdf]; the values
    themselves are computed by [job.compute()]. *)
Definition run (fs : FileSystem) : Run T :=
  match years fs with
  | Raise e => stopped e [] Untouched
  | Ok ys =>
      match ys with
      | [] => stopped IndexError [] Untouched         (* years[0] *)
      | first :: _ =>
          let line1 := years_message ys first (last ys first) in
          match ds_fnames fs ys with
          | Raise e => stopped e [line1] Untouched
          | Ok files =>
              let line2 :=
                files_message (List.length files)
                  (List.length ys * List.length names) in
              match open_mfdataset files with
              | Raise e => stopped e [line1; line2] Untouched
              | Ok ds =>
                  match Process.process ds with
                  | Raise e => stopped e [line1; line2] Untouched
                  | Ok out =>
                      match to_netcdf out with
                      | Some (e, created) =>
                          stopped e [line1; line2]
                            (if created then Unfinished else Untouched)
                      | None =>
                          match compute out with
                          | Some e => stopped e [line1; line2] Unfinished
                          | None =>
                              {| raised := None;
                                 printed := [line1; line2];
                                 written := Complete out |}
                          end
                      end
                  end
              end
          end
      end
  end.

End Notebook.

(** The five files of a year, as the archive names them. *)
Definition year_files (year : string) : list string :=
  ["e5.moda.an.pl.128_129_z.ll025sc." ++ year ++ ".nc";
   "e5.moda.an.pl.128_130_t.ll025sc." ++ year ++ ".nc";
   "e5.moda.an.pl.128_131_u.ll025uv." ++ year ++ ".nc";
   "e5.moda.an.pl.128_132_v.ll025uv." ++ year ++ ".nc";
   "e5.moda.an.pl.128_135_w.ll025sc." ++ year ++ ".nc"].

(** A two-year archive, complete, and the same archive with the
    temperature file of 1980 missing. *)
Definition complete_archive : FileSystem :=
  fun path =>
    if String.eqb path era_dir then Some (Directory ["1980"; "1979"])
    else if String.eqb path (year_dir 1979) then
      Some (Directory
              ["e5.moda.an.pl.128_131_u.ll025uv.1979.nc";
               "e5.moda.an.pl.128_132_v.ll025uv.1979.nc";
               "e5.moda.an.pl.128_135_w.ll025sc.1979.nc";
               "e5.moda.an.pl.128_130_t.ll025sc.1979.nc";
               "e5.moda.an.pl.128_129_z.ll025sc.1979.nc";
               "readme.txt"])
    else if String.eqb path (year_dir 1980) then
      Some (Directory (year_files "1980"))
    else None.

Definition incomplete_archive : FileSystem :=
  fun path =>
    if String.eqb path (year_dir 1980) then
      Some (Directory
              ["e5.moda.an.pl.128_129_z.ll025sc.1980.nc";
               "e5.moda.an.pl.128_131_u.ll025uv.1980.nc";
               "e5.moda.an.pl.128_132_v.ll025uv.1980.nc";
               "e5.moda.an.pl.128_135_w.ll025sc.1980.nc"])
    else complete_archive path.

(** An archive that holds the years 1979 and 1981, each with its five
    files, and nothing of 1980. *)
Definition gap_archive : FileSystem :=
  fun path =>
    if String.eqb path era_dir then Some (Directory ["1979"; "1981"])
    else if String.eqb path (year_dir 1979) then
      Some (Directory (year_files "1979"))
    else if String.eqb path (year_dir 1981) then
      Some (Directory (year_files "1981"))
    else None.

(** The order of [sorted]: code point by code point. *)
Definition leb_rel (x y : string) : Prop := String.leb x y = true.

(** The files that the loops collect on the complete archive. *)
Definition complete_files : list string :=
  Eval vm_compute in
    match ds_fnames complete_archive [1979; 1980]%Z with
    | Ok files => files
    | Raise _ => []
    end.

End Adapter.

(** ** Coordinate alignment in xarray arithmetic

    The variables of one [xr.Dataset] share its coordinates, which is why
    the cells above multiply fields index by index.  The operator [*]
    itself is more general: applied to two [DataArray]s it first aligns
    them on their index labels. *)

Module XArray.

Section Labelled.

Context {T : Type} {num : Num T}.

(** A one-dimensional [DataArray]: (coordinate label, value) in storage
    order. *)
Definition DataArray : Type := list (T * T).

(** The array of length [n] with coordinate [coord] and values [vals]. *)
Definition labelled (n : nat) (coord vals : Arr T) : DataArray :=
  map (fun i => (coord i, vals i)) (seq 0 n).

Definition index (A : DataArray) : list T := map fst A.
Definition values (A : DataArray) : list T := map snd A.

(** The value stored under a label, if the index has that label. *)
Definition sel (label : T) (A : DataArray) : option T :=
  match find (fun e => eqb (fst e) label) A with
  | Some e => Some (snd e)
  | None => None
  end.

(** [A * B] for two indexes whose labels are pairwise distinct (see
    [index_ok] below; an index with a label twice is outside this model):
    with xarray's default [arithmetic_join='inner'] the result lives on
    the labels of [A] that [B] has as well; labels that only one operand
    has are left out, and nothing is raised. *)
Definition multiply (A B : DataArray) : DataArray :=
  flat_map
    (fun e =>
       match sel (fst e) B with
       | Some y => [(fst e, mul (snd e) y)]
       | None => []
       end)
    A.

(** [A.mean(dim)] *)
Definition mean (A : DataArray) : T :=
  nanmean (List.length A) (fun i => nth i (values A) (of_Z 0)).

(** [(A * B).mean(dim)], the shape of the notebook's covariances. *)
Definition covariance (A B : DataArray) : T := mean (multiply A B).

(** Every label of a coordinate of length [n] equals itself and no
    other. *)
Definition index_ok (n : nat) (coord : Arr T) : bool :=
  forallb
    (fun i =>
       forallb
         (fun j => Bool.eqb (eqb (coord i) (coord j)) (i =? j)%nat)
         (seq 0 n))
    (seq 0 n).

End Labelled.

End XArray.

(** Two latitude grids in binary64 that differ in the last place of one
    label: 0.1 + 0.2 against 0.3. *)
Module Grids64.

Local Open Scope float_scope.

Definition lat_a : Arr float :=
  of_list 0 [0.25; float_of_dec 1 (-1) + float_of_dec 2 (-1); 0.5].
Definition lat_b : Arr float := of_list 0 [0.25; float_of_dec 3 (-1); 0.5].
Definition v_prime : Arr float := of_list 0 [1; 2; 4].
Definition theta_prime : Arr float := of_list 0 [8; 16; 32].

End Grids64.

(** ** Coordinates in exact arithmetic *)

(** A coordinate that strictly increases, or strictly decreases. *)
Definition strictly_monotone (n : nat) (x : Arr R) : Prop :=
  (forall i, (S i < n)%nat -> (x i < x (S i))%R) \/
  (forall i, (S i < n)%nat -> (x (S i) < x i)%R).

(** * Properties *)

(** ** The array operations on small inputs *)

(** [np.gradient] of z^2 on the unevenly spaced levels 8192, 2048, 0: the
    one-sided differences at the ends and the exact derivative 2z in the
    interior. *)
Example gradient_at_uneven :
  map (gradient_at 3 Sample64.z (of_list 0 [67108864; 4194304; 0])%float)
    [0; 1; 2]%nat
  = [10240; 4096; 2048]%float.
Proof. vm_compute. reflexivity. Qed.

(** [np.gradient] on the evenly spaced latitudes 0.5, 0, -0.5: the centred
    difference in the interior. *)
Example gradient_at_even :
  map (gradient_at 3 Sample64.lat (of_list 0 [1; 4; 16])%float) [0; 1; 2]%nat
  = [-6; -15; -24]%float.
Proof. vm_compute. reflexivity. Qed.

(** The mean skips NaN, and the mean of nothing is NaN. *)
Example nanmean_skips_nan :
  nanmean 4 (of_list 0 [1; nan; 3; 8])%float = 4%float /\
  PrimFloat.is_nan (nanmean 0 (of_list 0%float [])) = true.
Proof. vm_compute. split; reflexivity. Qed.

(** The two messages of a run on the complete two-year archive. *)
Example messages_of_complete_archive :
  Adapter.printed
    (Adapter.run (T := R) Adapter.int_decimal (fun _ => Raise ValueError)
       (fun _ => None) (fun _ => None) Adapter.complete_archive)
  = ["Found 2 years of ERA5 data, starting with 1979 and ending with 1980.";
     "Found 10 files out of an expected 10."]%string.
Proof. vm_compute. reflexivity. Qed.

(** [int] on directory names: blanks at the ends, a sign and single
    underscores between digits are accepted, anything else is not. *)
Example int_decimal_on_names :
  map Adapter.int_decimal
    ["1979"; " 1979 "; "+1_979"; "-0"; "0042";
     "1__979"; "_1979"; "1979_"; "19 79"; "1979.nc"; "+"; ""]%string
  = [Ok 1979; Ok 1979; Ok 1979; Ok 0; Ok 42;
     Raise ValueError; Raise ValueError; Raise ValueError; Raise ValueError;
     Raise ValueError; Raise ValueError; Raise ValueError]%Z.
Proof. vm_compute. reflexivity. Qed.

(** ** Extensionality of the array operations *)

Section ArrayLemmas.

Context {T : Type} {num : Num T}.

Lemma gradient_at_ext (n : nat) (x f g : Arr T) (i : nat) :
  (forall k, f k = g k) -> gradient_at n x f i = gradient_at n x g i.
Proof.
  intros E. unfold gradient_at. now rewrite !E.
Qed.

Lemma nanmean_ext (n : nat) (f g : Arr T) :
  (forall l, f l = g l) -> nanmean n f = nanmean n g.
Proof.
  intros E. unfold nanmean.
  now rewrite (map_ext f g E).
Qed.

Lemma uniform_spacing_ext (n : nat) (x y : Arr T) :
  (forall k, x k = y k) -> uniform_spacing n x = uniform_spacing n y.
Proof.
  intros E. unfold uniform_spacing, diff.
  induction (seq 0 (n - 1)) as [|i l IH]; simpl; [reflexivity|].
  now rewrite IH, !E.
Qed.

Lemma gradient_at_ext2 (n : nat) (x y f g : Arr T) (i : nat) :
  (forall k, x k = y k) -> (forall k, f k = g k) ->
  gradient_at n x f i = gradient_at n y g i.
Proof.
  intros Ex Ef. rewrite (gradient_at_ext n x f g i Ef).
  unfold gradient_at. rewrite (uniform_spacing_ext n x y Ex).
  unfold diff. now rewrite !Ex.
Qed.

(** Only the samples on the axis matter. *)
Lemma gradient_at_ext_in (n : nat) (x f g : Arr T) (i : nat) :
  (2 <= n)%nat -> (i < n)%nat -> (forall k, (k < n)%nat -> f k = g k) ->
  gradient_at n x f i = gradient_at n x g i.
Proof.
  intros Hn Hi E. unfold gradient_at.
  destruct (Nat.eqb_spec i 0) as [->|H0].
  { now rewrite (E 1%nat), (E 0%nat) by lia. }
  destruct (Nat.eqb_spec i (n - 1)) as [->|Hl].
  { now rewrite (E (n - 1)%nat), (E (n - 2)%nat) by lia. }
  now rewrite (E (i + 1)%nat), (E (i - 1)%nat), (E i) by lia.
Qed.

End ArrayLemmas.


(** ** The real-number reading of the array operations *)

Section RealArrays.

Local Open Scope R_scope.

Lemma filter_all {A : Type} (l : list A) : filter (fun _ => true) l = l.
Proof. induction l as [|x l IH]; simpl; now rewrite ?IH. Qed.

Lemma nansum_R (l : list R) : nansum l = fold_right Rplus 0 l.
Proof.
  unfold nansum. cbn [add of_Z R_Num].
  apply fold_symmetric; intros; ring.
Qed.

Lemma nanmean_R (n : nat) (x : Arr R) :
  nanmean n x = fold_right Rplus 0 (map x (seq 0 n)) / INR n.
Proof.
  unfold nanmean. cbn [isnan div of_Z R_Num negb].
  rewrite filter_all, nansum_R, length_map, length_seq.
  now rewrite <- INR_IZR_INZ.
Qed.

Lemma mean_lon_R (nlon : nat) (F : Field4 R) (t k j : nat) :
  Process.mean_lon nlon F t k j = Spec.zonal_mean nlon F t k j.
Proof. unfold Process.mean_lon, Spec.zonal_mean. apply nanmean_R. Qed.

Lemma zonal_mean_ext (nlon : nat) (F G : Field4 R) (t k j : nat) :
  (forall l, F t k j l = G t k j l) ->
  Spec.zonal_mean nlon F t k j = Spec.zonal_mean nlon G t k j.
Proof.
  intros E. unfold Spec.zonal_mean.
  now rewrite (map_ext (F t k j) (G t k j) E).
Qed.

Lemma covariance_R (nlon : nat) (A B : Field4 R) (t k j : nat) :
  Process.covariance nlon
    (Process.eddy A (Process.mean_lon nlon A))
    (Process.eddy B (Process.mean_lon nlon B)) t k j
  = Spec.eddy_covariance nlon A B t k j.
Proof.
  unfold Process.covariance, Spec.eddy_covariance.
  rewrite mean_lon_R. apply zonal_mean_ext. intros l.
  unfold Process.eddy, Spec.eddy_part. cbn [sub mul R_Num].
  now rewrite !mean_lon_R.
Qed.

End RealArrays.


(** Runs the notebook on a dataset with at least two levels and two
    latitudes: every [differentiate] and the [p[-1]] succeed. *)
Ltac run_process Hz Hlat :=
  unfold Process.process, Process.notebook, Process.diagnostics,
    Process.p_surf, Process.dzdh, Process.N2, Process.v_star,
    Process.w_star, Process.offset, Process.F_lat, Process.EPFD,
    Process.differentiate_z4, Process.differentiate_z,
    Process.differentiate_lat;
  rewrite ?(proj2 (Nat.ltb_ge _ 2) Hz), ?(proj2 (Nat.ltb_ge _ 2) Hlat);
  replace (Nat.eqb _ 0) with false
    by (symmetry; apply Nat.eqb_neq; lia);
  cbn [bind].

(** The results of the notebook are the results of its cells on the
    intermediate fields: whatever the arithmetic, [v_star], [w_star],
    [F_lat], [F_z] and [EPFD] of the final namespace are the values of the
    functions of the same names at the N2 and heat flux that are written
    out. *)
Lemma notebook_stages
  (T : Type) (num : Num T) (ufuncs : Ufuncs T) (ds : RawDataset T) :
  (2 <= n_level ds)%nat -> (2 <= n_latitude ds)%nat ->
  exists ns uv_bar uw_bar offset,
    let nz := n_level ds in
    let nlat := n_latitude ds in
    let out := nb_ds ns in
    let cos_lat := Process.cos_lat (nb_lat ns) in
    let w_bar := Process.mean_lon (n_longitude ds) (nb_w ns) in
    Process.notebook ds = Ok ns /\
    Process.v_star nz (nb_z ns) (nb_rho ns) (out_v out) (out_heat_flux out)
      (out_N2 out) = Ok (out_v_star out) /\
    Process.w_star nlat (nb_lat ns) cos_lat Process.a w_bar
      (out_heat_flux out) (out_N2 out) = Ok (out_w_star out) /\
    Process.F_lat nz (nb_z ns) (nb_rho ns) cos_lat (out_u out)
      (out_heat_flux out) (out_N2 out) uv_bar = Ok (nb_F_lat ns) /\
    nb_F_z ns
    = Process.F_z (nb_rho ns) cos_lat (Process.f (nb_lat ns)) Process.a
        offset (out_heat_flux out) (out_N2 out) uw_bar /\
    Process.EPFD nz nlat (nb_z ns) (nb_lat ns) (nb_rho ns) cos_lat Process.a
      (nb_F_lat ns) (nb_F_z ns) = Ok (out_EPFD out).
Proof.
  intros Hz Hlat.
  unfold Process.notebook, Process.diagnostics, Process.p_surf, Process.dzdh,
    Process.N2, Process.differentiate_z4.
  rewrite (proj2 (Nat.ltb_ge _ 2) Hz).
  replace (Nat.eqb _ 0) with false by (symmetry; apply Nat.eqb_neq; lia).
  cbn [bind]. unfold Process.differentiate_z at 1.
  rewrite (proj2 (Nat.ltb_ge _ 2) Hz). cbn [bind].
  destruct (Process.v_star _ _ _ _ _ _) as [Vs|e] eqn:EV.
  2: { unfold Process.v_star, Process.differentiate_z in EV.
       rewrite (proj2 (Nat.ltb_ge _ 2) Hz) in EV. discriminate. }
  destruct (Process.w_star _ _ _ _ _ _ _) as [Ws|e] eqn:EW.
  2: { unfold Process.w_star, Process.differentiate_lat in EW.
       rewrite (proj2 (Nat.ltb_ge _ 2) Hlat) in EW. discriminate. }
  destruct (Process.offset _ _ _ _ _) as [Of|e] eqn:EO.
  2: { unfold Process.offset, Process.differentiate_lat in EO.
       rewrite (proj2 (Nat.ltb_ge _ 2) Hlat) in EO. discriminate. }
  destruct (Process.F_lat _ _ _ _ _ _ _ _) as [Fl|e] eqn:EF.
  2: { unfold Process.F_lat, Process.differentiate_z in EF.
       rewrite (proj2 (Nat.ltb_ge _ 2) Hz) in EF. discriminate. }
  cbn [bind].
  destruct (Process.EPFD _ _ _ _ _ _ _ _ _) as [Ep|e] eqn:EE.
  2: { unfold Process.EPFD, Process.differentiate_lat, Process.differentiate_z
         in EE.
       rewrite (proj2 (Nat.ltb_ge _ 2) Hz), (proj2 (Nat.ltb_ge _ 2) Hlat)
         in EE.
       discriminate. }
  cbn [bind]. do 4 eexists. cbn zeta.
  split; [reflexivity|].
  cbn [nb_ds nb_z nb_rho nb_lat nb_w nb_F_lat nb_F_z out_v out_u
         out_heat_flux out_N2 out_v_star out_w_star out_EPFD].
  split; [exact EV|]. split; [exact EW|]. split; [exact EF|].
  split; [reflexivity | exact EE].
Qed.

(** ** Finite differences in exact arithmetic *)

Section GradientR.

Local Open Scope R_scope.

Lemma uniform_spacing_R (n : nat) (x : Arr R) (i : nat) :
  uniform_spacing n x = true -> (S i < n)%nat ->
  x (S i) - x i = x 1%nat - x 0%nat.
Proof.
  unfold uniform_spacing. rewrite forallb_forall. intros Hu Hi.
  specialize (Hu i (proj2 (in_seq (n - 1) 0 i) ltac:(lia))).
  cbn [eqb R_Num] in Hu. unfold Req_bool, diff in Hu. cbn [sub R_Num] in Hu.
  destruct (Req_dec_T _ _) as [E|E]; [exact E | discriminate].
Qed.

Lemma strictly_monotone_steps (n : nat) (x : Arr R) (i : nat) :
  strictly_monotone n x -> (S (S i) < n)%nat ->
  x (S i) - x i <> 0 /\ x (S (S i)) - x (S i) <> 0 /\
  x (S i) - x i + (x (S (S i)) - x (S i)) <> 0.
Proof.
  intros [H|H] Hi;
    pose proof (H i ltac:(lia)); pose proof (H (S i) ltac:(lia));
    repeat split; lra.
Qed.

Lemma gradient_at_affine_aux (m : nat) (x : Arr R) (alpha beta : R) (i : nat) :
  (i < S (S m))%nat -> strictly_monotone (S (S m)) x ->
  gradient_at (S (S m)) x (fun k => alpha * x k + beta) i = alpha.
Proof.
  intros Hi Hm. unfold gradient_at, diff.
  cbn [add sub mul div neg of_Z R_Num].
  assert (H01 : x 1%nat - x 0%nat <> 0).
  { destruct Hm as [H|H]; pose proof (H 0%nat ltac:(lia)); lra. }
  destruct i as [|i]; cbn [Nat.eqb].
  { field. exact H01. }
  replace (S (S m) - 1)%nat with (S m) by lia.
  replace (S (S m) - 2)%nat with m by lia.
  destruct (Nat.eqb_spec i m) as [->|E].
  - assert (Hl : x (S m) - x m <> 0).
    { destruct Hm as [H|H]; pose proof (H m ltac:(lia)); lra. }
    destruct (uniform_spacing (S (S m)) x) eqn:U.
    + pose proof (uniform_spacing_R _ x m U ltac:(lia)) as Eu.
      rewrite <- Eu. field. exact Hl.
    + field. exact Hl.
  - replace (S i + 1)%nat with (S (S i)) by lia.
    replace (S i - 1)%nat with i by lia.
    destruct (strictly_monotone_steps _ x i Hm ltac:(lia)) as (H1 & H2 & H3).
    destruct (uniform_spacing (S (S m)) x) eqn:U.
    + pose proof (uniform_spacing_R _ x i U ltac:(lia)) as E1.
      pose proof (uniform_spacing_R _ x (S i) U ltac:(lia)) as E2.
      assert (E3 : x (S (S i)) = x i + 2 * (x 1%nat - x 0%nat)) by lra.
      rewrite E3. field. exact H01.
    + field. repeat split; assumption.
Qed.

Lemma gradient_at_of_affine (n : nat) (x : Arr R) (alpha beta : R) (i : nat) :
  (2 <= n)%nat -> (i < n)%nat -> strictly_monotone n x ->
  gradient_at n x (fun k => alpha * x k + beta) i = alpha.
Proof.
  intros Hn Hi Hm. destruct n as [|[|m]]; try lia.
  now apply gradient_at_affine_aux.
Qed.

(** [np.gradient] against the scheme of the specification: on a strictly
    monotone coordinate the two agree at every index, whether numpy takes
    the spacing for uniform or not. *)
Lemma finite_difference_of_gradient (n : nat) (x f : Arr R) (i : nat) :
  (2 <= n)%nat -> (i < n)%nat -> strictly_monotone n x ->
  gradient_at n x f i = Spec.finite_difference n x f i.
Proof.
  intros Hn Hi Hm. destruct n as [|[|m]]; try lia.
  unfold gradient_at, Spec.finite_difference, Spec.centred_difference,
    Spec.slope, diff.
  cbn [add sub mul div neg of_Z R_Num].
  assert (H01 : x 1%nat - x 0%nat <> 0).
  { destruct Hm as [H|H]; pose proof (H 0%nat ltac:(lia)); lra. }
  destruct i as [|i]; cbn [Nat.eqb]; [reflexivity|].
  replace (S (S m) - 1)%nat with (S m) by lia.
  replace (S (S m) - 2)%nat with m by lia.
  destruct (Nat.eqb_spec i m) as [->|E].
  - destruct (uniform_spacing (S (S m)) x) eqn:U; [|reflexivity].
    now rewrite <- (uniform_spacing_R _ x m U ltac:(lia)).
  - replace (S i + 1)%nat with (S (S i)) by lia.
    replace (S i - 1)%nat with i by lia.
    destruct (strictly_monotone_steps _ x i Hm ltac:(lia)) as (H1 & H2 & H3).
    destruct (uniform_spacing (S (S m)) x) eqn:U.
    + pose proof (uniform_spacing_R _ x i U ltac:(lia)) as E1.
      pose proof (uniform_spacing_R _ x (S i) U ltac:(lia)) as E2.
      rewrite E1, E2. field. split; [exact H01 | lra].
    + field. repeat split; assumption.
Qed.

Lemma gradient_at_spec (n : nat) (x y f g : Arr R) (i : nat) :
  (2 <= n)%nat -> (i < n)%nat -> strictly_monotone n y ->
  (forall k, x k = y k) -> (forall k, (k < n)%nat -> f k = g k) ->
  gradient_at n x f i = Spec.finite_difference n y g i.
Proof.
  intros Hn Hi Hm Ex Ef.
  rewrite (gradient_at_ext2 n x y f f i Ex (fun _ => eq_refl)).
  rewrite (gradient_at_ext_in n y f g i Hn Hi Ef).
  now apply finite_difference_of_gradient.
Qed.

(** The scheme of the specification is what its description says: with
    equal steps to the two neighbours the centred difference is the
    quotient between the neighbours, and on the samples of a parabola it is
    the slope of the parabola at the point. *)
Lemma centred_difference_equal_steps (x f : Arr R) (i : nat) :
  x (i + 1)%nat - x i = x i - x (i - 1)%nat -> x i - x (i - 1)%nat <> 0 ->
  Spec.centred_difference x f i
  = (f (i + 1)%nat - f (i - 1)%nat) / (x (i + 1)%nat - x (i - 1)%nat).
Proof.
  intros E H. unfold Spec.centred_difference, Spec.slope.
  cbv zeta. rewrite E.
  replace (x (i + 1)%nat - x (i - 1)%nat) with (2 * (x i - x (i - 1)%nat))
    by lra.
  field. split; [exact H | lra].
Qed.

Lemma centred_difference_parabola (x : Arr R) (a b c : R) (i : nat) :
  x i - x (i - 1)%nat <> 0 -> x (i + 1)%nat - x i <> 0 ->
  x (i + 1)%nat - x (i - 1)%nat <> 0 ->
  Spec.centred_difference x (fun k => a * x k * x k + b * x k + c) i
  = 2 * a * x i + b.
Proof.
  intros H1 H2 H3. unfold Spec.centred_difference, Spec.slope.
  cbv zeta. field. repeat split; try assumption. lra.
Qed.

(** With unequal steps the centred difference is not the quotient
    between the two neighbours: on the points 0, 1, 3 the square has the
    centred difference 2 at the middle point, its slope there, while the
    quotient between the neighbours is 3. *)
Example centred_difference_unequal_steps :
  let x := of_list 0 [0; 1; 3] in
  let f := fun k => x k * x k in
  Spec.centred_difference x f 1 = 2 /\
  (f 2%nat - f 0%nat) / (x 2%nat - x 0%nat) = 3.
Proof.
  cbv zeta. unfold Spec.centred_difference, Spec.slope, of_list.
  cbn [Nat.sub Nat.add nth]. split; field.
Qed.

End GradientR.


Lemma a_R : @Process.a R _ = Spec.a.
Proof.
  unfold Process.a, Spec.a. cbn [of_dec R_Num]. simpl powerRZ. lra.
Qed.

Section RealPipeline.

Local Open Scope R_scope.

Variable ds : RawDataset R.
Variable ps : R.

Let nz := n_level ds.
Let nlat := n_latitude ds.
Let nlon := n_longitude ds.
Let p := Process.p (level ds).
Let lat := Process.lat (latitude ds).
Let z := Process.z p ps.
Let rho := Process.rho z.

(** The axes have two points or more, and the working coordinates are
    strictly monotone. *)
Hypothesis Hnz : (2 <= nz)%nat.
Hypothesis Hnlat : (2 <= nlat)%nat.
Hypothesis Hmz : strictly_monotone nz (Spec.z ds ps).
Hypothesis Hml : strictly_monotone nlat (Spec.phi ds).

Lemma lat_R (j : nat) : lat j = Spec.phi ds j.
Proof.
  unfold lat, Process.lat, Spec.phi.
  cbn [mul div of_Z np_pi R_Num R_Ufuncs]. lra.
Qed.

Lemma z_R (k : nat) : z k = Spec.z ds ps k.
Proof.
  unfold z, p, Process.z, Process.p, Process.H, Spec.z, Spec.p_SI, Spec.H.
  cbn [mul div of_Z np_log R_Num R_Ufuncs Z.opp]. lra.
Qed.

Lemma rho_R (k : nat) : rho k = Spec.rho ds ps k.
Proof.
  unfold rho, Process.rho, Spec.rho. fold z. rewrite z_R.
  reflexivity.
Qed.

Lemma theta_R (t k j l : nat) :
  Process.theta (var_T ds) ps p t k j l = Spec.theta ds ps t k j l.
Proof.
  unfold Process.theta, Spec.theta, Spec.kappa, p, Process.p, Spec.p_SI.
  cbn [mul div of_Z of_dec power R_Num R_Ufuncs].
  do 2 f_equal. simpl powerRZ. lra.
Qed.

Lemma theta_bar_R (t k j : nat) :
  Process.mean_lon nlon (Process.theta (var_T ds) ps p) t k j
  = Spec.theta_bar ds ps t k j.
Proof.
  rewrite mean_lon_R. apply zonal_mean_ext. intros l. apply theta_R.
Qed.

(** Derivatives along the vertical and along latitude, as the notebook
    takes them on its working coordinates, against the scheme of the
    specification. *)
Lemma differentiate_z_R (F G : Arr R) (k : nat) :
  (k < nz)%nat -> (forall k', (k' < nz)%nat -> F k' = G k') ->
  gradient_at nz z F k = Spec.finite_difference nz (Spec.z ds ps) G k.
Proof.
  intros Hk E. apply gradient_at_spec; auto using z_R.
Qed.

Lemma differentiate_lat_R (F G : Arr R) (j : nat) :
  (j < nlat)%nat -> (forall j', (j' < nlat)%nat -> F j' = G j') ->
  gradient_at nlat lat F j = Spec.finite_difference nlat (Spec.phi ds) G j.
Proof.
  intros Hj E. apply gradient_at_spec; auto using lat_R.
Qed.

Lemma N2_R (t k j : nat) :
  (k < nz)%nat ->
  gradient_at nz z
    (fun k' => Process.mean_lon nlon (Process.theta (var_T ds) ps p) t k' j) k
  = Spec.N2 ds ps t k j.
Proof.
  intros Hk. unfold Spec.N2, Spec.d_dz.
  apply differentiate_z_R; [exact Hk | intros; apply theta_bar_R].
Qed.

Lemma eddy_covariance_ext (A A' B B' : Field4 R) (t k j : nat) :
  (forall l, A t k j l = A' t k j l) -> (forall l, B t k j l = B' t k j l) ->
  Spec.eddy_covariance nlon A B t k j = Spec.eddy_covariance nlon A' B' t k j.
Proof.
  intros EA EB. unfold Spec.eddy_covariance.
  apply zonal_mean_ext. intros l. unfold Spec.eddy_part.
  now rewrite (zonal_mean_ext nlon A A' t k j EA),
    (zonal_mean_ext nlon B B' t k j EB), EA, EB.
Qed.

Lemma heat_flux_R (t k j : nat) :
  Process.covariance nlon
    (Process.eddy (var_V ds) (Process.mean_lon nlon (var_V ds)))
    (Process.eddy (Process.theta (var_T ds) ps p)
       (Process.mean_lon nlon (Process.theta (var_T ds) ps p))) t k j
  = Spec.heat_flux ds ps t k j.
Proof.
  rewrite covariance_R. unfold Spec.heat_flux.
  apply eddy_covariance_ext; [reflexivity | intros; apply theta_R].
Qed.

Lemma w_R (t k j l : nat) :
  (k < nz)%nat ->
  Process.w
    (fun t k j l =>
       (of_Z 1
        / gradient_at nz z (fun k' => Process.h (var_Z ds) t k' j l) k)%num)
    (var_W ds) t k j l
  = Spec.w_target ds ps t k j l.
Proof.
  intros Hk. unfold Process.w, Spec.w_target.
  cbn [mul div of_Z R_Num].
  rewrite (differentiate_z_R (fun k' => Process.h (var_Z ds) t k' j l)
             (fun k' => Spec.height ds t k' j l) k Hk); [reflexivity|].
  intros k' _. unfold Process.h, Spec.height, Spec.g.
  cbn [div of_dec R_Num]. simpl powerRZ. lra.
Qed.

Lemma w_bar_R (t k j : nat) :
  (k < nz)%nat ->
  Process.mean_lon nlon
    (Process.w
       (fun t k j l =>
          (of_Z 1
           / gradient_at nz z (fun k' => Process.h (var_Z ds) t k' j l) k)%num)
       (var_W ds)) t k j
  = Spec.w_bar ds ps t k j.
Proof.
  intros Hk. rewrite mean_lon_R. apply zonal_mean_ext. intros l.
  now apply w_R.
Qed.

Lemma cos_lat_R (j : nat) : Process.cos_lat lat j = cos (Spec.phi ds j).
Proof.
  unfold Process.cos_lat. cbn [np_cos R_Ufuncs]. now rewrite lat_R.
Qed.

(** The two residual velocities as the notebook computes them, against
    the formulas of the specification. *)
Lemma v_star_R (t k j : nat) :
  (k < nz)%nat ->
  (Process.mean_lon nlon (var_V ds) t k j
   - gradient_at nz z
       (fun k' =>
          rho k'
          * Process.covariance nlon
              (Process.eddy (var_V ds) (Process.mean_lon nlon (var_V ds)))
              (Process.eddy (Process.theta (var_T ds) ps p)
                 (Process.mean_lon nlon (Process.theta (var_T ds) ps p)))
              t k' j
          / gradient_at nz z
              (fun k'' =>
                 Process.mean_lon nlon (Process.theta (var_T ds) ps p) t k'' j)
              k') k
     / rho k)%num
  = Spec.v_star ds ps t k j.
Proof.
  intros Hk. unfold Spec.v_star, Spec.d_dz, Spec.v_bar.
  rewrite (differentiate_z_R _
             (fun k' => Spec.rho ds ps k'
                        * (Spec.heat_flux ds ps t k' j / Spec.N2 ds ps t k' j))
             k Hk).
  - rewrite mean_lon_R, rho_R. cbn [sub div R_Num].
    unfold Rdiv, nz, nlon. ring.
  - intros k' Hk'. rewrite rho_R, heat_flux_R, (N2_R t k' j Hk').
    cbn [mul div R_Num]. unfold Rdiv. ring.
Qed.

Lemma w_star_R (t k j : nat) :
  (k < nz)%nat -> (j < nlat)%nat ->
  (Process.mean_lon nlon
     (Process.w
        (fun t k j l =>
           of_Z 1
           / gradient_at nz z (fun k' => Process.h (var_Z ds) t k' j l) k)
        (var_W ds)) t k j
   + gradient_at (n_latitude ds) lat
       (fun j' =>
          Process.cos_lat lat j'
          * Process.covariance nlon
              (Process.eddy (var_V ds) (Process.mean_lon nlon (var_V ds)))
              (Process.eddy (Process.theta (var_T ds) ps p)
                 (Process.mean_lon nlon (Process.theta (var_T ds) ps p)))
              t k j'
          / gradient_at nz z
              (fun k' =>
                 Process.mean_lon nlon (Process.theta (var_T ds) ps p) t k' j')
              k) j
     / (Process.a * Process.cos_lat lat j))%num
  = Spec.w_star ds ps t k j.
Proof.
  intros Hk Hj. unfold Spec.w_star, Spec.d_dphi.
  fold nlat.
  rewrite (differentiate_lat_R _
             (fun j' => cos (Spec.phi ds j')
                        * (Spec.heat_flux ds ps t k j' / Spec.N2 ds ps t k j'))
             j Hj).
  - rewrite (w_bar_R t k j Hk), cos_lat_R, a_R. cbn [add mul div R_Num].
    unfold Rdiv, nz, nlat, nlon. ring.
  - intros j' Hj'. rewrite cos_lat_R, heat_flux_R, (N2_R t k j' Hk).
    cbn [mul div R_Num]. unfold Rdiv. ring.
Qed.

(** The notebook's intermediate fields, as the cells bind them. *)
Let u_bar : Field3 R := Process.mean_lon nlon (var_U ds).
Let theta_bar : Field3 R :=
  Process.mean_lon nlon (Process.theta (var_T ds) ps p).
Let w : Field4 R :=
  Process.w
    (fun t k j l =>
       (of_Z 1
        / gradient_at nz z (fun k' => Process.h (var_Z ds) t k' j l) k)%num)
    (var_W ds).
Let heat_flux : Field3 R :=
  Process.covariance nlon
    (Process.eddy (var_V ds) (Process.mean_lon nlon (var_V ds)))
    (Process.eddy (Process.theta (var_T ds) ps p) theta_bar).
Let uv_bar : Field3 R :=
  Process.covariance nlon
    (Process.eddy (var_U ds) u_bar)
    (Process.eddy (var_V ds) (Process.mean_lon nlon (var_V ds))).
Let uw_bar : Field3 R :=
  Process.covariance nlon
    (Process.eddy (var_U ds) u_bar)
    (Process.eddy w (Process.mean_lon nlon w)).
Let N2 : Field3 R :=
  fun t k j => gradient_at nz z (fun k' => theta_bar t k' j) k.
Let cos_lat : Arr R := Process.cos_lat lat.
Let offset : Field3 R :=
  fun t k j =>
    (gradient_at (n_latitude ds) lat (fun j' => u_bar t k j' * cos_lat j') j
     / (Process.a * cos_lat j))%num.

Lemma u_bar_R (t k j : nat) : u_bar t k j = Spec.u_bar ds t k j.
Proof. apply mean_lon_R. Qed.

Lemma uv_bar_R (t k j : nat) : uv_bar t k j = Spec.uv_bar ds t k j.
Proof. apply covariance_R. Qed.

Lemma uw_bar_R (t k j : nat) :
  (k < nz)%nat -> uw_bar t k j = Spec.uw_bar ds ps t k j.
Proof.
  intros Hk. unfold uw_bar, u_bar. rewrite covariance_R. unfold Spec.uw_bar.
  apply eddy_covariance_ext; [reflexivity | intros; now apply w_R].
Qed.

Lemma f_R (j : nat) : Process.f lat j = Spec.coriolis ds j.
Proof.
  unfold Process.f, Process.Omega, Spec.coriolis, Spec.Omega.
  cbn [mul of_Z of_dec np_sin R_Num R_Ufuncs]. rewrite lat_R.
  simpl powerRZ. lra.
Qed.

Lemma offset_R (t k j : nat) :
  (j < nlat)%nat ->
  offset t k j
  = (Spec.d_dphi ds (fun t k j => Spec.u_bar ds t k j * cos (Spec.phi ds j))
       t k j
     / (Spec.a * cos (Spec.phi ds j)))%R.
Proof.
  intros Hj. unfold offset, Spec.d_dphi, cos_lat. fold nlat.
  rewrite (differentiate_lat_R _
             (fun j' => Spec.u_bar ds t k j' * cos (Spec.phi ds j'))%R j Hj).
  - now rewrite cos_lat_R, a_R.
  - intros j' _. now rewrite u_bar_R, cos_lat_R.
Qed.

(** The flux components as the notebook computes them, against the
    formulas of the specification. *)
Lemma F_lat_R (t k j : nat) :
  (k < nz)%nat ->
  ((gradient_at nz z (fun k' => u_bar t k' j) k * heat_flux t k j / N2 t k j
    - uv_bar t k j) * rho k * cos_lat j)%num
  = Spec.F_lat ds ps t k j.
Proof.
  intros Hk. unfold Spec.F_lat, Spec.u_bar_z, Spec.d_dz.
  rewrite (differentiate_z_R (fun k' => u_bar t k' j)
             (fun k' => Spec.u_bar ds t k' j) k Hk)
    by (intros; apply u_bar_R).
  unfold heat_flux, N2, theta_bar, cos_lat.
  rewrite heat_flux_R, (N2_R t k j Hk), uv_bar_R, rho_R, cos_lat_R.
  cbn [sub mul div R_Num]. unfold Rdiv, nz. ring.
Qed.

Lemma F_z_R (t k j : nat) :
  (k < nz)%nat -> (j < nlat)%nat ->
  Process.F_z rho cos_lat (Process.f lat) Process.a offset heat_flux N2 uw_bar
    t k j
  = Spec.F_z ds ps t k j.
Proof.
  intros Hk Hj. unfold Process.F_z, Spec.F_z.
  rewrite (offset_R t k j Hj), f_R, (uw_bar_R t k j Hk).
  unfold heat_flux, N2, theta_bar, cos_lat.
  rewrite heat_flux_R, (N2_R t k j Hk), rho_R, cos_lat_R, a_R.
  cbn [sub mul div R_Num]. unfold Rdiv. ring.
Qed.

Lemma EPFD_R (t k j : nat) :
  (k < nz)%nat -> (j < nlat)%nat ->
  ((gradient_at (n_latitude ds) lat
      (fun j' =>
         (gradient_at nz z (fun k' => u_bar t k' j') k * heat_flux t k j'
          / N2 t k j' - uv_bar t k j') * rho k * cos_lat j') j
    + gradient_at nz z
        (fun k' =>
           Process.F_z rho cos_lat (Process.f lat) Process.a offset heat_flux
             N2 uw_bar t k' j) k)
   / (rho k * Process.a * cos_lat j))%num
  = Spec.EPFD ds ps t k j.
Proof.
  intros Hk Hj. unfold Spec.EPFD, Spec.d_dphi, Spec.d_dz. fold nlat.
  rewrite (differentiate_lat_R _ (fun j' => Spec.F_lat ds ps t k j') j Hj)
    by (intros; now apply F_lat_R).
  rewrite (differentiate_z_R _ (fun k' => Spec.F_z ds ps t k' j) k Hk)
    by (intros; now apply F_z_R).
  unfold cos_lat. now rewrite rho_R, cos_lat_R, a_R.
Qed.

End RealPipeline.

(** The working coordinates are strictly monotone when the stored ones
    are (and the pressures are positive). *)
Section Monotone.

Local Open Scope R_scope.

Variable ds : RawDataset R.

Lemma z_strictly_monotone :
  (2 <= n_level ds)%nat ->
  (forall k, (k < n_level ds)%nat -> 0 < level ds k) ->
  strictly_monotone (n_level ds) (level ds) ->
  strictly_monotone (n_level ds)
    (Spec.z ds (Process.p (level ds) (n_level ds - 1)%nat)).
Proof.
  intros Hn Hpos Hm.
  pose proof (Hpos (n_level ds - 1)%nat ltac:(lia)) as Hs.
  assert (Hln : forall i k, (i < n_level ds)%nat -> (k < n_level ds)%nat ->
            level ds i < level ds k ->
            Spec.z ds (Process.p (level ds) (n_level ds - 1)%nat) k
            < Spec.z ds (Process.p (level ds) (n_level ds - 1)%nat) i).
  { intros i k Hi Hk Hlt. unfold Spec.z, Spec.p_SI, Spec.H, Process.p.
    cbn [mul of_Z R_Num].
    pose proof (Hpos i Hi) as Hi0.
    set (S := level ds (n_level ds - 1)%nat) in *.
    assert (ln (100 * level ds i / (100 * S))
            < ln (100 * level ds k / (100 * S))).
    { apply ln_increasing.
      - apply Rdiv_lt_0_compat; lra.
      - apply Rmult_lt_compat_r; [apply Rinv_0_lt_compat; lra | lra]. }
    lra. }
  destruct Hm as [Hm|Hm].
  - right. intros i Hi. apply Hln; try lia. now apply Hm.
  - left. intros i Hi. apply Hln; try lia. now apply Hm.
Qed.

Lemma phi_strictly_monotone :
  strictly_monotone (n_latitude ds) (latitude ds) ->
  strictly_monotone (n_latitude ds) (Spec.phi ds).
Proof.
  pose proof PI_RGT_0 as Hpi.
  assert (Hs : 0 < PI / 180) by (apply Rdiv_lt_0_compat; lra).
  intros [Hm|Hm]; [left | right]; intros i Hi; unfold Spec.phi;
    apply Rmult_lt_compat_r; auto.
Qed.

End Monotone.

(** C1. On every dataset with at least two levels and two latitudes,
    positive pressures and strictly monotone levels and latitudes, the
    notebook runs to completion, and at every point of the grid its
    [v_star] and [w_star] are the residual velocities of the specification:
    v* = v_bar - (1/rho) d/dz [rho (v'theta'/N2)] and
    w* = w_bar + 1/(a cos phi) d/dphi [cos phi (v'theta'/N2)], with
    a = 6.37e6, phi the latitude in radians, rho = exp(-z/H), N2 the
    vertical derivative of the zonal-mean potential temperature, and
    every derivative the centred finite difference of the specification
    (one-sided at the ends of an axis). *)
Theorem residual_circulation_formulas (ds : RawDataset R) :
  (2 <= n_level ds)%nat -> (2 <= n_latitude ds)%nat ->
  (forall k, (k < n_level ds)%nat -> (0 < level ds k)%R) ->
  strictly_monotone (n_level ds) (level ds) ->
  strictly_monotone (n_latitude ds) (latitude ds) ->
  exists out ps,
    Process.process ds = Ok out /\
    Process.p_surf (n_level ds) (Process.p (level ds)) = Ok ps /\
    forall t k j,
      (k < n_level ds)%nat -> (j < n_latitude ds)%nat ->
      out_v_star out t k j = Spec.v_star ds ps t k j /\
      out_w_star out t k j = Spec.w_star ds ps t k j.
Proof.
  intros Hz Hlat Hpos Hml Hmp.
  pose proof (z_strictly_monotone ds Hz Hpos Hml) as Hmz.
  pose proof (phi_strictly_monotone ds Hmp) as Hmphi.
  run_process Hz Hlat.
  do 2 eexists. split; [reflexivity|]. split; [reflexivity|].
  intros t k j Hk Hj. cbn [out_v_star out_w_star nb_ds]. split.
  - now apply v_star_R.
  - now apply w_star_R.
Qed.

(** C3. On every such dataset the notebook's [F_lat], [F_z] and [EPFD]
    are, at every point of the grid,
    F_lat = rho cos phi (u_bar_z (v'theta'/N2) - u'v') -- with no factor
    a --, F_z = rho a cos phi ((f - (u_bar cos phi)_phi/(a cos phi))
    (v'theta'/N2) - u'w') with f = 2 Omega sin phi, Omega = 7.292e-5, and
    EPFD = (dF_lat/dphi + dF_z/dz) / (rho a cos phi), every derivative
    being the centred finite difference of the specification (one-sided
    at the ends of an axis). *)
Theorem wave_flux_formulas (ds : RawDataset R) :
  (2 <= n_level ds)%nat -> (2 <= n_latitude ds)%nat ->
  (forall k, (k < n_level ds)%nat -> (0 < level ds k)%R) ->
  strictly_monotone (n_level ds) (level ds) ->
  strictly_monotone (n_latitude ds) (latitude ds) ->
  exists ns,
    Process.notebook ds = Ok ns /\
    forall t k j,
      (k < n_level ds)%nat -> (j < n_latitude ds)%nat ->
      nb_F_lat ns t k j = Spec.F_lat ds (nb_p_surf ns) t k j /\
      nb_F_z ns t k j = Spec.F_z ds (nb_p_surf ns) t k j /\
      out_EPFD (nb_ds ns) t k j = Spec.EPFD ds (nb_p_surf ns) t k j.
Proof.
  intros Hz Hlat Hpos Hml Hmp.
  pose proof (z_strictly_monotone ds Hz Hpos Hml) as Hmz.
  pose proof (phi_strictly_monotone ds Hmp) as Hmphi.
  run_process Hz Hlat.
  eexists. split; [reflexivity|].
  intros t k j Hk Hj. cbn [out_EPFD nb_ds nb_F_lat nb_F_z nb_p_surf].
  split; [|split].
  - now apply F_lat_R.
  - now apply F_z_R.
  - now apply EPFD_R.
Qed.

(** ** Zonal mean of an eddy part *)

Section ZonalMean.

Local Open Scope R_scope.

Lemma sum_shift (f : nat -> R) (c : R) (l : list nat) :
  fold_right Rplus 0 (map (fun i => f i - c) l)
  = fold_right Rplus 0 (map f l) - INR (List.length l) * c.
Proof.
  induction l as [|i l IH].
  - simpl. ring.
  - cbn [map fold_right List.length]. rewrite IH, S_INR. ring.
Qed.

End ZonalMean.

(** ** Coordinates *)

Section Coordinates.

Local Open Scope R_scope.

Lemma level_max_sorted (level : Arr R) (n : nat) :
  (forall i, (S i < S n)%nat -> level i <= level (S i)) ->
  fold_right Rmax (level 0%nat) (map level (seq 0 (S n))) = level n.
Proof.
  intros Hs.
  assert (Hle : forall i m, (i + m <= n)%nat -> level i <= level (i + m)%nat).
  { intros i m. induction m as [|m IH]; intros Hb.
    - rewrite Nat.add_0_r. lra.
    - rewrite Nat.add_succ_r.
      apply Rle_trans with (level (i + m)%nat); [apply IH; lia|].
      apply Hs. lia. }
  assert (Hfold : forall m s, (s + m = S n)%nat -> (0 < m)%nat ->
            fold_right Rmax (level 0%nat) (map level (seq s m)) = level n).
  { induction m as [|m IH]; intros s Hsm Hm; [lia|].
    cbn [seq map fold_right].
    destruct m as [|m].
    - cbn [seq map fold_right]. replace s with n by lia.
      apply Rmax_left. apply (Hle 0%nat n). lia.
    - rewrite (IH (S s)) by lia.
      apply Rmax_right. pose proof (Hle s (n - s)%nat) as Hsn.
      replace (s + (n - s))%nat with n in Hsn by lia. apply Hsn. lia. }
  apply Hfold; lia.
Qed.

End Coordinates.

(** C2 (as the notebook has it). [p_surf] is the pressure of the last
    stored level, [p[-1]]; whenever the levels are stored in ascending
    pressure it is the pressure at the level with the maximum raw value. *)
Theorem p_surf_is_last_level (nz : nat) (level : Arr R) :
  (0 < nz)%nat ->
  (forall i, (S i < nz)%nat -> (level i <= level (S i))%R) ->
  Process.p_surf nz (Process.p level) = Ok (Process.p level (nz - 1)%nat) /\
  Process.p_surf nz (Process.p level) = Ok (Spec.p_surf nz level).
Proof.
  intros Hn Hs. unfold Process.p_surf.
  replace (Nat.eqb nz 0) with false by (symmetry; apply Nat.eqb_neq; lia).
  split; [reflexivity|].
  unfold Process.p, Spec.p_surf, Spec.level_max. cbn [mul of_Z R_Num].
  destruct nz as [|n]; [lia|].
  rewrite level_max_sorted by assumption.
  now replace (S n - 1)%nat with n by lia.
Qed.

(** The sample dataset stores its levels in ascending pressure. *)
Lemma p_surf_is_last_level_witness :
  Process.p_surf 3 (Process.p (level sample_ds))
    = Ok (Process.p (level sample_ds) 2%nat) /\
  Process.p_surf 3 (Process.p (level sample_ds))
    = Ok (Spec.p_surf 3 (level sample_ds)).
Proof.
  apply (p_surf_is_last_level 3 (level sample_ds)); [lia|].
  intros [|[|i]] Hi; cbn; try lra. lia.
Defined.

(** C2 (as stated) fails: with the levels stored in descending pressure the
    notebook's [p_surf] is the pressure of the topmost level, not the
    maximum. *)
Lemma p_surf_not_maximum_when_descending :
  Process.p_surf 3 (Process.p levels_descending) = Ok 10000%R /\
  Spec.p_surf 3 levels_descending = 100000%R /\
  Process.p_surf 3 (Process.p levels_descending)
    <> Ok (Spec.p_surf 3 levels_descending).
Proof.
  assert (E1 : Process.p_surf 3 (Process.p levels_descending) = Ok 10000%R).
  { unfold Process.p_surf, Process.p, levels_descending, of_list.
    cbn [Nat.eqb Nat.sub nth mul of_Z R_Num]. f_equal. lra. }
  assert (E2 : Spec.p_surf 3 levels_descending = 100000%R).
  { unfold Spec.p_surf, Spec.level_max, levels_descending, of_list.
    cbn [seq map fold_right nth].
    rewrite (Rmax_right 100 1000) by lra.
    rewrite (Rmax_right 500 1000) by lra.
    rewrite (Rmax_left 1000 1000) by lra. lra. }
  split; [exact E1|]. split; [exact E2|].
  rewrite E1, E2. intros E. injection E. lra.
Qed.

(** C9. On a dataset with positive pressures (and at least two levels and
    two latitudes) the notebook's coordinates round-trip: the working
    vertical coordinate is z = -H ln(p/p_surf), and the output pressure
    p_surf exp(-z/H) / 100 gives back the stored level values; the working
    latitude is the stored one scaled by pi/180 once, the output latitude is
    the working one scaled by 180/pi once, and it gives back the stored
    latitude. *)
Theorem coordinates_round_trip (ds : RawDataset R) :
  (2 <= n_level ds)%nat -> (2 <= n_latitude ds)%nat ->
  (forall k, (k < n_level ds)%nat -> (0 < level ds k)%R) ->
  exists ns,
    Process.notebook ds = Ok ns /\
    (forall k, nb_z ns k = Spec.z ds (nb_p_surf ns) k) /\
    (forall k, (k < n_level ds)%nat ->
       out_pressure (nb_ds ns) k = level ds k) /\
    (forall j, nb_lat ns j = (latitude ds j * (PI / 180))%R) /\
    (forall j, out_latitude (nb_ds ns) j = (nb_lat ns j * (180 / PI))%R) /\
    (forall j, out_latitude (nb_ds ns) j = latitude ds j).
Proof.
  intros Hz Hlat Hpos. run_process Hz Hlat.
  eexists. split; [reflexivity|].
  cbn [nb_z nb_lat nb_p_surf nb_ds out_pressure out_latitude].
  assert (Hpi : PI <> 0%R) by apply PI_neq0.
  split; [intros k; apply z_R|].
  split; [|split; [|split]].
  - intros k Hk.
    unfold Process.p_hPa, Process.z, Process.p, Process.H.
    cbn [mul div neg of_Z np_exp np_log R_Num R_Ufuncs Z.opp].
    pose proof (Hpos k Hk) as Hk0.
    pose proof (Hpos (n_level ds - 1)%nat ltac:(lia)) as Hs0.
    set (L := level ds k) in *. set (S := level ds (n_level ds - 1)%nat) in *.
    replace (- (-6800 * ln (100 * L / (100 * S))) / 6800)%R
      with (ln (100 * L / (100 * S))) by (field; lra).
    rewrite exp_ln.
    + field. lra.
    + apply Rdiv_lt_0_compat; lra.
  - intros j. unfold Process.lat. cbn [mul div of_Z np_pi R_Num R_Ufuncs].
    field.
  - intros j. unfold Process.lat_degrees.
    cbn [mul div of_Z np_pi R_Num R_Ufuncs]. field. exact Hpi.
  - intros j. unfold Process.lat_degrees, Process.lat.
    cbn [mul div of_Z np_pi R_Num R_Ufuncs]. field. exact Hpi.
Qed.

(** The sample dataset has positive pressures. *)
Lemma coordinates_round_trip_witness :
  exists ns,
    Process.notebook sample_ds = Ok ns /\
    (forall k, nb_z ns k = Spec.z sample_ds (nb_p_surf ns) k) /\
    (forall k, (k < n_level sample_ds)%nat ->
       out_pressure (nb_ds ns) k = level sample_ds k) /\
    (forall j, nb_lat ns j = (latitude sample_ds j * (PI / 180))%R) /\
    (forall j, out_latitude (nb_ds ns) j = (nb_lat ns j * (180 / PI))%R) /\
    (forall j, out_latitude (nb_ds ns) j = latitude sample_ds j).
Proof.
  apply (coordinates_round_trip sample_ds); cbn [n_level n_latitude sample_ds];
    try lia.
  intros [|[|[|k]]] Hk; cbn; try lra. lia.
Defined.

(** The dataset with eddies has positive pressures, ascending levels and
    descending latitudes. *)
Lemma eddy_ds_grid :
  (forall k, (k < n_level eddy_ds)%nat -> (0 < level eddy_ds k)%R) /\
  strictly_monotone (n_level eddy_ds) (level eddy_ds) /\
  strictly_monotone (n_latitude eddy_ds) (latitude eddy_ds).
Proof.
  cbn [n_level n_latitude level latitude eddy_ds]. split; [|split].
  - intros [|[|[|k]]] Hk; cbn; try lra. lia.
  - left. intros [|[|i]] Hi; cbn; try lra. lia.
  - right. intros [|[|i]] Hi; cbn; try lra. lia.
Qed.

(** Its eddy heat flux does not vanish: at the last level, where theta is
    T, the eddy parts -1, +1 of v and -5, +5 of T have the covariance 5. *)
Example eddy_ds_heat_flux (j : nat) :
  Spec.heat_flux eddy_ds (100 * 1000) 0 2 j = 5%R.
Proof.
  unfold Spec.heat_flux, Spec.eddy_covariance, Spec.eddy_part,
    Spec.zonal_mean, Spec.theta, Spec.p_SI, Spec.kappa.
  cbn [n_longitude eddy_ds seq map fold_right var_V var_T level of_list nth
         INR].
  replace (100 * 1000 / (100 * 1000))%R with 1%R by field.
  replace (Rpower 1 0.286) with 1%R
    by (unfold Rpower; now rewrite ln_1, Rmult_0_r, exp_0).
  field.
Qed.

(** The dataset with eddies. *)
Lemma residual_circulation_formulas_witness :
  exists out ps,
    Process.process eddy_ds = Ok out /\
    Process.p_surf (n_level eddy_ds) (Process.p (level eddy_ds)) = Ok ps /\
    forall t k j,
      (k < n_level eddy_ds)%nat -> (j < n_latitude eddy_ds)%nat ->
      out_v_star out t k j = Spec.v_star eddy_ds ps t k j /\
      out_w_star out t k j = Spec.w_star eddy_ds ps t k j.
Proof.
  destruct eddy_ds_grid as (Hpos & Hlev & Hlat).
  apply (residual_circulation_formulas eddy_ds); try assumption;
    cbn [n_level n_latitude eddy_ds]; lia.
Defined.

(** The flux formulas on the dataset with eddies. *)
Lemma wave_flux_formulas_witness :
  exists ns,
    Process.notebook eddy_ds = Ok ns /\
    forall t k j,
      (k < n_level eddy_ds)%nat -> (j < n_latitude eddy_ds)%nat ->
      nb_F_lat ns t k j = Spec.F_lat eddy_ds (nb_p_surf ns) t k j /\
      nb_F_z ns t k j = Spec.F_z eddy_ds (nb_p_surf ns) t k j /\
      out_EPFD (nb_ds ns) t k j = Spec.EPFD eddy_ds (nb_p_surf ns) t k j.
Proof.
  destruct eddy_ds_grid as (Hpos & Hlev & Hlat).
  apply (wave_flux_formulas eddy_ds); try assumption;
    cbn [n_level n_latitude eddy_ds]; lia.
Defined.

(** Whatever the arithmetic, the converted velocity [w = dzdh *
    w_cartesian] is used for [w_star] and [EPFD] only: with any other
    field in its place the cells of the diagnostics give the same
    coordinates and the same nine other variables. *)
Lemma converted_velocity_use
  (T : Type) (num : Num T) (ufuncs : Ufuncs T) (ds : RawDataset T) :
  (2 <= n_level ds)%nat -> (2 <= n_latitude ds)%nat ->
  exists ns,
    Process.notebook ds = Ok ns /\
    out_w (nb_ds ns) = Process.mean_lon (n_longitude ds) (var_W ds) /\
    Process.p_surf (n_level ds) (Process.p (level ds)) = Ok (nb_p_surf ns) /\
    nb_z ns = Process.z (Process.p (level ds)) (nb_p_surf ns) /\
    (forall t k j l,
       nb_w ns t k j l
       = mul (div (of_Z 1)
                (gradient_at (n_level ds) (nb_z ns)
                   (fun k' => Process.h (var_Z ds) t k' j l) k))
           (var_W ds t k j l)) /\
    Process.diagnostics ds (nb_p_surf ns) (Process.p (level ds)) (nb_z ns)
      (nb_rho ns) (nb_lat ns) (Process.h (var_Z ds)) (nb_w ns) = Ok ns /\
    forall w' : Field4 T,
    exists ns',
      Process.diagnostics ds (nb_p_surf ns) (Process.p (level ds)) (nb_z ns)
        (nb_rho ns) (nb_lat ns) (Process.h (var_Z ds)) w' = Ok ns' /\
      out_pressure (nb_ds ns') = out_pressure (nb_ds ns) /\
      out_latitude (nb_ds ns') = out_latitude (nb_ds ns) /\
      out_u (nb_ds ns') = out_u (nb_ds ns) /\
      out_v (nb_ds ns') = out_v (nb_ds ns) /\
      out_w (nb_ds ns') = out_w (nb_ds ns) /\
      out_T (nb_ds ns') = out_T (nb_ds ns) /\
      out_h (nb_ds ns') = out_h (nb_ds ns) /\
      out_theta (nb_ds ns') = out_theta (nb_ds ns) /\
      out_N2 (nb_ds ns') = out_N2 (nb_ds ns) /\
      out_heat_flux (nb_ds ns') = out_heat_flux (nb_ds ns) /\
      out_v_star (nb_ds ns') = out_v_star (nb_ds ns).
Proof.
  intros Hz Hlat. run_process Hz Hlat.
  eexists. split; [reflexivity|].
  cbn [nb_ds nb_w nb_z nb_rho nb_lat nb_p_surf out_w].
  split; [reflexivity|]. split; [reflexivity|]. split; [reflexivity|].
  split; [reflexivity|]. split; [reflexivity|].
  intros w'. eexists. split; [reflexivity|].
  cbn [nb_ds out_pressure out_latitude out_u out_v out_w out_T out_h
         out_theta out_N2 out_heat_flux out_v_star].
  repeat split.
Qed.

(** C10. The output variable [w] is the zonal mean of the vertical
    velocity as read from the input -- in exact arithmetic the sum over
    the longitudes divided by their number --, not the zonal mean of the
    converted velocity [w = dzdh * w_cartesian]: where the two means
    differ, the output has the first.  The converted velocity reaches the
    output only in [w_star] and [EPFD]: whatever the arithmetic, replacing
    it by any other field leaves the coordinates and the nine other
    variables as they are. *)
Theorem output_w_is_native_velocity (ds : RawDataset R) :
  (2 <= n_level ds)%nat -> (2 <= n_latitude ds)%nat ->
  exists ns,
    Process.notebook ds = Ok ns /\
    (forall t k j,
       out_w (nb_ds ns) t k j
       = Spec.zonal_mean (n_longitude ds) (var_W ds) t k j) /\
    (forall t k j l,
       (k < n_level ds)%nat ->
       strictly_monotone (n_level ds) (Spec.z ds (nb_p_surf ns)) ->
       nb_w ns t k j l = Spec.w_target ds (nb_p_surf ns) t k j l) /\
    (forall t k j,
       Spec.zonal_mean (n_longitude ds) (nb_w ns) t k j
       <> Spec.zonal_mean (n_longitude ds) (var_W ds) t k j ->
       out_w (nb_ds ns) t k j
       <> Process.mean_lon (n_longitude ds) (nb_w ns) t k j) /\
    (forall (T : Type) (num : Num T) (ufuncs : Ufuncs T) (ds' : RawDataset T),
       (2 <= n_level ds')%nat -> (2 <= n_latitude ds')%nat ->
       exists ns',
         Process.notebook ds' = Ok ns' /\
         forall w' : Field4 T,
         exists ns'',
           Process.diagnostics ds' (nb_p_surf ns') (Process.p (level ds'))
             (nb_z ns') (nb_rho ns') (nb_lat ns') (Process.h (var_Z ds')) w'
           = Ok ns'' /\
           out_pressure (nb_ds ns'') = out_pressure (nb_ds ns') /\
           out_latitude (nb_ds ns'') = out_latitude (nb_ds ns') /\
           out_u (nb_ds ns'') = out_u (nb_ds ns') /\
           out_v (nb_ds ns'') = out_v (nb_ds ns') /\
           out_w (nb_ds ns'') = out_w (nb_ds ns') /\
           out_T (nb_ds ns'') = out_T (nb_ds ns') /\
           out_h (nb_ds ns'') = out_h (nb_ds ns') /\
           out_theta (nb_ds ns'') = out_theta (nb_ds ns') /\
           out_N2 (nb_ds ns'') = out_N2 (nb_ds ns') /\
           out_heat_flux (nb_ds ns'') = out_heat_flux (nb_ds ns') /\
           out_v_star (nb_ds ns'') = out_v_star (nb_ds ns')).
Proof.
  intros Hz Hlat.
  destruct (converted_velocity_use R R_Num R_Ufuncs ds Hz Hlat)
    as (ns & Hrun & Hw & Hps & Hnz & Hnw & _).
  exists ns. split; [exact Hrun|].
  assert (Hmean : forall t k j,
            out_w (nb_ds ns) t k j
            = Spec.zonal_mean (n_longitude ds) (var_W ds) t k j).
  { intros t k j. rewrite Hw. apply mean_lon_R. }
  split; [exact Hmean|]. split; [|split].
  - intros t k j l Hk Hm. rewrite Hnw, Hnz.
    exact (w_R ds (nb_p_surf ns) Hz Hm t k j l Hk).
  - intros t k j Hne E. apply Hne.
    now rewrite <- Hmean, E, mean_lon_R.
  - intros T num ufuncs ds' Hz' Hlat'.
    destruct (converted_velocity_use T num ufuncs ds' Hz' Hlat')
      as (ns' & Hrun' & _ & _ & _ & _ & _ & Hrep).
    exists ns'. split; [exact Hrun' | exact Hrep].
Qed.

(** On the dataset with eddies, whose geopotential height is twice the
    log-pressure height, the zonal mean of the input velocity at the
    middle level is 5 and that of the converted velocity is 5/2: the
    output [w] is 5. *)
Lemma output_w_is_native_velocity_witness :
  exists ns,
    Process.notebook eddy_ds = Ok ns /\
    out_w (nb_ds ns) 0 1 1 = 5%R /\
    Process.mean_lon (n_longitude eddy_ds) (nb_w ns) 0 1 1 = (5 / 2)%R /\
    out_w (nb_ds ns) 0 1 1
    <> Process.mean_lon (n_longitude eddy_ds) (nb_w ns) 0 1 1.
Proof.
  destruct eddy_ds_grid as (Hpos & Hlev & _).
  destruct (output_w_is_native_velocity eddy_ds)
    as (ns & Hrun & Hmean & Hnw & Hne & _);
    [cbn [n_level eddy_ds]; lia | cbn [n_latitude eddy_ds]; lia |].
  assert (Hps : nb_p_surf ns = (100 * 1000)%R).
  { destruct (converted_velocity_use R R_Num R_Ufuncs eddy_ds)
      as (ns' & Hrun' & _ & Hps & _);
      [cbn [n_level eddy_ds]; lia | cbn [n_latitude eddy_ds]; lia |].
    rewrite Hrun in Hrun'. injection Hrun' as <-.
    unfold Process.p_surf, Process.p in Hps.
    cbn [n_level level eddy_ds Nat.eqb Nat.sub of_list nth mul of_Z R_Num]
      in Hps.
    injection Hps as Hps. now symmetry. }
  assert (Hmz : strictly_monotone (n_level eddy_ds)
                  (Spec.z eddy_ds (nb_p_surf ns))).
  { rewrite Hps.
    apply (z_strictly_monotone eddy_ds); [cbn; lia | exact Hpos | exact Hlev]. }
  assert (E1 : out_w (nb_ds ns) 0 1 1 = 5%R).
  { rewrite Hmean. unfold Spec.zonal_mean.
    cbn [n_longitude eddy_ds var_W seq map fold_right INR]. field. }
  assert (E2 : Process.mean_lon (n_longitude eddy_ds) (nb_w ns) 0 1 1
               = (5 / 2)%R).
  { rewrite mean_lon_R. unfold Spec.zonal_mean.
    cbn [n_longitude eddy_ds seq map fold_right].
    rewrite !(Hnw 0 1 _ _)%nat by (cbn [n_level eddy_ds]; auto).
    unfold Spec.w_target.
    assert (Hd : forall l,
              Spec.finite_difference (n_level eddy_ds)
                (Spec.z eddy_ds (nb_p_surf ns))
                (fun k' => Spec.height eddy_ds 0 k' 1 l) 1 = 2%R).
    { intros l.
      rewrite <- (finite_difference_of_gradient _ _ _ 1%nat)
        by (cbn [n_level eddy_ds]; auto).
      rewrite (gradient_at_ext _ _ _
                 (fun k' => (2 * Spec.z eddy_ds (nb_p_surf ns) k' + 0)%R)).
      - apply gradient_at_of_affine; cbn [n_level eddy_ds]; auto.
      - intros k'. rewrite Hps. unfold Spec.height, Spec.z, Spec.p_SI,
          Spec.g, Spec.H. cbn [var_Z level eddy_ds]. field. lra. }
    rewrite !Hd. cbn [var_W eddy_ds INR]. field. }
  exists ns. split; [exact Hrun|]. split; [exact E1|]. split; [exact E2|].
  rewrite E1, E2. lra.
Defined.

(** ** IEEE arithmetic at zero, infinity and NaN *)

Section IEEELemmas.

Import IEEE.
Local Open Scope float_scope.

Ltac sf_cases x y spec :=
  rewrite spec;
  destruct (Prim2SF x) as [[|]|[|]| |? ? ?], (Prim2SF y) as [[|]|[|]| |? ? ?];
  try discriminate; try reflexivity.

(** A NaN or infinite operand makes the result NaN or infinite. *)
Lemma add_nonfinite_l x y : nonfinite x = true -> nonfinite (x + y) = true.
Proof. unfold nonfinite. sf_cases x y add_spec. Qed.

Lemma add_nonfinite_r x y : nonfinite y = true -> nonfinite (x + y) = true.
Proof. unfold nonfinite. sf_cases x y add_spec. Qed.

Lemma sub_nonfinite_l x y : nonfinite x = true -> nonfinite (x - y) = true.
Proof. unfold nonfinite. sf_cases x y sub_spec. Qed.

Lemma sub_nonfinite_r x y : nonfinite y = true -> nonfinite (x - y) = true.
Proof. unfold nonfinite. sf_cases x y sub_spec. Qed.

Lemma mul_nonfinite_l x y : nonfinite x = true -> nonfinite (x * y) = true.
Proof. unfold nonfinite. sf_cases x y mul_spec. Qed.

Lemma mul_nonfinite_r x y : nonfinite y = true -> nonfinite (x * y) = true.
Proof. unfold nonfinite. sf_cases x y mul_spec. Qed.

Lemma div_nonfinite_l x y : nonfinite x = true -> nonfinite (x / y) = true.
Proof. unfold nonfinite. sf_cases x y div_spec. Qed.

(** Division by a zero of either sign gives NaN or an infinity. *)
Lemma div_by_zero x y : fzero y = true -> nonfinite (x / y) = true.
Proof. unfold nonfinite, fzero. sf_cases x y div_spec. Qed.

(** Zeros stay zeros under finite weights and usable divisors. *)
Lemma mul_zero_r x y : finite x = true -> fzero y = true -> fzero (x * y) = true.
Proof. unfold finite, nonfinite, fzero. sf_cases x y mul_spec. Qed.

Lemma div_zero x y : fzero x = true -> divisor_ok y = true -> fzero (x / y) = true.
Proof. unfold divisor_ok, fzero. sf_cases x y div_spec. Qed.

Lemma add_zero x y : fzero x = true -> fzero y = true -> fzero (x + y) = true.
Proof. unfold fzero. sf_cases x y add_spec. Qed.

Lemma sub_zero x y : fzero x = true -> fzero y = true -> fzero (x - y) = true.
Proof. unfold fzero. sf_cases x y sub_spec. Qed.

Lemma SFcompare_refl s : s <> S754_nan -> SFcompare s s = Some Eq.
Proof.
  destruct s as [b|b| |b m e]; intros Hn; try congruence; destruct b;
    try reflexivity; simpl;
    rewrite (Z.compare_refl e : IntDef.Z.compare e e = Eq);
    now rewrite (Pos.compare_cont_refl m Eq
                 : PosDef.Pos.compare_cont Eq m m = Eq).
Qed.

Lemma SFeqb_refl s : s <> S754_nan -> SFeqb s s = true.
Proof. intros Hs. unfold SFeqb. now rewrite SFcompare_refl. Qed.

Lemma is_nan_false x : is_nan x = false -> Prim2SF x <> S754_nan.
Proof.
  unfold is_nan. rewrite FloatAxioms.eqb_spec. unfold SFeqb.
  intros Hx E. rewrite E in Hx. discriminate.
Qed.

(** Adding or subtracting a zero leaves a number equal to itself. *)
Lemma sub_zero_r x y :
  is_nan x = false -> fzero y = true -> (x - y =? x) = true.
Proof.
  intros Hx Hy. apply is_nan_false in Hx. unfold fzero in Hy.
  rewrite FloatAxioms.eqb_spec, sub_spec.
  destruct (Prim2SF y) as [sy| | |]; try discriminate.
  destruct (Prim2SF x) as [[|]|[|]| |s m e] eqn:Ex; try congruence;
    destruct sy; try reflexivity; apply SFeqb_refl; discriminate.
Qed.

Lemma add_zero_r x y :
  is_nan x = false -> fzero y = true -> (x + y =? x) = true.
Proof.
  intros Hx Hy. apply is_nan_false in Hx. unfold fzero in Hy.
  rewrite FloatAxioms.eqb_spec, add_spec.
  destruct (Prim2SF y) as [sy| | |]; try discriminate.
  destruct (Prim2SF x) as [[|]|[|]| |s m e] eqn:Ex; try congruence;
    destruct sy; try reflexivity; apply SFeqb_refl; discriminate.
Qed.

(** A NaN or infinite sample shows in the finite difference at the sample
    itself or at the index just before it. *)
Lemma gradient_at_nonfinite (n : nat) (x f : Arr float) (k : nat) :
  (2 <= n)%nat -> (k < n)%nat -> nonfinite (f k) = true ->
  exists k', (k' < n)%nat /\ (k' = k \/ S k' = k) /\
             nonfinite (gradient_at n x f k') = true.
Proof.
  intros Hn Hk Hf.
  destruct (Nat.eq_dec k 0) as [->|Hk0].
  { exists 0%nat. split; [lia|]. split; [now left|].
    unfold gradient_at. cbn [Nat.eqb sub div float_Num].
    apply div_nonfinite_l, sub_nonfinite_r, Hf. }
  destruct (Nat.eq_dec k (n - 1)) as [->|Hkn].
  { exists (n - 1)%nat. split; [lia|]. split; [now left|].
    unfold gradient_at.
    replace (n - 1 =? 0)%nat with false by (symmetry; apply Nat.eqb_neq; lia).
    rewrite Nat.eqb_refl. cbn [sub div float_Num].
    apply div_nonfinite_l, sub_nonfinite_l, Hf. }
  exists (k - 1)%nat. split; [lia|]. split; [right; lia|].
  unfold gradient_at.
  destruct (Nat.eq_dec (k - 1) 0) as [E|E].
  - rewrite E. cbn [Nat.eqb sub div float_Num].
    replace 1%nat with k by lia.
    apply div_nonfinite_l, sub_nonfinite_l, Hf.
  - replace (k - 1 =? 0)%nat with false by (symmetry; apply Nat.eqb_neq; lia).
    replace (k - 1 =? n - 1)%nat with false
      by (symmetry; apply Nat.eqb_neq; lia).
    replace (k - 1 + 1)%nat with k by lia.
    cbn [add sub mul div neg of_Z float_Num].
    destruct (uniform_spacing n x).
    + apply div_nonfinite_l, sub_nonfinite_l, Hf.
    + apply add_nonfinite_r, mul_nonfinite_r, Hf.
Qed.

(** On a well-defined stencil the finite difference of zeros is zero. *)
Lemma gradient_at_zero (n : nat) (x f : Arr float) (i : nat) :
  (2 <= n)%nat -> (i < n)%nat -> stencil_ok n x i = true ->
  (forall k, (k < n)%nat -> fzero (f k) = true) ->
  fzero (gradient_at n x f i) = true.
Proof.
  intros Hn Hi Hs Hf. unfold gradient_at. unfold stencil_ok in Hs.
  destruct (i =? 0)%nat eqn:E0.
  { cbn [sub div float_Num]. apply div_zero; [|exact Hs].
    apply sub_zero; apply Hf; lia. }
  destruct (i =? n - 1)%nat eqn:En.
  { cbn [sub div float_Num]. apply div_zero; [|exact Hs].
    apply sub_zero; apply Hf; lia. }
  apply Nat.eqb_neq in E0, En.
  destruct (uniform_spacing n x).
  - cbn [sub mul div of_Z float_Num] in *. apply div_zero; [|exact Hs].
    apply sub_zero; apply Hf; lia.
  - cbn [add sub mul div neg float_Num] in *.
    apply andb_prop in Hs as [Hs Hc]. apply andb_prop in Hs as [Ha Hb].
    apply add_zero; [apply add_zero|]; apply mul_zero_r;
      try assumption; apply Hf; lia.
Qed.

End IEEELemmas.

(** ** Zonal means of NaN and of infinities *)

Section MeanIEEE.

Import IEEE.
Local Open Scope float_scope.

Lemma infinite_nonfinite x : infinite x = true -> nonfinite x = true.
Proof. unfold infinite, nonfinite. now destruct (Prim2SF x). Qed.

Lemma infinite_not_nan x : infinite x = true -> is_nan x = false.
Proof.
  unfold infinite, is_nan. rewrite FloatAxioms.eqb_spec.
  destruct (Prim2SF x) as [| [|] | |]; try discriminate; reflexivity.
Qed.

Lemma nansum_nonfinite (l : list float) (acc : float) :
  nonfinite acc = true \/ (exists y, In y l /\ nonfinite y = true) ->
  nonfinite (fold_left PrimFloat.add l acc) = true.
Proof.
  revert acc. induction l as [|y l IH]; intros acc [Ha|(y' & Hin & Hy)].
  - exact Ha.
  - destruct Hin.
  - cbn [fold_left]. apply IH. left. now apply add_nonfinite_l.
  - cbn [fold_left]. destruct Hin as [<-|Hin].
    + apply IH. left. now apply add_nonfinite_r.
    + apply IH. right. now exists y'.
Qed.

Lemma filter_all_nan (l : list float) :
  (forall y, In y l -> is_nan y = true) ->
  filter (fun v => negb (is_nan v)) l = [].
Proof.
  induction l as [|y l IH]; intros Hl; [reflexivity|].
  cbn [filter]. rewrite (Hl y) by now left. cbn [negb].
  apply IH. intros y' Hy'. apply Hl. now right.
Qed.

(** An infinite entry is kept by the mean. *)
Lemma nanmean_nonfinite (n : nat) (x : Arr float) (i : nat) :
  (i < n)%nat -> infinite (x i) = true -> nonfinite (nanmean n x) = true.
Proof.
  intros Hi Hx. unfold nanmean, nansum. cbn [add div of_Z isnan float_Num].
  apply div_nonfinite_l, nansum_nonfinite. right. exists (x i). split.
  - apply filter_In. split.
    + apply in_map, in_seq. lia.
    + now rewrite infinite_not_nan.
  - now apply infinite_nonfinite.
Qed.

(** The mean of NaN entries only is NaN. *)
Lemma nanmean_all_nan (n : nat) (x : Arr float) :
  (forall i, (i < n)%nat -> is_nan (x i) = true) ->
  is_nan (nanmean n x) = true.
Proof.
  intros Hx. unfold nanmean. cbn [isnan float_Num].
  rewrite filter_all_nan; [reflexivity|].
  intros y Hy. apply in_map_iff in Hy as (i & <- & Hi).
  apply Hx. apply in_seq in Hi. lia.
Qed.

(** The mean of entries that are all NaN or infinite is NaN or infinite. *)
Lemma nanmean_all_nonfinite (n : nat) (y : Arr float) :
  (forall i, (i < n)%nat -> nonfinite (y i) = true) ->
  nonfinite (nanmean n y) = true.
Proof.
  intros Hy. unfold nanmean, nansum. cbn [add div of_Z isnan float_Num].
  destruct (filter _ (map y (seq 0 n))) as [|v l] eqn:E; [reflexivity|].
  apply div_nonfinite_l, nansum_nonfinite. right. exists v.
  split; [now left|].
  assert (Hv : In v (filter (fun v => negb (is_nan v)) (map y (seq 0 n))))
    by (rewrite E; now left).
  apply filter_In in Hv as [Hv _].
  apply in_map_iff in Hv as (i & <- & Hi).
  apply Hy. apply in_seq in Hi. lia.
Qed.

(** With an infinite entry along the longitudes the zonal mean is NaN or
    infinite, so is every entry of the eddy part, and so is its zonal
    mean. *)
Lemma eddy_mean_nonfinite (nlon : nat) (G : Field4 float) (t k j l : nat) :
  (l < nlon)%nat -> infinite (G t k j l) = true ->
  nonfinite
    (Process.mean_lon nlon (Process.eddy G (Process.mean_lon nlon G)) t k j)
  = true.
Proof.
  intros Hl Hinf. unfold Process.mean_lon at 1.
  apply nanmean_all_nonfinite. intros i _.
  unfold Process.eddy. cbn [sub float_Num].
  apply sub_nonfinite_r. unfold Process.mean_lon.
  now apply (nanmean_nonfinite nlon (G t k j) l).
Qed.

End MeanIEEE.

(** In binary64 the zonal mean of an eddy part is zero up to rounding
    only: for the values 0.1, 0.2, 0.4 it is a negative number below
    2^-55 in size. *)
Example eddy_zonal_mean_rounding :
  let m := Process.mean_lon 3
             (Process.eddy Sample64.tenths (Process.mean_lon 3 Sample64.tenths))
             0 0 0 in
  PrimFloat.ltb m 0 = true /\
  PrimFloat.ltb (PrimFloat.opp (float_of_dec 1 (-16))) m = true.
Proof. vm_compute. split; reflexivity. Qed.

(** C8 (as the notebook has it). For every field with at least one
    longitude and real values, the eddy part [F - F.mean('longitude')] is
    the deviation from the mean over the longitudes, and its zonal mean is
    zero at every (time, level, latitude) in exact arithmetic.  For a
    binary64 field that has an infinite value along the longitudes, the
    zonal mean of the eddy part is NaN or infinite there. *)
Theorem eddy_zonal_mean_zero
  (nlon : nat) (F : Field4 R) (G : Field4 float) (t k j : nat) :
  (0 < nlon)%nat ->
  (forall l,
     Process.eddy F (Process.mean_lon nlon F) t k j l
     = Spec.eddy_part nlon F t k j l) /\
  Process.mean_lon nlon (Process.eddy F (Process.mean_lon nlon F)) t k j = 0%R
  /\
  (forall l, (l < nlon)%nat -> IEEE.infinite (G t k j l) = true ->
     IEEE.nonfinite
       (Process.mean_lon nlon (Process.eddy G (Process.mean_lon nlon G)) t k j)
     = true).
Proof.
  intros Hn. split; [|split].
  - intros l. unfold Process.eddy, Spec.eddy_part. cbn [sub R_Num].
    now rewrite mean_lon_R.
  - rewrite mean_lon_R. unfold Spec.zonal_mean, Process.eddy.
    cbn [sub R_Num]. rewrite mean_lon_R.
    rewrite (sum_shift (F t k j) (Spec.zonal_mean nlon F t k j) (seq 0 nlon)).
    rewrite length_seq. unfold Spec.zonal_mean.
    assert (INR nlon <> 0%R) by (apply not_0_INR; lia).
    field. assumption.
  - intros l. apply eddy_mean_nonfinite.
Qed.

(** The meridional wind of the dataset with eddies, at one grid point
    (its eddy part at the two longitudes is -1, +1), and the binary64
    field with an infinity at the first longitude. *)
Lemma eddy_zonal_mean_zero_witness :
  Process.eddy (var_V eddy_ds) (Process.mean_lon 2 (var_V eddy_ds)) 0 1 2 0
  = (-1)%R /\
  Process.mean_lon 2 (Process.eddy (var_V eddy_ds)
                        (Process.mean_lon 2 (var_V eddy_ds))) 0 1 2 = 0%R /\
  IEEE.nonfinite
    (Process.mean_lon 2
       (Process.eddy Sample64.with_infinity
          (Process.mean_lon 2 Sample64.with_infinity)) 0 1 2) = true.
Proof.
  destruct (eddy_zonal_mean_zero 2 (var_V eddy_ds) Sample64.with_infinity
              0 1 2) as (He & HR & HG); [lia|].
  split; [|split; [exact HR|]].
  - rewrite He. unfold Spec.eddy_part, Spec.zonal_mean.
    cbn [var_V eddy_ds seq map fold_right INR]. field.
  - apply (HG 0%nat); [lia | reflexivity].
Defined.

(** C8 (as stated) fails for a field with an infinite value: the zonal
    mean of the values infinity, 1 is infinity, the eddy part is NaN,
    -infinity, and its zonal mean, which skips the NaN, is -infinity. *)
Lemma eddy_zonal_mean_of_infinity :
  Process.mean_lon 2 Sample64.with_infinity 0 0 0 = infinity /\
  PrimFloat.is_nan
    (Process.eddy Sample64.with_infinity
       (Process.mean_lon 2 Sample64.with_infinity) 0 0 0 0) = true /\
  Process.eddy Sample64.with_infinity
    (Process.mean_lon 2 Sample64.with_infinity) 0 0 0 1 = neg_infinity /\
  Process.mean_lon 2
    (Process.eddy Sample64.with_infinity
       (Process.mean_lon 2 Sample64.with_infinity)) 0 0 0 = neg_infinity /\
  PrimFloat.eqb
    (Process.mean_lon 2
       (Process.eddy Sample64.with_infinity
          (Process.mean_lon 2 Sample64.with_infinity)) 0 0 0) 0 = false.
Proof. vm_compute. repeat split. Qed.


Section IEEEResidual.

Import IEEE.
Local Open Scope float_scope.

Variables (nz nlat : nat) (z lat rho cos_lat f : Arr float) (a : float).
Variables (v_bar w_bar u_bar uv_bar uw_bar offset heat_flux N2 : Field3 float).

Hypothesis Hnz : (2 <= nz)%nat.
Hypothesis Hnlat : (2 <= nlat)%nat.

Lemma differentiate_z_ok (F : Field3 float) :
  Process.differentiate_z nz z F
  = Ok (fun t k j => gradient_at nz z (fun k' => F t k' j) k).
Proof.
  unfold Process.differentiate_z.
  now rewrite (proj2 (Nat.ltb_ge nz 2) Hnz).
Qed.

Lemma differentiate_lat_ok (F : Field3 float) :
  Process.differentiate_lat nlat lat F
  = Ok (fun t k j => gradient_at nlat lat (fun j' => F t k j') j).
Proof.
  unfold Process.differentiate_lat.
  now rewrite (proj2 (Nat.ltb_ge nlat 2) Hnlat).
Qed.

Lemma v_star_nonfinite (t k j : nat) :
  (k < nz)%nat -> fzero (N2 t k j) = true ->
  exists Vs,
    Process.v_star nz z rho v_bar heat_flux N2 = Ok Vs /\
    exists k', (k' < nz)%nat /\ (k' = k \/ S k' = k) /\
               nonfinite (Vs t k' j) = true.
Proof.
  intros Hk H0. unfold Process.v_star. rewrite differentiate_z_ok.
  cbn [bind]. eexists. split; [reflexivity|].
  destruct (gradient_at_nonfinite nz z
              (fun k' => (rho k' * heat_flux t k' j / N2 t k' j)%num) k Hnz Hk)
    as (k' & Hk' & Hnear & Hnf).
  { cbn [mul div float_Num]. now apply div_by_zero. }
  exists k'. split; [exact Hk'|]. split; [exact Hnear|].
  cbn [sub div float_Num]. apply sub_nonfinite_r, div_nonfinite_l, Hnf.
Qed.

Lemma w_star_nonfinite (t k j : nat) :
  (j < nlat)%nat -> fzero (N2 t k j) = true ->
  exists Ws,
    Process.w_star nlat lat cos_lat a w_bar heat_flux N2 = Ok Ws /\
    exists j', (j' < nlat)%nat /\ (j' = j \/ S j' = j) /\
               nonfinite (Ws t k j') = true.
Proof.
  intros Hj H0. unfold Process.w_star. rewrite differentiate_lat_ok.
  cbn [bind]. eexists. split; [reflexivity|].
  destruct (gradient_at_nonfinite nlat lat
              (fun j' => (cos_lat j' * heat_flux t k j' / N2 t k j')%num)
              j Hnlat Hj)
    as (j' & Hj' & Hnear & Hnf).
  { cbn [mul div float_Num]. now apply div_by_zero. }
  exists j'. split; [exact Hj'|]. split; [exact Hnear|].
  cbn [add div float_Num]. apply add_nonfinite_r, div_nonfinite_l, Hnf.
Qed.

Lemma F_lat_nonfinite (t k j : nat) :
  fzero (N2 t k j) = true ->
  exists Fl,
    Process.F_lat nz z rho cos_lat u_bar heat_flux N2 uv_bar = Ok Fl /\
    nonfinite (Fl t k j) = true.
Proof.
  intros H0. unfold Process.F_lat. rewrite differentiate_z_ok.
  cbn [bind]. eexists. split; [reflexivity|].
  cbn [sub mul div float_Num].
  apply mul_nonfinite_l, mul_nonfinite_l, sub_nonfinite_l.
  now apply div_by_zero.
Qed.

Lemma F_z_nonfinite (t k j : nat) :
  fzero (N2 t k j) = true ->
  nonfinite (Process.F_z rho cos_lat f a offset heat_flux N2 uw_bar t k j)
  = true.
Proof.
  intros H0. unfold Process.F_z. cbn [sub mul div float_Num].
  apply mul_nonfinite_l, mul_nonfinite_l, mul_nonfinite_l, sub_nonfinite_l.
  now apply div_by_zero.
Qed.

Lemma EPFD_nonfinite (Fl Fz : Field3 float) (t k j : nat) :
  (j < nlat)%nat -> nonfinite (Fl t k j) = true ->
  exists E,
    Process.EPFD nz nlat z lat rho cos_lat a Fl Fz = Ok E /\
    exists j', (j' < nlat)%nat /\ (j' = j \/ S j' = j) /\
               nonfinite (E t k j') = true.
Proof.
  intros Hj Hnf. unfold Process.EPFD.
  rewrite differentiate_lat_ok, differentiate_z_ok.
  cbn [bind]. eexists. split; [reflexivity|].
  destruct (gradient_at_nonfinite nlat lat (fun j' => Fl t k j') j Hnlat Hj Hnf)
    as (j' & Hj' & Hnear & Hg).
  exists j'. split; [exact Hj'|]. split; [exact Hnear|].
  cbn [add div float_Num]. apply div_nonfinite_l, add_nonfinite_l, Hg.
Qed.

Lemma v_star_zero_flux (t k j : nat) :
  (k < nz)%nat ->
  (forall k', (k' < nz)%nat -> fzero (heat_flux t k' j) = true) ->
  (forall k', (k' < nz)%nat -> divisor_ok (N2 t k' j) = true) ->
  (forall k', (k' < nz)%nat -> finite (rho k') = true) ->
  divisor_ok (rho k) = true ->
  stencil_ok nz z k = true ->
  is_nan (v_bar t k j) = false ->
  exists Vs,
    Process.v_star nz z rho v_bar heat_flux N2 = Ok Vs /\
    (Vs t k j =? v_bar t k j) = true.
Proof.
  intros Hk Hhf HN2 Hrho Hrk Hst Hv.
  unfold Process.v_star. rewrite differentiate_z_ok.
  cbn [bind]. eexists. split; [reflexivity|].
  cbn [sub div float_Num]. apply sub_zero_r; [exact Hv|].
  apply div_zero; [|exact Hrk].
  apply gradient_at_zero; try assumption.
  intros k' Hk'. cbn [mul div float_Num].
  apply div_zero; [|now apply HN2].
  apply mul_zero_r; [now apply Hrho | now apply Hhf].
Qed.

Lemma w_star_zero_flux (t k j : nat) :
  (j < nlat)%nat ->
  (forall j', (j' < nlat)%nat -> fzero (heat_flux t k j') = true) ->
  (forall j', (j' < nlat)%nat -> divisor_ok (N2 t k j') = true) ->
  (forall j', (j' < nlat)%nat -> finite (cos_lat j') = true) ->
  divisor_ok (a * cos_lat j) = true ->
  stencil_ok nlat lat j = true ->
  is_nan (w_bar t k j) = false ->
  exists Ws,
    Process.w_star nlat lat cos_lat a w_bar heat_flux N2 = Ok Ws /\
    (Ws t k j =? w_bar t k j) = true.
Proof.
  intros Hj Hhf HN2 Hcos Hac Hst Hw.
  unfold Process.w_star. rewrite differentiate_lat_ok.
  cbn [bind]. eexists. split; [reflexivity|].
  cbn [add mul div float_Num]. apply add_zero_r; [exact Hw|].
  apply div_zero; [|exact Hac].
  apply gradient_at_zero; try assumption.
  intros j' Hj'. cbn [mul div float_Num].
  apply div_zero; [|now apply HN2].
  apply mul_zero_r; [now apply Hcos | now apply Hhf].
Qed.

End IEEEResidual.

(** In the notebook as a whole, for any implementation of the numpy
    functions: a zero of the written [N2] shows as NaN or infinity in the
    written [v_star], [w_star] and [EPFD] and in [F_lat] and [F_z]. *)
Lemma notebook_zero_stability
  (ufuncs : Ufuncs float) (ds : RawDataset float) :
  (2 <= n_level ds)%nat -> (2 <= n_latitude ds)%nat ->
  exists ns,
    Process.notebook ds = Ok ns /\
    forall t k j,
      (k < n_level ds)%nat -> (j < n_latitude ds)%nat ->
      IEEE.fzero (out_N2 (nb_ds ns) t k j) = true ->
      (exists k', (k' < n_level ds)%nat /\ (k' = k \/ S k' = k) /\
                  IEEE.nonfinite (out_v_star (nb_ds ns) t k' j) = true) /\
      (exists j', (j' < n_latitude ds)%nat /\ (j' = j \/ S j' = j) /\
                  IEEE.nonfinite (out_w_star (nb_ds ns) t k j') = true) /\
      IEEE.nonfinite (nb_F_lat ns t k j) = true /\
      IEEE.nonfinite (nb_F_z ns t k j) = true /\
      (exists j', (j' < n_latitude ds)%nat /\ (j' = j \/ S j' = j) /\
                  IEEE.nonfinite (out_EPFD (nb_ds ns) t k j') = true).
Proof.
  intros Hz Hlat.
  destruct (notebook_stages float float_Num ufuncs ds Hz Hlat)
    as (ns & uv_bar & uw_bar & offset & Hrun & EV & EW & EF & EFz & EE).
  cbn zeta in *. exists ns. split; [exact Hrun|].
  intros t k j Hk Hj H0.
  destruct (v_star_nonfinite _ (nb_z ns) (nb_rho ns) (out_v (nb_ds ns))
              (out_heat_flux (nb_ds ns)) (out_N2 (nb_ds ns)) Hz t k j Hk H0)
    as (Vs & EV' & HV).
  rewrite EV in EV'. injection EV' as <-.
  destruct (w_star_nonfinite _ (nb_lat ns) (Process.cos_lat (nb_lat ns))
              Process.a (Process.mean_lon (n_longitude ds) (nb_w ns))
              (out_heat_flux (nb_ds ns)) (out_N2 (nb_ds ns)) Hlat t k j Hj H0)
    as (Ws & EW' & HW).
  rewrite EW in EW'. injection EW' as <-.
  destruct (F_lat_nonfinite _ (nb_z ns) (nb_rho ns)
              (Process.cos_lat (nb_lat ns)) (out_u (nb_ds ns)) uv_bar
              (out_heat_flux (nb_ds ns)) (out_N2 (nb_ds ns)) Hz t k j H0)
    as (Fl & EF' & HF).
  rewrite EF in EF'. injection EF' as <-.
  destruct (EPFD_nonfinite _ _ (nb_z ns) (nb_lat ns) (nb_rho ns)
              (Process.cos_lat (nb_lat ns)) Process.a Hz Hlat
              (nb_F_lat ns) (nb_F_z ns) t k j Hj HF)
    as (E & EE' & HE).
  rewrite EE in EE'. injection EE' as <-.
  split; [exact HV|]. split; [exact HW|]. split; [exact HF|].
  split; [|exact HE].
  rewrite EFz. now apply F_z_nonfinite.
Qed.

(** C6 (as the notebook has it). Where N2 is a zero of either sign, the
    quotients by N2 are NaN or infinite and reach the results unguarded:
    [v_star] at that level or the one before it, [w_star] at that latitude
    or the one before it, [F_lat] and [F_z] at the point itself, and [EPFD]
    at that latitude or the one before it.  Every step returns a result:
    nothing is raised.  This holds of the cells taken one by one and, for
    any implementation of the numpy functions, of the notebook as a whole
    and the dataset it writes. *)
Theorem zero_stability_reaches_outputs
  (nz nlat : nat) (z lat rho cos_lat f : Arr float) (a : float)
  (v_bar w_bar u_bar uv_bar uw_bar offset heat_flux N2 : Field3 float)
  (t k j : nat) :
  (2 <= nz)%nat -> (2 <= nlat)%nat -> (k < nz)%nat -> (j < nlat)%nat ->
  IEEE.fzero (N2 t k j) = true ->
  (exists Vs,
     Process.v_star nz z rho v_bar heat_flux N2 = Ok Vs /\
     exists k', (k' < nz)%nat /\ (k' = k \/ S k' = k) /\
                IEEE.nonfinite (Vs t k' j) = true) /\
  (exists Ws,
     Process.w_star nlat lat cos_lat a w_bar heat_flux N2 = Ok Ws /\
     exists j', (j' < nlat)%nat /\ (j' = j \/ S j' = j) /\
                IEEE.nonfinite (Ws t k j') = true) /\
  (exists Fl E,
     Process.F_lat nz z rho cos_lat u_bar heat_flux N2 uv_bar = Ok Fl /\
     IEEE.nonfinite (Fl t k j) = true /\
     IEEE.nonfinite
       (Process.F_z rho cos_lat f a offset heat_flux N2 uw_bar t k j) = true /\
     Process.EPFD nz nlat z lat rho cos_lat a Fl
       (Process.F_z rho cos_lat f a offset heat_flux N2 uw_bar) = Ok E /\
     exists j', (j' < nlat)%nat /\ (j' = j \/ S j' = j) /\
                IEEE.nonfinite (E t k j') = true) /\
  (forall (ufuncs : Ufuncs float) (ds : RawDataset float),
     (2 <= n_level ds)%nat -> (2 <= n_latitude ds)%nat ->
     exists ns,
       Process.notebook ds = Ok ns /\
       forall t k j,
         (k < n_level ds)%nat -> (j < n_latitude ds)%nat ->
         IEEE.fzero (out_N2 (nb_ds ns) t k j) = true ->
         (exists k', (k' < n_level ds)%nat /\ (k' = k \/ S k' = k) /\
                     IEEE.nonfinite (out_v_star (nb_ds ns) t k' j) = true) /\
         (exists j', (j' < n_latitude ds)%nat /\ (j' = j \/ S j' = j) /\
                     IEEE.nonfinite (out_w_star (nb_ds ns) t k j') = true) /\
         IEEE.nonfinite (nb_F_lat ns t k j) = true /\
         IEEE.nonfinite (nb_F_z ns t k j) = true /\
         (exists j', (j' < n_latitude ds)%nat /\ (j' = j \/ S j' = j) /\
                     IEEE.nonfinite (out_EPFD (nb_ds ns) t k j') = true)).
Proof.
  intros Hnz Hnlat Hk Hj H0.
  split; [now apply v_star_nonfinite|].
  split; [now apply w_star_nonfinite|].
  split; [|exact notebook_zero_stability].
  destruct (F_lat_nonfinite nz z rho cos_lat u_bar uv_bar heat_flux N2 Hnz
              t k j H0) as (Fl & HFl & Hnf).
  destruct (EPFD_nonfinite nz nlat z lat rho cos_lat a Hnz Hnlat Fl
              (Process.F_z rho cos_lat f a offset heat_flux N2 uw_bar)
              t k j Hj Hnf) as (E & HE & Hnear).
  exists Fl, E. split; [exact HFl|]. split; [exact Hnf|].
  split; [now apply F_z_nonfinite|]. split; [exact HE | exact Hnear].
Qed.

(** The binary64 sample with N2 zero everywhere, at the middle point. *)
Lemma zero_stability_reaches_outputs_witness :
  (exists Vs,
     Process.v_star 3 Sample64.z Sample64.rho Sample64.v_bar
       Sample64.heat_flux Sample64.N2_zero = Ok Vs /\
     exists k', (k' < 3)%nat /\ (k' = 1%nat \/ S k' = 1%nat) /\
                IEEE.nonfinite (Vs 0%nat k' 1%nat) = true) /\
  (exists Ws,
     Process.w_star 3 Sample64.lat Sample64.cos_lat Sample64.a Sample64.w_bar
       Sample64.heat_flux Sample64.N2_zero = Ok Ws /\
     exists j', (j' < 3)%nat /\ (j' = 1%nat \/ S j' = 1%nat) /\
                IEEE.nonfinite (Ws 0%nat 1%nat j') = true) /\
  (exists Fl E,
     Process.F_lat 3 Sample64.z Sample64.rho Sample64.cos_lat Sample64.u_bar
       Sample64.heat_flux Sample64.N2_zero Sample64.uv_bar = Ok Fl /\
     IEEE.nonfinite (Fl 0%nat 1%nat 1%nat) = true /\
     IEEE.nonfinite
       (Process.F_z Sample64.rho Sample64.cos_lat Sample64.f Sample64.a
          Sample64.offset Sample64.heat_flux Sample64.N2_zero Sample64.uw_bar
          0%nat 1%nat 1%nat) = true /\
     Process.EPFD 3 3 Sample64.z Sample64.lat Sample64.rho Sample64.cos_lat
       Sample64.a Fl
       (Process.F_z Sample64.rho Sample64.cos_lat Sample64.f Sample64.a
          Sample64.offset Sample64.heat_flux Sample64.N2_zero Sample64.uw_bar)
       = Ok E /\
     exists j', (j' < 3)%nat /\ (j' = 1%nat \/ S j' = 1%nat) /\
                IEEE.nonfinite (E 0%nat 1%nat j') = true).
Proof.
  destruct (zero_stability_reaches_outputs 3 3 Sample64.z Sample64.lat
              Sample64.rho Sample64.cos_lat Sample64.f Sample64.a
              Sample64.v_bar Sample64.w_bar Sample64.u_bar Sample64.uv_bar
              Sample64.uw_bar Sample64.offset Sample64.heat_flux
              Sample64.N2_zero 0 1 1) as (HV & HW & HF & _);
    try lia; try reflexivity.
  exact (conj HV (conj HW HF)).
Defined.

(** C6 (as stated) fails for negative N2: with N2 negative everywhere the
    quotients are ordinary numbers and every result is finite. *)
Lemma negative_stability_gives_finite_outputs :
  PrimFloat.ltb (Sample64.N2_negative 0%nat 1%nat 1%nat) 0 = true /\
  IEEE.all_finite 1 3 3 Sample64.N2_negative = true /\
  IEEE.all_finite_result 1 3 3
    (Process.v_star 3 Sample64.z Sample64.rho Sample64.v_bar
       Sample64.heat_flux Sample64.N2_negative) = true /\
  IEEE.all_finite_result 1 3 3
    (Process.w_star 3 Sample64.lat Sample64.cos_lat Sample64.a Sample64.w_bar
       Sample64.heat_flux Sample64.N2_negative) = true /\
  IEEE.all_finite_result 1 3 3
    (Process.F_lat 3 Sample64.z Sample64.rho Sample64.cos_lat Sample64.u_bar
       Sample64.heat_flux Sample64.N2_negative Sample64.uv_bar) = true /\
  IEEE.all_finite 1 3 3
    (Process.F_z Sample64.rho Sample64.cos_lat Sample64.f Sample64.a
       Sample64.offset Sample64.heat_flux Sample64.N2_negative
       Sample64.uw_bar) = true /\
  IEEE.all_finite_result 1 3 3
    (Fl <- Process.F_lat 3 Sample64.z Sample64.rho Sample64.cos_lat
             Sample64.u_bar Sample64.heat_flux Sample64.N2_negative
             Sample64.uv_bar ;;
     Process.EPFD 3 3 Sample64.z Sample64.lat Sample64.rho Sample64.cos_lat
       Sample64.a Fl
       (Process.F_z Sample64.rho Sample64.cos_lat Sample64.f Sample64.a
          Sample64.offset Sample64.heat_flux Sample64.N2_negative
          Sample64.uw_bar)) = true.
Proof. vm_compute. repeat split. Qed.

(** In the notebook as a whole, for any implementation of the numpy
    functions: with the written heat flux zero and the written N2 usable
    as a divisor, the written [v_star] equals the written [v], and
    [w_star] equals the zonal mean of the converted velocity. *)
Lemma notebook_zero_heat_flux
  (ufuncs : Ufuncs float) (ds : RawDataset float) :
  (2 <= n_level ds)%nat -> (2 <= n_latitude ds)%nat ->
  exists ns,
    Process.notebook ds = Ok ns /\
    forall t k j,
      (k < n_level ds)%nat -> (j < n_latitude ds)%nat ->
      (forall k' j', (k' < n_level ds)%nat -> (j' < n_latitude ds)%nat ->
         IEEE.fzero (out_heat_flux (nb_ds ns) t k' j') = true) ->
      (forall k' j', (k' < n_level ds)%nat -> (j' < n_latitude ds)%nat ->
         IEEE.divisor_ok (out_N2 (nb_ds ns) t k' j') = true) ->
      (forall k', (k' < n_level ds)%nat ->
         IEEE.finite (nb_rho ns k') = true) ->
      (forall j', (j' < n_latitude ds)%nat ->
         IEEE.finite (Process.cos_lat (nb_lat ns) j') = true) ->
      IEEE.divisor_ok (nb_rho ns k) = true ->
      IEEE.divisor_ok
        (PrimFloat.mul Process.a (Process.cos_lat (nb_lat ns) j)) = true ->
      IEEE.stencil_ok (n_level ds) (nb_z ns) k = true ->
      IEEE.stencil_ok (n_latitude ds) (nb_lat ns) j = true ->
      PrimFloat.is_nan (out_v (nb_ds ns) t k j) = false ->
      PrimFloat.is_nan
        (Process.mean_lon (n_longitude ds) (nb_w ns) t k j) = false ->
      PrimFloat.eqb (out_v_star (nb_ds ns) t k j) (out_v (nb_ds ns) t k j)
        = true /\
      PrimFloat.eqb (out_w_star (nb_ds ns) t k j)
        (Process.mean_lon (n_longitude ds) (nb_w ns) t k j) = true.
Proof.
  intros Hz Hlat.
  destruct (notebook_stages float float_Num ufuncs ds Hz Hlat)
    as (ns & uv_bar & uw_bar & offset & Hrun & EV & EW & _).
  cbn zeta in *. exists ns. split; [exact Hrun|].
  intros t k j Hk Hj Hhf HN2 Hrho Hcos Hrk Hac Hsz Hsl Hv Hw.
  destruct (v_star_zero_flux _ (nb_z ns) (nb_rho ns) (out_v (nb_ds ns))
              (out_heat_flux (nb_ds ns)) (out_N2 (nb_ds ns)) Hz t k j)
    as (Vs & EV' & HV); auto.
  rewrite EV in EV'. injection EV' as <-.
  destruct (w_star_zero_flux _ (nb_lat ns) (Process.cos_lat (nb_lat ns))
              Process.a (Process.mean_lon (n_longitude ds) (nb_w ns))
              (out_heat_flux (nb_ds ns)) (out_N2 (nb_ds ns)) Hlat t k j)
    as (Ws & EW' & HW); auto.
  rewrite EW in EW'. injection EW' as <-.
  split; assumption.
Qed.

(** C7 (as the notebook has it). With the eddy heat flux zero everywhere,
    N2 nowhere zero or NaN, a finite density and cosine, usable divisors
    [rho] and [a * cos_lat] and a well-defined stencil, [v_star] equals
    [v_bar] and [w_star] equals [w_bar] wherever these are not NaN: the
    eddy terms are zeros, and subtracting or adding a zero changes
    nothing.  This holds of the two cells and, for any implementation of
    the numpy functions, of the notebook as a whole and the dataset it
    writes. *)
Theorem zero_heat_flux_residual_is_mean
  (nz nlat : nat) (z lat rho cos_lat : Arr float) (a : float)
  (v_bar w_bar heat_flux N2 : Field3 float) (t k j : nat) :
  (2 <= nz)%nat -> (2 <= nlat)%nat -> (k < nz)%nat -> (j < nlat)%nat ->
  (forall k' j', (k' < nz)%nat -> (j' < nlat)%nat ->
     IEEE.fzero (heat_flux t k' j') = true) ->
  (forall k' j', (k' < nz)%nat -> (j' < nlat)%nat ->
     IEEE.divisor_ok (N2 t k' j') = true) ->
  (forall k', (k' < nz)%nat -> IEEE.finite (rho k') = true) ->
  (forall j', (j' < nlat)%nat -> IEEE.finite (cos_lat j') = true) ->
  IEEE.divisor_ok (rho k) = true ->
  IEEE.divisor_ok (PrimFloat.mul a (cos_lat j)) = true ->
  IEEE.stencil_ok nz z k = true ->
  IEEE.stencil_ok nlat lat j = true ->
  PrimFloat.is_nan (v_bar t k j) = false ->
  PrimFloat.is_nan (w_bar t k j) = false ->
  (exists Vs Ws,
     Process.v_star nz z rho v_bar heat_flux N2 = Ok Vs /\
     Process.w_star nlat lat cos_lat a w_bar heat_flux N2 = Ok Ws /\
     PrimFloat.eqb (Vs t k j) (v_bar t k j) = true /\
     PrimFloat.eqb (Ws t k j) (w_bar t k j) = true) /\
  (forall (ufuncs : Ufuncs float) (ds : RawDataset float),
     (2 <= n_level ds)%nat -> (2 <= n_latitude ds)%nat ->
     exists ns,
       Process.notebook ds = Ok ns /\
       forall t k j,
         (k < n_level ds)%nat -> (j < n_latitude ds)%nat ->
         (forall k' j', (k' < n_level ds)%nat -> (j' < n_latitude ds)%nat ->
            IEEE.fzero (out_heat_flux (nb_ds ns) t k' j') = true) ->
         (forall k' j', (k' < n_level ds)%nat -> (j' < n_latitude ds)%nat ->
            IEEE.divisor_ok (out_N2 (nb_ds ns) t k' j') = true) ->
         (forall k', (k' < n_level ds)%nat ->
            IEEE.finite (nb_rho ns k') = true) ->
         (forall j', (j' < n_latitude ds)%nat ->
            IEEE.finite (Process.cos_lat (nb_lat ns) j') = true) ->
         IEEE.divisor_ok (nb_rho ns k) = true ->
         IEEE.divisor_ok
           (PrimFloat.mul Process.a (Process.cos_lat (nb_lat ns) j)) = true ->
         IEEE.stencil_ok (n_level ds) (nb_z ns) k = true ->
         IEEE.stencil_ok (n_latitude ds) (nb_lat ns) j = true ->
         PrimFloat.is_nan (out_v (nb_ds ns) t k j) = false ->
         PrimFloat.is_nan
           (Process.mean_lon (n_longitude ds) (nb_w ns) t k j) = false ->
         PrimFloat.eqb (out_v_star (nb_ds ns) t k j)
           (out_v (nb_ds ns) t k j) = true /\
         PrimFloat.eqb (out_w_star (nb_ds ns) t k j)
           (Process.mean_lon (n_longitude ds) (nb_w ns) t k j) = true).
Proof.
  intros Hnz Hnlat Hk Hj Hhf HN2 Hrho Hcos Hrk Hac Hsz Hsl Hv Hw.
  split; [|exact notebook_zero_heat_flux].
  destruct (v_star_zero_flux nz z rho v_bar heat_flux N2 Hnz t k j)
    as (Vs & HVs & Ev); auto.
  destruct (w_star_zero_flux nlat lat cos_lat a w_bar heat_flux N2 Hnlat t k j)
    as (Ws & HWs & Ew); auto.
  exists Vs, Ws. repeat split; assumption.
Qed.

(** The binary64 sample with zero heat flux and positive N2, at the
    middle point. *)
Lemma zero_heat_flux_residual_is_mean_witness :
  exists Vs Ws,
    Process.v_star 3 Sample64.z Sample64.rho Sample64.v_bar
      Sample64.heat_flux_zero Sample64.N2_positive = Ok Vs /\
    Process.w_star 3 Sample64.lat Sample64.cos_lat Sample64.a Sample64.w_bar
      Sample64.heat_flux_zero Sample64.N2_positive = Ok Ws /\
    PrimFloat.eqb (Vs 0%nat 1%nat 1%nat) (Sample64.v_bar 0%nat 1%nat 1%nat)
      = true /\
    PrimFloat.eqb (Ws 0%nat 1%nat 1%nat) (Sample64.w_bar 0%nat 1%nat 1%nat)
      = true.
Proof.
  refine (proj1 (zero_heat_flux_residual_is_mean 3 3 Sample64.z Sample64.lat
                   Sample64.rho Sample64.cos_lat Sample64.a Sample64.v_bar
                   Sample64.w_bar Sample64.heat_flux_zero
                   Sample64.N2_positive 0 1 1 _ _ _ _ _ _ _ _ _ _ _ _ _ _));
    try lia; try reflexivity.
  - intros [|[|[|k']]] Hk; try lia; reflexivity.
  - intros [|[|[|j']]] Hj; try lia; reflexivity.
Defined.

(** C7 (as stated) fails where N2 is zero: with the heat flux zero
    everywhere the quotient 0/0 is NaN, and so are [v_star] and [w_star],
    while [v_bar] and [w_bar] are 1.5 and 0.25. *)
Lemma zero_heat_flux_zero_stability_gives_nan :
  exists Vs Ws,
    Process.v_star 3 Sample64.z Sample64.rho Sample64.v_bar
      Sample64.heat_flux_zero Sample64.N2_zero = Ok Vs /\
    Process.w_star 3 Sample64.lat Sample64.cos_lat Sample64.a Sample64.w_bar
      Sample64.heat_flux_zero Sample64.N2_zero = Ok Ws /\
    PrimFloat.is_nan (Vs 0%nat 1%nat 1%nat) = true /\
    PrimFloat.is_nan (Ws 0%nat 1%nat 1%nat) = true /\
    PrimFloat.eqb (Vs 0%nat 1%nat 1%nat) (Sample64.v_bar 0%nat 1%nat 1%nat)
      = false /\
    PrimFloat.eqb (Ws 0%nat 1%nat 1%nat) (Sample64.w_bar 0%nat 1%nat 1%nat)
      = false.
Proof.
  do 2 eexists. split; [reflexivity|]. split; [reflexivity|].
  vm_compute. repeat split.
Qed.

(** ** Enumerating the input files *)

Section Enumeration.

Import Adapter.

Lemma year_fnames_raises (d : string) (fnames ns : list string) (e : exn) :
  year_fnames d fnames ns = Raise e -> e = IndexError.
Proof.
  revert e. induction ns as [|n ns IH]; intros e; cbn [year_fnames].
  - discriminate.
  - unfold fname. destruct (matching fnames n) as [|x xs]; cbn [bind].
    + now intros [= <-].
    + destruct (year_fnames d fnames ns) as [rest|e'] eqn:E; cbn [bind].
      * discriminate.
      * intros [= <-]. now apply IH.
Qed.

Lemma year_fnames_present (d : string) (fnames ns files : list string) :
  year_fnames d fnames ns = Ok files ->
  forall n, In n ns -> matching fnames n <> [].
Proof.
  revert files. induction ns as [|n0 ns IH]; intros files; cbn [year_fnames].
  - intros _ n [].
  - unfold fname. destruct (matching fnames n0) as [|x xs] eqn:M; cbn [bind];
      [discriminate|].
    destruct (year_fnames d fnames ns) as [rest|e'] eqn:E; cbn [bind];
      [|discriminate].
    intros _ n [<-|Hin].
    + rewrite M. discriminate.
    + now apply (IH rest).
Qed.

Lemma year_fnames_length (d : string) (fnames ns files : list string) :
  year_fnames d fnames ns = Ok files -> List.length files = List.length ns.
Proof.
  revert files. induction ns as [|n0 ns IH]; intros files; cbn [year_fnames].
  - now intros [= <-].
  - unfold fname. destruct (matching fnames n0) as [|x xs]; cbn [bind];
      [discriminate|].
    destruct (year_fnames d fnames ns) as [rest|e'] eqn:E; cbn [bind];
      [|discriminate].
    intros [= <-]. cbn [List.length]. now rewrite (IH rest).
Qed.

(** When the loops complete, they have appended one file per year and
    name. *)
Lemma ds_fnames_length (fs : FileSystem) (ys : list Z) (files : list string) :
  ds_fnames fs ys = Ok files ->
  List.length files = (List.length ys * List.length names)%nat.
Proof.
  revert files. induction ys as [|y ys IH]; intros files; cbn [ds_fnames].
  - now intros [= <-].
  - unfold listdir.
    destruct (fs (year_dir y)) as [[entries| |]|]; cbn [bind];
      try discriminate.
    destruct (year_fnames _ _ names) as [here|e] eqn:E; cbn [bind];
      [|discriminate].
    destruct (ds_fnames fs ys) as [rest|e] eqn:E'; cbn [bind];
      [|discriminate].
    intros [= <-]. rewrite length_app, (IH rest eq_refl).
    rewrite (year_fnames_length _ _ _ _ E). cbn [List.length]. lia.
Qed.

(** A year and name without a matching file stop the loops; with every
    year directory listed, the exception is the [IndexError]. *)
Lemma ds_fnames_missing (fs : FileSystem) (ys : list Z) (year : Z)
  (name : string) :
  In year ys -> In name names ->
  (forall entries, fs (year_dir year) = Some (Directory entries) ->
     matching (filter (fun x => endswith x "nc") entries) name = []) ->
  exists e,
    ds_fnames fs ys = Raise e /\ enumeration_error e /\
    ((forall y, In y ys ->
        exists entries, fs (year_dir y) = Some (Directory entries)) ->
     e = IndexError).
Proof.
  unfold enumeration_error.
  intros Hy Hn Hmiss. induction ys as [|y ys IH]; [destruct Hy|].
  cbn [ds_fnames]. unfold listdir.
  destruct (fs (year_dir y)) as [[entries| |]|] eqn:Efs; cbn [bind].
  - destruct (year_fnames _ _ names) as [here|e] eqn:E; cbn [bind].
    + assert (Hin : In year ys).
      { destruct Hy as [<-|Hin]; [|exact Hin]. exfalso.
        apply (year_fnames_present _ _ _ _ E name Hn). now apply Hmiss. }
      destruct (IH Hin) as (e & -> & He & Hall). cbn [bind].
      exists e. split; [reflexivity|]. split; [exact He|].
      intros H. apply Hall. intros y' Hy'. apply H. now right.
    + exists e. rewrite (year_fnames_raises _ _ _ _ E). auto.
  - exists PermissionError. split; [reflexivity|]. split; [auto|].
    intros H. destruct (H y (or_introl eq_refl)) as (en & Hen). congruence.
  - exists NotADirectoryError. split; [reflexivity|]. split; [auto|].
    intros H. destruct (H y (or_introl eq_refl)) as (en & Hen). congruence.
  - exists FileNotFoundError. split; [reflexivity|]. split; [auto|].
    intros H. destruct (H y (or_introl eq_refl)) as (en & Hen). congruence.
Qed.

End Enumeration.

(** C4 (as the notebook has it). If a year that has a directory in the
    archive lacks the file of one of the five variables, the run stops
    with an exception in the enumeration cell -- the [IndexError] of the
    empty match, unless [os.listdir] fails on a year directory first --
    after the first message only: no dataset is opened, whatever
    [open_mfdataset], [to_netcdf] and the deferred computation would do,
    and [data.nc] is not created.  The count of files is printed and
    nothing more; whenever the enumeration completes it has found exactly
    [len(years) * len(names)] files, so the message never reports a
    mismatch. *)
Theorem missing_input_stops_the_run
  (T : Type) (num : Num T) (ufuncs : Ufuncs T)
  (int : string -> result Z)
  (open_mfdataset : list string -> result (RawDataset T))
  (to_netcdf : Output T -> option (exn * bool))
  (compute : Output T -> option exn)
  (fs : Adapter.FileSystem) (ys : list Z) (year : Z) (name : string) :
  Adapter.years int fs = Ok ys ->
  In year ys -> In name Adapter.names ->
  (forall entries,
     fs (Adapter.year_dir year) = Some (Adapter.Directory entries) ->
     Adapter.matching
       (filter (fun x => Adapter.endswith x "nc") entries) name = []) ->
  (exists e,
     (e = IndexError \/ e = FileNotFoundError \/ e = NotADirectoryError \/
      e = PermissionError) /\
     ((forall y, In y ys ->
         exists entries,
           fs (Adapter.year_dir y) = Some (Adapter.Directory entries)) ->
      e = IndexError) /\
     Adapter.run int open_mfdataset to_netcdf compute fs
     = {| Adapter.raised := Some e;
          Adapter.printed :=
            [Adapter.years_message ys (hd 0%Z ys) (last ys (hd 0%Z ys))];
          Adapter.written := Adapter.Untouched |} /\
     forall open_mfdataset' to_netcdf' compute',
       Adapter.run int open_mfdataset' to_netcdf' compute' fs
       = Adapter.run int open_mfdataset to_netcdf compute fs)
  /\
  (forall fs' ys' files,
     Adapter.ds_fnames fs' ys' = Ok files ->
     List.length files
     = (List.length ys' * List.length Adapter.names)%nat).
Proof.
  intros Hys Hy Hn Hmiss. split; [|apply ds_fnames_length].
  destruct (ds_fnames_missing fs ys year name Hy Hn Hmiss)
    as (e & Ed & He & Hall).
  assert (Hrun : forall o tn c,
            Adapter.run int o tn c fs
            = {| Adapter.raised := Some e;
                 Adapter.printed :=
                   [Adapter.years_message ys (hd 0%Z ys)
                      (last ys (hd 0%Z ys))];
                 Adapter.written := Adapter.Untouched |}).
  { intros o tn c. unfold Adapter.run. rewrite Hys.
    destruct ys as [|y0 ys']; [destruct Hy|]. cbn [hd].
    now rewrite Ed. }
  exists e. split; [exact He|]. split; [exact Hall|].
  split; [apply Hrun|].
  intros o tn c. now rewrite !Hrun.
Qed.

(** The archive whose year 1980 lacks the temperature file. *)
Lemma missing_input_stops_the_run_witness :
  exists e,
    e = IndexError /\
    Adapter.run (T := R) Adapter.int_decimal (fun _ => Ok eddy_ds)
      (fun _ => None) (fun _ => None) Adapter.incomplete_archive
    = {| Adapter.raised := Some e;
         Adapter.printed :=
           [Adapter.years_message [1979; 1980]%Z 1979%Z 1980%Z];
         Adapter.written := Adapter.Untouched |}.
Proof.
  destruct (missing_input_stops_the_run R R_Num R_Ufuncs Adapter.int_decimal
              (fun _ => Ok eddy_ds) (fun _ => None) (fun _ => None)
              Adapter.incomplete_archive
              [1979; 1980]%Z 1980%Z "T"%string)
    as [(e & _ & Hall & Hrun & _) _].
  - vm_compute. reflexivity.
  - simpl. auto.
  - simpl. auto.
  - intros entries E. vm_compute in E. injection E as <-.
    vm_compute. reflexivity.
  - exists e. split; [|exact Hrun]. apply Hall.
    intros y [<-|[<-|[]]]; eexists; vm_compute; reflexivity.
Defined.

(** C4 (as stated) fails for a year that is absent altogether: on an
    archive with the years 1979 and 1981 and nothing of 1980 the run
    raises nothing, reports ten files out of ten, and writes its
    result. *)
Lemma absent_year_is_not_noticed :
  Adapter.gap_archive (Adapter.year_dir 1980) = None /\
  Adapter.raised
    (Adapter.run (T := R) Adapter.int_decimal (fun _ => Ok eddy_ds)
       (fun _ => None) (fun _ => None) Adapter.gap_archive) = None /\
  Adapter.printed
    (Adapter.run (T := R) Adapter.int_decimal (fun _ => Ok eddy_ds)
       (fun _ => None) (fun _ => None) Adapter.gap_archive)
  = ["Found 2 years of ERA5 data, starting with 1979 and ending with 1981.";
     "Found 10 files out of an expected 10."]%string /\
  exists out,
    Process.process eddy_ds = Ok out /\
    Adapter.written
      (Adapter.run (T := R) Adapter.int_decimal (fun _ => Ok eddy_ds)
         (fun _ => None) (fun _ => None) Adapter.gap_archive)
    = Adapter.Complete out.
Proof.
  split; [vm_compute; reflexivity|].
  assert (Hp : exists out, Process.process eddy_ds = Ok out).
  { assert (Hz : (2 <= n_level eddy_ds)%nat) by (cbn; lia).
    assert (Hlat : (2 <= n_latitude eddy_ds)%nat) by (cbn; lia).
    run_process Hz Hlat. eexists. reflexivity. }
  destruct Hp as (out & Hp).
  unfold Adapter.run.
  assert (Ey : Adapter.years Adapter.int_decimal Adapter.gap_archive
               = Ok [1979; 1981]%Z) by (vm_compute; reflexivity).
  rewrite Ey.
  destruct (Adapter.ds_fnames Adapter.gap_archive [1979; 1981]%Z)
    as [files|e] eqn:Ef; vm_compute in Ef; [|discriminate].
  injection Ef as <-. rewrite Hp.
  cbn [Adapter.raised Adapter.printed Adapter.written].
  split; [reflexivity|]. split; [vm_compute; reflexivity|].
  exists out. split; reflexivity.
Qed.

(** ** Products of labelled arrays *)

Section Alignment.

Context {T : Type} {num : Num T}.

Import XArray.

Lemma index_ok_spec (n : nat) (coord : Arr T) (i j : nat) :
  index_ok n coord = true -> (i < n)%nat -> (j < n)%nat ->
  eqb (coord i) (coord j) = (i =? j)%nat.
Proof.
  intros Hok Hi Hj. unfold index_ok in Hok.
  rewrite forallb_forall in Hok.
  specialize (Hok i (proj2 (in_seq n 0 i) ltac:(lia))).
  rewrite forallb_forall in Hok.
  specialize (Hok j (proj2 (in_seq n 0 j) ltac:(lia))).
  now apply Bool.eqb_prop in Hok.
Qed.

Lemma find_labelled (n : nat) (coord B : Arr T) (i s m : nat) :
  index_ok n coord = true -> (s <= i)%nat -> (i < s + m)%nat ->
  (s + m <= n)%nat ->
  find (fun e => eqb (fst e) (coord i))
    (map (fun k => (coord k, B k)) (seq s m))
  = Some (coord i, B i).
Proof.
  intros Hok. revert s. induction m as [|m IH]; intros s Hs Hi Hn; [lia|].
  cbn [seq map find fst].
  rewrite (index_ok_spec n coord s i Hok) by lia.
  destruct (Nat.eqb_spec s i) as [->|Hne]; [reflexivity|].
  apply IH; lia.
Qed.

Lemma sel_labelled (n : nat) (coord B : Arr T) (i : nat) :
  index_ok n coord = true -> (i < n)%nat ->
  sel (coord i) (labelled n coord B) = Some (B i).
Proof.
  intros Hok Hi. unfold sel, labelled.
  now rewrite (find_labelled n coord B i 0 n Hok) by lia.
Qed.

Lemma flat_map_singletons {A B C : Type} (f : B -> list C) (g : A -> B)
  (h : A -> C) (l : list A) :
  (forall x, In x l -> f (g x) = [h x]) ->
  flat_map f (map g l) = map h l.
Proof.
  induction l as [|x l IH]; intros Hf; [reflexivity|].
  cbn [map flat_map]. rewrite (Hf x) by now left.
  cbn [app]. f_equal. apply IH. intros y Hy. apply Hf. now right.
Qed.

Lemma multiply_labelled (n : nat) (coord A B : Arr T) :
  index_ok n coord = true ->
  multiply (labelled n coord A) (labelled n coord B)
  = labelled n coord (fun i => mul (A i) (B i)).
Proof.
  intros Hok. set (LB := labelled n coord B). unfold multiply, labelled.
  apply flat_map_singletons. intros i Hi. apply in_seq in Hi.
  cbn [fst snd]. subst LB. now rewrite (sel_labelled n coord B i Hok) by lia.
Qed.

Lemma mean_labelled (n : nat) (coord C : Arr T) :
  mean (labelled n coord C) = nanmean n C.
Proof.
  unfold mean, values, labelled, nanmean.
  rewrite length_map, length_seq, map_map. cbn [snd].
  change (map (fun x : nat => C x) (seq 0 n)) with (map C (seq 0 n)).
  assert (E : map (fun i => nth i (map C (seq 0 n)) (of_Z 0)) (seq 0 n)
              = map C (seq 0 n)).
  { apply map_ext_in. intros i Hi. apply in_seq in Hi.
    rewrite (nth_indep _ (of_Z 0) (C 0%nat))
      by (rewrite length_map, length_seq; lia).
    now rewrite (map_nth C), seq_nth by lia. }
  now rewrite E.
Qed.

End Alignment.

(** C5 (as the notebook has it). No check is made before a product of two
    fields; what keeps the products of the notebook index by index is that
    its operands carry one and the same coordinate.  For two arrays on the
    same coordinate, with labels that are pairwise distinct, xarray's
    aligned product keeps every label and multiplies entry by entry, so
    [(A * B).mean('longitude')] is the mean of the pointwise products that
    the covariances of the notebook are. *)
Theorem product_on_shared_coordinate
  (T : Type) (num : Num T) (nlon : nat) (lon : Arr T) (A B : Field4 T)
  (t k j : nat) :
  XArray.index_ok nlon lon = true ->
  XArray.multiply (XArray.labelled nlon lon (A t k j))
    (XArray.labelled nlon lon (B t k j))
  = XArray.labelled nlon lon (fun l => mul (A t k j l) (B t k j l)) /\
  XArray.covariance (XArray.labelled nlon lon (A t k j))
    (XArray.labelled nlon lon (B t k j))
  = Process.covariance nlon A B t k j.
Proof.
  intros Hok. split.
  - now apply multiply_labelled.
  - unfold XArray.covariance. rewrite multiply_labelled by exact Hok.
    now rewrite mean_labelled.
Qed.

(** Two binary64 arrays on the same latitude grid. *)
Lemma product_on_shared_coordinate_witness :
  XArray.multiply (XArray.labelled 3 Grids64.lat_a Grids64.v_prime)
    (XArray.labelled 3 Grids64.lat_a Grids64.theta_prime)
  = XArray.labelled 3 Grids64.lat_a
      (fun l => mul (Grids64.v_prime l) (Grids64.theta_prime l)) /\
  XArray.covariance (XArray.labelled 3 Grids64.lat_a Grids64.v_prime)
    (XArray.labelled 3 Grids64.lat_a Grids64.theta_prime)
  = Process.covariance 3 (fun _ _ _ => Grids64.v_prime)
      (fun _ _ _ => Grids64.theta_prime) 0 0 0.
Proof.
  apply (product_on_shared_coordinate float float_Num 3 Grids64.lat_a
           (fun _ _ _ => Grids64.v_prime) (fun _ _ _ => Grids64.theta_prime)
           0 0 0).
  vm_compute. reflexivity.
Defined.

(** C5 (as stated) fails: two arrays whose latitude grids differ in one
    label (0.1 + 0.2 against 0.3 in binary64) are multiplied without any
    exception; the product silently keeps the two common labels only, and
    the mean of the product is 68 where the entry-by-entry products
    average to 56. *)
Lemma product_of_mismatched_grids_is_silent :
  XArray.index (XArray.labelled 3 Grids64.lat_a Grids64.v_prime)
    <> XArray.index (XArray.labelled 3 Grids64.lat_b Grids64.theta_prime) /\
  XArray.multiply (XArray.labelled 3 Grids64.lat_a Grids64.v_prime)
    (XArray.labelled 3 Grids64.lat_b Grids64.theta_prime)
  = [(0.25, 8); (0.5, 128)]%float /\
  XArray.covariance (XArray.labelled 3 Grids64.lat_a Grids64.v_prime)
    (XArray.labelled 3 Grids64.lat_b Grids64.theta_prime) = 68%float /\
  nanmean 3 (fun l => mul (Grids64.v_prime l) (Grids64.theta_prime l))
  = 56%float.
Proof.
  split; [|vm_compute; repeat split].
  intros E.
  apply (f_equal (fun l => PrimFloat.eqb (nth 1 l 0%float) (Grids64.lat_b 1)))
    in E.
  vm_compute in E. discriminate.
Qed.

(** * Further properties of the notebook *)

(** ** When the notebook runs to completion *)

(** X1. The notebook depends on the shape of the dataset only through the
    numbers of levels and latitudes: without a level [p[-1]] raises
    [IndexError]; with a single level, or with fewer than two latitudes,
    [differentiate] raises [ValueError]; with at least two of each it
    returns a dataset of the same three sizes, whatever the values. *)
Theorem notebook_outcome_by_shape
  (T : Type) (num : Num T) (ufuncs : Ufuncs T) (ds : RawDataset T) :
  (n_level ds = 0%nat -> Process.process ds = Raise IndexError) /\
  (n_level ds = 1%nat -> Process.process ds = Raise ValueError) /\
  ((2 <= n_level ds)%nat -> (n_latitude ds < 2)%nat ->
   Process.process ds = Raise ValueError) /\
  ((2 <= n_level ds)%nat -> (2 <= n_latitude ds)%nat ->
   exists out,
     Process.process ds = Ok out /\
     out_n_time out = n_time ds /\
     out_n_pressure out = n_level ds /\
     out_n_latitude out = n_latitude ds).
Proof.
  repeat split.
  - intros E. unfold Process.process, Process.notebook, Process.p_surf.
    now rewrite E.
  - intros E. unfold Process.process, Process.notebook, Process.p_surf,
      Process.dzdh, Process.differentiate_z4.
    now rewrite E.
  - intros Hz Hlat.
    unfold Process.process, Process.notebook, Process.diagnostics,
      Process.p_surf, Process.dzdh, Process.N2, Process.v_star,
      Process.w_star, Process.differentiate_z4, Process.differentiate_z,
      Process.differentiate_lat.
    rewrite (proj2 (Nat.ltb_ge _ 2) Hz), (proj2 (Nat.ltb_lt _ 2) Hlat).
    replace (Nat.eqb _ 0) with false by (symmetry; apply Nat.eqb_neq; lia).
    reflexivity.
  - intros Hz Hlat. run_process Hz Hlat. eexists. split; [reflexivity|].
    cbn [nb_ds out_n_time out_n_pressure out_n_latitude]. auto.
Qed.

(** X2. In exact arithmetic [differentiate] is exact on affine data: on a
    strictly monotone coordinate of at least two points, the finite
    difference of [alpha * x + beta] is [alpha] at every index, ends
    included, whether the spacing is even or not. *)
Theorem gradient_at_affine (n : nat) (x : Arr R) (alpha beta : R) (i : nat) :
  (2 <= n)%nat -> (i < n)%nat -> strictly_monotone n x ->
  gradient_at n x (fun k => (alpha * x k + beta)%R) i = alpha.
Proof. apply gradient_at_of_affine. Qed.

(** An unevenly spaced, decreasing coordinate of three points, at the
    middle one. *)
Lemma gradient_at_affine_witness :
  gradient_at 3 (of_list 0%R [8192; 2048; 0]%R)
    (fun k => (3 * of_list 0%R [8192; 2048; 0]%R k + 1)%R) 1 = 3%R.
Proof.
  apply (gradient_at_affine 3 (of_list 0%R [8192; 2048; 0]%R) 3 1 1);
    try lia.
  right. intros [|[|i]] Hi; cbn; try lra. lia.
Defined.

(** X3. In exact arithmetic [differentiate] is linear in the data: the
    finite difference of [alpha * f + beta * g] is the same combination
    of the finite differences of [f] and [g], on any coordinate. *)
Theorem gradient_at_linear (n : nat) (x f g : Arr R) (alpha beta : R)
  (i : nat) :
  gradient_at n x (fun k => (alpha * f k + beta * g k)%R) i
  = (alpha * gradient_at n x f i + beta * gradient_at n x g i)%R.
Proof.
  unfold gradient_at. cbn [add sub mul div neg of_Z R_Num].
  destruct (i =? 0)%nat; [unfold Rdiv; ring|].
  destruct (i =? n - 1)%nat; [unfold Rdiv; ring|].
  destruct (uniform_spacing n x); unfold Rdiv; ring.
Qed.

(** ** The working coordinates in exact arithmetic *)

(** X4. On a dataset with positive pressures the reference density is the
    pressure relative to the last level, [rho = p / p[-1]]: it is positive
    everywhere and 1 at the last level, where the log-pressure height is
    0. *)
Theorem reference_density_is_pressure_ratio (ds : RawDataset R) :
  (2 <= n_level ds)%nat -> (2 <= n_latitude ds)%nat ->
  (forall k, (k < n_level ds)%nat -> (0 < level ds k)%R) ->
  exists ns,
    Process.notebook ds = Ok ns /\
    (forall k, (k < n_level ds)%nat ->
       nb_rho ns k = (level ds k / level ds (n_level ds - 1)%nat)%R /\
       (0 < nb_rho ns k)%R) /\
    nb_z ns (n_level ds - 1)%nat = 0%R /\
    nb_rho ns (n_level ds - 1)%nat = 1%R.
Proof.
  intros Hz Hlat Hpos. run_process Hz Hlat.
  eexists. split; [reflexivity|]. cbn [nb_rho nb_z].
  pose proof (Hpos (n_level ds - 1)%nat ltac:(lia)) as Hs.
  assert (Hrho : forall k, (k < n_level ds)%nat ->
            Process.rho
              (Process.z (Process.p (level ds))
                 (Process.p (level ds) (n_level ds - 1)%nat)) k
            = (level ds k / level ds (n_level ds - 1)%nat)%R).
  { intros k Hk. pose proof (Hpos k Hk) as Hk0.
    unfold Process.rho, Process.z, Process.p, Process.H.
    cbn [mul div neg of_Z np_exp np_log R_Num R_Ufuncs Z.opp].
    set (L := level ds k) in *.
    set (S := level ds (n_level ds - 1)%nat) in *.
    replace (- (-6800 * ln (100 * L / (100 * S))) / 6800)%R
      with (ln (100 * L / (100 * S))) by (field; lra).
    rewrite exp_ln; [field; lra|].
    apply Rdiv_lt_0_compat; lra. }
  split; [|split].
  - intros k Hk. rewrite (Hrho k Hk). split; [reflexivity|].
    apply Rdiv_lt_0_compat; [now apply Hpos | exact Hs].
  - unfold Process.z, Process.p, Process.H.
    cbn [mul div of_Z np_log R_Num R_Ufuncs Z.opp].
    replace (100 * level ds (n_level ds - 1)%nat
             / (100 * level ds (n_level ds - 1)%nat))%R with 1%R
      by (field; lra).
    rewrite ln_1. ring.
  - rewrite Hrho by lia. field. lra.
Qed.

Lemma reference_density_is_pressure_ratio_witness :
  exists ns,
    Process.notebook sample_ds = Ok ns /\
    (forall k, (k < n_level sample_ds)%nat ->
       nb_rho ns k
       = (level sample_ds k / level sample_ds (n_level sample_ds - 1)%nat)%R
       /\ (0 < nb_rho ns k)%R) /\
    nb_z ns (n_level sample_ds - 1)%nat = 0%R /\
    nb_rho ns (n_level sample_ds - 1)%nat = 1%R.
Proof.
  apply (reference_density_is_pressure_ratio sample_ds);
    cbn [n_level n_latitude sample_ds]; try lia.
  intros [|[|[|k]]] Hk; cbn; try lra. lia.
Defined.

(** X5. With positive pressures stored in strictly ascending order the
    log-pressure height strictly decreases along the level axis, so the
    vertical coordinate handed to [differentiate('z')] is strictly
    monotone and no spacing is zero. *)
Theorem height_decreases_with_pressure (ds : RawDataset R) :
  (2 <= n_level ds)%nat -> (2 <= n_latitude ds)%nat ->
  (0 < level ds 0%nat)%R ->
  (forall i, (S i < n_level ds)%nat -> (level ds i < level ds (S i))%R) ->
  exists ns,
    Process.notebook ds = Ok ns /\
    (forall i, (S i < n_level ds)%nat -> (nb_z ns (S i) < nb_z ns i)%R) /\
    strictly_monotone (n_level ds) (nb_z ns).
Proof.
  intros Hz Hlat H0 Hasc.
  assert (Hpos : forall k, (k < n_level ds)%nat -> (0 < level ds k)%R).
  { induction k as [|k IH]; intros Hk; [exact H0|].
    pose proof (IH ltac:(lia)). pose proof (Hasc k Hk). lra. }
  run_process Hz Hlat. eexists. split; [reflexivity|]. cbn [nb_z].
  assert (Hdec : forall i, (S i < n_level ds)%nat ->
            (Process.z (Process.p (level ds))
               (Process.p (level ds) (n_level ds - 1)%nat) (S i)
             < Process.z (Process.p (level ds))
                 (Process.p (level ds) (n_level ds - 1)%nat) i)%R).
  { intros i Hi. unfold Process.z, Process.p, Process.H.
    cbn [mul div of_Z np_log R_Num R_Ufuncs Z.opp].
    pose proof (Hpos i ltac:(lia)) as Hi0.
    pose proof (Hpos (n_level ds - 1)%nat ltac:(lia)) as Hs.
    pose proof (Hasc i Hi) as Hlt.
    set (S := level ds (n_level ds - 1)%nat) in *.
    assert (Hln : (ln (100 * level ds i / (100 * S))
                   < ln (100 * level ds (Datatypes.S i) / (100 * S)))%R).
    { apply ln_increasing.
      - apply Rdiv_lt_0_compat; lra.
      - apply Rmult_lt_compat_r; [apply Rinv_0_lt_compat; lra | lra]. }
    lra. }
  split; [exact Hdec | right; exact Hdec].
Qed.

Lemma height_decreases_with_pressure_witness :
  exists ns,
    Process.notebook sample_ds = Ok ns /\
    (forall i, (S i < n_level sample_ds)%nat ->
       (nb_z ns (S i) < nb_z ns i)%R) /\
    strictly_monotone (n_level sample_ds) (nb_z ns).
Proof.
  apply (height_decreases_with_pressure sample_ds);
    cbn [n_level n_latitude sample_ds]; try lia.
  - cbn. lra.
  - intros [|[|i]] Hi; cbn; try lra. lia.
Defined.

(** X6. At the last level, whose pressure is [p_surf], the potential
    temperature is the temperature itself: the written [theta] and [T]
    agree there, provided that pressure is not zero. *)
Theorem theta_is_T_at_last_level (ds : RawDataset R) :
  (2 <= n_level ds)%nat -> (2 <= n_latitude ds)%nat ->
  level ds (n_level ds - 1)%nat <> 0%R ->
  exists out,
    Process.process ds = Ok out /\
    forall t j,
      out_theta out t (n_level ds - 1)%nat j
      = out_T out t (n_level ds - 1)%nat j.
Proof.
  intros Hz Hlat Hs. run_process Hz Hlat.
  eexists. split; [reflexivity|]. cbn [nb_ds out_theta out_T].
  intros t j. unfold Process.mean_lon. apply nanmean_ext. intros l.
  unfold Process.theta, Process.p.
  cbn [mul div of_Z of_dec power R_Num R_Ufuncs].
  replace (100 * level ds (n_level ds - 1)%nat
           / (100 * level ds (n_level ds - 1)%nat))%R with 1%R
    by (field; exact Hs).
  unfold Rpower. rewrite ln_1, Rmult_0_r, exp_0. ring.
Qed.

Lemma theta_is_T_at_last_level_witness :
  exists out,
    Process.process sample_ds = Ok out /\
    forall t j,
      out_theta out t (n_level sample_ds - 1)%nat j
      = out_T out t (n_level sample_ds - 1)%nat j.
Proof.
  apply (theta_is_T_at_last_level sample_ds);
    cbn [n_level n_latitude sample_ds]; try lia.
  cbn. lra.
Defined.

(** ** Zonally uniform fields *)

Section Uniform.

Local Open Scope R_scope.

Lemma sum_zero (l : list nat) (f : nat -> R) :
  (forall i, In i l -> f i = 0) -> fold_right Rplus 0 (map f l) = 0.
Proof.
  induction l as [|i l IH]; intros Hf; [reflexivity|].
  cbn [map fold_right]. rewrite (Hf i) by now left.
  rewrite IH; [ring|]. intros k Hk. apply Hf. now right.
Qed.

Lemma eddy_of_uniform (nlon : nat) (A : Field4 R) (t k j l : nat) :
  (0 < nlon)%nat -> (forall l', A t k j l' = A t k j 0%nat) ->
  Process.eddy A (Process.mean_lon nlon A) t k j l = 0.
Proof.
  intros Hn Hu. unfold Process.eddy. cbn [sub R_Num].
  rewrite mean_lon_R. unfold Spec.zonal_mean.
  assert (E : fold_right Rplus 0 (map (A t k j) (seq 0 nlon))
              = INR nlon * A t k j 0%nat).
  { pose proof (sum_shift (A t k j) (A t k j 0%nat) (seq 0 nlon)) as Hs.
    rewrite length_seq in Hs.
    rewrite (sum_zero (seq 0 nlon) (fun i => A t k j i - A t k j 0%nat))
      in Hs by (intros i _; rewrite (Hu i); ring).
    lra. }
  rewrite E, (Hu l). field. apply not_0_INR. lia.
Qed.

Lemma covariance_of_uniform (nlon : nat) (A B : Field4 R) (t k j : nat) :
  (0 < nlon)%nat -> (forall l, A t k j l = A t k j 0%nat) ->
  Process.covariance nlon (Process.eddy A (Process.mean_lon nlon A)) B t k j
  = 0 /\
  Process.covariance nlon B (Process.eddy A (Process.mean_lon nlon A)) t k j
  = 0.
Proof.
  intros Hn Hu. unfold Process.covariance.
  rewrite !mean_lon_R. unfold Spec.zonal_mean. cbn [mul R_Num].
  split; (rewrite sum_zero; [unfold Rdiv; ring|]); intros l _;
    rewrite (eddy_of_uniform nlon A t k j l Hn Hu); ring.
Qed.

End Uniform.

(** X7. In exact arithmetic a zonally uniform wind carries no eddy flux:
    if [V] does not vary with longitude, the written [heat_flux] is zero
    everywhere, whatever the temperature; and every covariance with the
    eddy part of a zonally uniform field is zero. *)
Theorem uniform_wind_has_no_heat_flux (ds : RawDataset R) :
  (2 <= n_level ds)%nat -> (2 <= n_latitude ds)%nat ->
  (0 < n_longitude ds)%nat ->
  (forall t k j l, var_V ds t k j l = var_V ds t k j 0%nat) ->
  (exists out,
     Process.process ds = Ok out /\
     forall t k j, out_heat_flux out t k j = 0%R) /\
  (forall (B : Field4 R) t k j,
     Process.covariance (n_longitude ds)
       (Process.eddy (var_V ds)
          (Process.mean_lon (n_longitude ds) (var_V ds))) B t k j = 0%R /\
     Process.covariance (n_longitude ds) B
       (Process.eddy (var_V ds)
          (Process.mean_lon (n_longitude ds) (var_V ds))) t k j = 0%R).
Proof.
  intros Hz Hlat Hn Hu. split.
  - run_process Hz Hlat. eexists. split; [reflexivity|].
    cbn [nb_ds out_heat_flux]. intros t k j.
    apply (proj1 (covariance_of_uniform (n_longitude ds) (var_V ds) _ t k j
                    Hn (Hu t k j))).
  - intros B t k j.
    exact (covariance_of_uniform (n_longitude ds) (var_V ds) B t k j
             Hn (Hu t k j)).
Qed.

(** A dataset whose meridional wind does not vary with longitude. *)
Lemma uniform_wind_has_no_heat_flux_witness :
  exists out,
    Process.process uniform_ds = Ok out /\
    forall t k j, out_heat_flux out t k j = 0%R.
Proof.
  refine (proj1 (uniform_wind_has_no_heat_flux uniform_ds _ _ _ _));
    cbn [n_level n_latitude n_longitude uniform_ds]; try lia.
  reflexivity.
Defined.

(** X8. The conversion of the vertical velocity is the chain rule: where
    the geopotential height is affine in the log-pressure height, with
    slope [alpha] in every column, [w] is [w_cartesian / alpha] at every
    level, ends included. *)
Theorem w_for_affine_height
  (nz : nat) (z : Arr R) (h w_cartesian : Field4 R) (alpha : R)
  (beta : nat -> nat -> nat -> R) :
  (2 <= nz)%nat -> strictly_monotone nz z -> alpha <> 0%R ->
  (forall t k j l, h t k j l = (alpha * z k + beta t j l)%R) ->
  exists D,
    Process.dzdh nz z h = Ok D /\
    forall t k j l, (k < nz)%nat ->
      Process.w D w_cartesian t k j l = (w_cartesian t k j l / alpha)%R.
Proof.
  intros Hn Hm Ha Hh. unfold Process.dzdh, Process.differentiate_z4.
  rewrite (proj2 (Nat.ltb_ge _ 2) Hn). cbn [bind].
  eexists. split; [reflexivity|]. intros t k j l Hk.
  unfold Process.w. cbn [mul div of_Z R_Num].
  rewrite (gradient_at_ext nz z (fun k' => h t k' j l)
             (fun k' => (alpha * z k' + beta t j l)%R) k)
    by (intros k'; apply Hh).
  rewrite (gradient_at_of_affine nz z alpha (beta t j l) k Hn Hk Hm).
  field. exact Ha.
Qed.

Lemma w_for_affine_height_witness :
  exists D,
    Process.dzdh 3 (of_list 0%R [8192; 2048; 0]%R)
      (fun _ k _ _ => (2 * of_list 0%R [8192; 2048; 0]%R k + 5)%R) = Ok D /\
    forall t k j l, (k < 3)%nat ->
      Process.w D (fun _ _ _ _ => 1%R) t k j l = (1 / 2)%R.
Proof.
  apply (w_for_affine_height 3 (of_list 0%R [8192; 2048; 0]%R)
           (fun _ k _ _ => (2 * of_list 0%R [8192; 2048; 0]%R k + 5)%R)
           (fun _ _ _ _ => 1%R) 2 (fun _ _ _ => 5%R)); try lia; try lra.
  - right. intros [|[|i]] Hi; cbn; try lra. lia.
  - reflexivity.
Defined.

(** ** Zonal means and NaN *)

(** X10. [mean] hides NaN but not infinity: an infinite entry along the
    axis, such as the converted velocity where the height does not change
    with [z], makes the zonal mean NaN or infinite. *)
Theorem nanmean_keeps_infinity (n : nat) (x : Arr float) (i : nat) :
  (i < n)%nat -> IEEE.infinite (x i) = true ->
  IEEE.nonfinite (nanmean n x) = true.
Proof. apply nanmean_nonfinite. Qed.

Lemma nanmean_keeps_infinity_witness :
  IEEE.nonfinite
    (nanmean 3 (of_list 0 [1; infinity; 2])%float) = true.
Proof.
  apply (nanmean_keeps_infinity 3 (of_list 0 [1; infinity; 2])%float 1);
    [lia | reflexivity].
Defined.

(** X11. The mean along an axis whose entries are all NaN is NaN, and so
    is the mean along an empty axis: nothing is raised, the zonal mean is
    just undefined there. *)
Theorem nanmean_of_nothing_is_nan (n : nat) (x : Arr float) :
  (forall i, (i < n)%nat -> PrimFloat.is_nan (x i) = true) ->
  PrimFloat.is_nan (nanmean n x) = true.
Proof. apply nanmean_all_nan. Qed.

Lemma nanmean_of_nothing_is_nan_witness :
  PrimFloat.is_nan (nanmean 0 (of_list 0%float [])) = true /\
  PrimFloat.is_nan (nanmean 2 (fun _ => nan)) = true.
Proof.
  split.
  - apply (nanmean_of_nothing_is_nan 0 (of_list 0%float [])). intros i Hi. lia.
  - apply (nanmean_of_nothing_is_nan 2 (fun _ => nan)). reflexivity.
Defined.

(** ** Degenerate columns and vanishing fluxes in binary64 *)

Section IEEEMore.

Import IEEE.
Local Open Scope float_scope.

Lemma mul_zero_l x y :
  fzero x = true -> finite y = true -> fzero (x * y) = true.
Proof.
  unfold finite, nonfinite, fzero. rewrite mul_spec.
  destruct (Prim2SF x) as [[|]|[|]| |? ? ?], (Prim2SF y) as [[|]|[|]| |? ? ?];
    try discriminate; try reflexivity.
Qed.

Lemma one_over_zero x : fzero x = true -> infinite (1 / x) = true.
Proof.
  unfold fzero, infinite. rewrite div_spec.
  change (Prim2SF 1) with (S754_finite false 4503599627370496 (-52)).
  destruct (Prim2SF x); try discriminate; reflexivity.
Qed.

End IEEEMore.

(** X12. Where the height does not change with [z] in the finite
    difference, [dzdh = 1 / h.differentiate('z')] is an infinity, not an
    exception and not a NaN, and the converted velocity is infinite or
    NaN at that point. *)
Theorem flat_height_gives_infinite_velocity
  (nz : nat) (z : Arr float) (h w_cartesian : Field4 float) (t k j l : nat) :
  (2 <= nz)%nat ->
  IEEE.fzero (gradient_at nz z (fun k' => h t k' j l) k) = true ->
  exists D,
    Process.dzdh nz z h = Ok D /\
    IEEE.infinite (D t k j l) = true /\
    IEEE.nonfinite (Process.w D w_cartesian t k j l) = true.
Proof.
  intros Hn H0. unfold Process.dzdh, Process.differentiate_z4.
  rewrite (proj2 (Nat.ltb_ge _ 2) Hn). cbn [bind].
  eexists. split; [reflexivity|].
  assert (Hinf : IEEE.infinite
                   (PrimFloat.div 1
                      (gradient_at nz z (fun k' => h t k' j l) k)) = true)
    by now apply one_over_zero.
  split; [exact Hinf|].
  unfold Process.w. cbn [mul div of_Z float_Num].
  apply mul_nonfinite_l, infinite_nonfinite. exact Hinf.
Qed.

Lemma flat_height_gives_infinite_velocity_witness :
  exists D,
    Process.dzdh 3 Sample64.z Sample64.h_flat = Ok D /\
    IEEE.infinite (D 0 0 0 0)%nat = true /\
    IEEE.nonfinite (Process.w D Sample64.w_cartesian 0 0 0 0)%nat = true.
Proof.
  apply (flat_height_gives_infinite_velocity 3 Sample64.z Sample64.h_flat
           Sample64.w_cartesian 0 0 0 0); [lia | reflexivity].
Defined.

(** X13. Without eddy fluxes there is no flux divergence: with the heat
    flux and both momentum fluxes zero, N2 usable as a divisor, finite
    wind shear, Coriolis term, density and cosine, a well-defined stencil
    and a usable divisor [rho * a * cos_lat], [F_lat] and [F_z] are zero on
    the whole grid and [EPFD] is zero. *)
Theorem no_flux_no_divergence
  (nz nlat : nat) (z lat rho cos_lat f : Arr float) (a : float)
  (u_bar offset heat_flux N2 uv_bar uw_bar : Field3 float) (t k j : nat) :
  (2 <= nz)%nat -> (2 <= nlat)%nat -> (k < nz)%nat -> (j < nlat)%nat ->
  (forall k' j', (k' < nz)%nat -> (j' < nlat)%nat ->
     IEEE.fzero (heat_flux t k' j') = true /\
     IEEE.fzero (uv_bar t k' j') = true /\
     IEEE.fzero (uw_bar t k' j') = true) ->
  (forall k' j', (k' < nz)%nat -> (j' < nlat)%nat ->
     IEEE.divisor_ok (N2 t k' j') = true) ->
  (forall k' j', (k' < nz)%nat -> (j' < nlat)%nat ->
     IEEE.finite (gradient_at nz z (fun k'' => u_bar t k'' j') k') = true /\
     IEEE.finite (PrimFloat.sub (f j') (offset t k' j')) = true) ->
  (forall k', (k' < nz)%nat -> IEEE.finite (rho k') = true) ->
  (forall j', (j' < nlat)%nat -> IEEE.finite (cos_lat j') = true) ->
  IEEE.finite a = true ->
  IEEE.stencil_ok nz z k = true ->
  IEEE.stencil_ok nlat lat j = true ->
  IEEE.divisor_ok
    (PrimFloat.mul (PrimFloat.mul (rho k) a) (cos_lat j)) = true ->
  exists Fl E,
    Process.F_lat nz z rho cos_lat u_bar heat_flux N2 uv_bar = Ok Fl /\
    Process.EPFD nz nlat z lat rho cos_lat a Fl
      (Process.F_z rho cos_lat f a offset heat_flux N2 uw_bar) = Ok E /\
    (forall k' j', (k' < nz)%nat -> (j' < nlat)%nat ->
       IEEE.fzero (Fl t k' j') = true /\
       IEEE.fzero
         (Process.F_z rho cos_lat f a offset heat_flux N2 uw_bar t k' j')
       = true) /\
    IEEE.fzero (E t k j) = true.
Proof.
  intros Hnz Hnlat Hk Hj Hflux HN2 Hfin Hrho Hcos Ha Hsz Hsl Hdiv.
  unfold Process.F_lat, Process.EPFD, Process.differentiate_z,
    Process.differentiate_lat.
  rewrite (proj2 (Nat.ltb_ge _ 2) Hnz), (proj2 (Nat.ltb_ge _ 2) Hnlat).
  cbn [bind]. do 2 eexists. split; [reflexivity|]. split; [reflexivity|].
  assert (Hzero : forall k' j', (k' < nz)%nat -> (j' < nlat)%nat ->
            IEEE.fzero
              (PrimFloat.mul
                 (PrimFloat.mul
                    (PrimFloat.sub
                       (PrimFloat.div
                          (PrimFloat.mul
                             (gradient_at nz z (fun k'' => u_bar t k'' j') k')
                             (heat_flux t k' j'))
                          (N2 t k' j'))
                       (uv_bar t k' j'))
                    (rho k'))
                 (cos_lat j')) = true /\
            IEEE.fzero
              (Process.F_z rho cos_lat f a offset heat_flux N2 uw_bar t k' j')
            = true).
  { intros k' j' Hk' Hj'.
    destruct (Hflux k' j' Hk' Hj') as (Hhf & Huv & Huw).
    destruct (Hfin k' j' Hk' Hj') as (HD & Hfo).
    split.
    - apply mul_zero_l; [|now apply Hcos].
      apply mul_zero_l; [|now apply Hrho].
      apply sub_zero; [|exact Huv].
      apply div_zero; [|now apply HN2].
      now apply mul_zero_r.
    - unfold Process.F_z. cbn [sub mul div float_Num].
      apply mul_zero_l; [|now apply Hcos].
      apply mul_zero_l; [|exact Ha].
      apply mul_zero_l; [|now apply Hrho].
      apply sub_zero; [|exact Huw].
      apply div_zero; [|now apply HN2].
      now apply mul_zero_r. }
  split; [exact Hzero|].
  cbn [add sub mul div float_Num].
  apply div_zero; [|exact Hdiv].
  apply add_zero.
  - apply gradient_at_zero; try assumption.
    intros j' Hj'. now apply Hzero.
  - apply gradient_at_zero; try assumption.
    intros k' Hk'. now apply Hzero.
Qed.

Lemma no_flux_no_divergence_witness :
  exists Fl E,
    Process.F_lat 3 Sample64.z Sample64.rho Sample64.cos_lat Sample64.u_bar
      Sample64.zero_field Sample64.N2_positive Sample64.zero_field = Ok Fl /\
    Process.EPFD 3 3 Sample64.z Sample64.lat Sample64.rho Sample64.cos_lat
      Sample64.a Fl
      (Process.F_z Sample64.rho Sample64.cos_lat Sample64.f Sample64.a
         Sample64.offset Sample64.zero_field Sample64.N2_positive
         Sample64.zero_field) = Ok E /\
    (forall k' j', (k' < 3)%nat -> (j' < 3)%nat ->
       IEEE.fzero (Fl 0%nat k' j') = true /\
       IEEE.fzero
         (Process.F_z Sample64.rho Sample64.cos_lat Sample64.f Sample64.a
            Sample64.offset Sample64.zero_field Sample64.N2_positive
            Sample64.zero_field 0%nat k' j') = true) /\
    IEEE.fzero (E 0 1 1)%nat = true.
Proof.
  apply (no_flux_no_divergence 3 3 Sample64.z Sample64.lat Sample64.rho
           Sample64.cos_lat Sample64.f Sample64.a Sample64.u_bar
           Sample64.offset Sample64.zero_field Sample64.N2_positive
           Sample64.zero_field Sample64.zero_field 0 1 1);
    try lia; try reflexivity.
  - intros k' j' _ _. repeat split.
  - intros [|[|[|k']]] [|[|[|j']]] Hk Hj; try lia; split; reflexivity.
  - intros [|[|[|k']]] Hk; try lia; reflexivity.
  - intros [|[|[|j']]] Hj; try lia; reflexivity.
Defined.

(** ** The enumeration of the input files, in detail *)

Section Sorting.

Import Adapter.

Lemma insert_sorted_perm (x : string) (l : list string) :
  Permutation (insert_sorted x l) (x :: l).
Proof.
  induction l as [|y l IH]; cbn [insert_sorted]; [reflexivity|].
  destruct (String.leb x y); [reflexivity|].
  rewrite IH. apply perm_swap.
Qed.

Lemma insert_sorted_hd (x a : string) (l : list string) :
  leb_rel a x -> HdRel leb_rel a l -> HdRel leb_rel a (insert_sorted x l).
Proof.
  intros Hax Hl. destruct l as [|y l]; cbn [insert_sorted].
  - now constructor.
  - destruct (String.leb x y); constructor; [exact Hax|].
    now inversion Hl.
Qed.

Lemma insert_sorted_Sorted (x : string) (l : list string) :
  Sorted leb_rel l -> Sorted leb_rel (insert_sorted x l).
Proof.
  induction 1 as [|y l Hs IH Hhd]; cbn [insert_sorted].
  - repeat constructor.
  - destruct (String.leb x y) eqn:E.
    + constructor; [now constructor|]. now constructor.
    + constructor; [exact IH|].
      apply insert_sorted_hd; [|exact Hhd].
      destruct (String.leb_total x y) as [H|H]; [congruence | exact H].
Qed.

Lemma sorted_perm (l : list string) : Permutation (sorted l) l.
Proof.
  unfold sorted. induction l as [|x l IH]; cbn [fold_right]; [constructor|].
  rewrite insert_sorted_perm. now constructor.
Qed.

Lemma sorted_Sorted (l : list string) : Sorted leb_rel (sorted l).
Proof.
  unfold sorted. induction l as [|x l IH]; cbn [fold_right]; [constructor|].
  now apply insert_sorted_Sorted.
Qed.

End Sorting.

(** X14. [sorted] returns the directory names it was given, each as often
    as it occurs, in non-decreasing order of their code points. *)
Theorem sorted_is_a_sorted_permutation (l : list string) :
  Permutation (Adapter.sorted l) l /\
  Sorted Adapter.leb_rel (Adapter.sorted l).
Proof. split; [apply sorted_perm | apply sorted_Sorted]. Qed.

Section FirstMatch.

Import Adapter.

Lemma filter_first {A : Type} (f : A -> bool) (l : list A) (x : A)
  (rest : list A) :
  filter f l = x :: rest ->
  exists pre post,
    l = pre ++ x :: post /\ f x = true /\
    (forall y, In y pre -> f y = false) /\ rest = filter f post.
Proof.
  induction l as [|y l IH]; cbn [filter]; [discriminate|].
  destruct (f y) eqn:E.
  - intros [= -> <-]. exists [], l. repeat split; [exact E|]. intros y [].
  - intros H. destruct (IH H) as (pre & post & -> & Hx & Hpre & Hrest).
    exists (y :: pre), post. repeat split; try assumption.
    intros y' [<-|Hy']; [exact E | now apply Hpre].
Qed.

Lemma filter_nil {A : Type} (f : A -> bool) (l : list A) :
  filter f l = [] -> forall y, In y l -> f y = false.
Proof.
  induction l as [|x l IH]; cbn [filter]; [intros _ y []|].
  destruct (f x) eqn:E; [discriminate|].
  intros H y [<-|Hy]; [exact E | now apply IH].
Qed.

End FirstMatch.

(** X15. The file chosen for a variable is the first entry of the listing,
    in listing order, whose name contains [_name.] in lower case; further
    matching entries are passed over without notice.  [IndexError] is
    raised exactly when no entry matches. *)
Theorem fname_is_first_match (fnames : list string) (name : string) :
  match Adapter.fname fnames name with
  | Ok x =>
      exists before after,
        fnames = before ++ x :: after /\
        Adapter.contains ("_" ++ Adapter.lower name ++ ".") x = true /\
        forall y, In y before ->
          Adapter.contains ("_" ++ Adapter.lower name ++ ".") y = false
  | Raise e =>
      e = IndexError /\
      forall y, In y fnames ->
        Adapter.contains ("_" ++ Adapter.lower name ++ ".") y = false
  end.
Proof.
  unfold Adapter.fname, Adapter.matching.
  destruct (filter _ fnames) as [|x rest] eqn:E.
  - split; [reflexivity|]. now apply filter_nil.
  - destruct (filter_first _ _ _ _ E) as (pre & post & Hl & Hx & Hpre & _).
    now exists pre, post.
Qed.

Section Collected.

Import Adapter.

Lemma year_fnames_sound (d : string) (fnames ns files : list string)
  (file : string) :
  year_fnames d fnames ns = Ok files -> In file files ->
  exists name x,
    In name ns /\ In x fnames /\
    contains ("_" ++ lower name ++ ".") x = true /\
    file = (d ++ "/" ++ x)%string.
Proof.
  revert files. induction ns as [|n ns IH]; intros files; cbn [year_fnames].
  - intros [= <-] [].
  - unfold fname. destruct (matching fnames n) as [|x xs] eqn:M; cbn [bind];
      [discriminate|].
    destruct (year_fnames d fnames ns) as [rest|e] eqn:E; cbn [bind];
      [|discriminate].
    intros [= <-] [<-|Hin].
    + exists n, x. unfold matching in M.
      assert (Hx : In x (filter (contains ("_" ++ lower n ++ ".")) fnames))
        by (rewrite M; now left).
      apply filter_In in Hx as [Hx1 Hx2].
      repeat split; auto. now left.
    + destruct (IH rest eq_refl Hin) as (name & y & Hn & Hy & Hc & Hf).
      exists name, y. repeat split; auto. now right.
Qed.

End Collected.

(** X16. Every path that the loops collect names an entry of the listing
    of one of the year directories, ends in [nc], contains the lower-case
    pattern of one of the five variables, and lies in that year's
    directory. *)
Theorem collected_files_come_from_the_listing
  (fs : Adapter.FileSystem) (ys : list Z) (files : list string)
  (file : string) :
  Adapter.ds_fnames fs ys = Ok files -> In file files ->
  exists year name entries x,
    In year ys /\ In name Adapter.names /\
    fs (Adapter.year_dir year) = Some (Adapter.Directory entries) /\
    In x entries /\
    Adapter.endswith x "nc" = true /\
    Adapter.contains ("_" ++ Adapter.lower name ++ ".") x = true /\
    file = (Adapter.year_dir year ++ "/" ++ x)%string.
Proof.
  revert files. induction ys as [|y ys IH]; intros files;
    cbn [Adapter.ds_fnames].
  - intros [= <-] [].
  - unfold Adapter.listdir.
    destruct (fs (Adapter.year_dir y)) as [[entries| |]|] eqn:Efs;
      cbn [bind]; try discriminate.
    destruct (Adapter.year_fnames _ _ Adapter.names) as [here|e] eqn:E;
      cbn [bind]; [|discriminate].
    destruct (Adapter.ds_fnames fs ys) as [rest|e] eqn:E'; cbn [bind];
      [|discriminate].
    intros [= <-] Hin. apply in_app_or in Hin as [Hin|Hin].
    + destruct (year_fnames_sound _ _ _ _ _ E Hin)
        as (name & x & Hn & Hx & Hc & Hf).
      apply filter_In in Hx as [Hx1 Hx2].
      exists y, name, entries, x. repeat split; auto. now left.
    + destruct (IH rest eq_refl Hin)
        as (year & name & entries' & x & Hy & Hrest).
      exists year, name, entries', x. split; [now right | exact Hrest].
Qed.

(** The temperature file of 1980 in the complete archive. *)
Lemma collected_files_come_from_the_listing_witness :
  exists year name entries x,
    In year [1979; 1980]%Z /\ In name Adapter.names /\
    Adapter.complete_archive (Adapter.year_dir year)
    = Some (Adapter.Directory entries) /\
    In x entries /\
    Adapter.endswith x "nc" = true /\
    Adapter.contains ("_" ++ Adapter.lower name ++ ".") x = true /\
    nth 8 Adapter.complete_files ""%string
    = (Adapter.year_dir year ++ "/" ++ x)%string.
Proof.
  apply (collected_files_come_from_the_listing Adapter.complete_archive
           [1979; 1980]%Z Adapter.complete_files).
  - vm_compute. reflexivity.
  - vm_compute. tauto.
Defined.

(** ** Directory names as numbers *)

Section Numerals.

Import Adapter.
Local Open Scope string_scope.

Lemma rstrip_uint (d : Decimal.uint) :
  rstrip (NilEmpty.string_of_uint d) = NilEmpty.string_of_uint d.
Proof.
  induction d; cbn [NilEmpty.string_of_uint rstrip]; rewrite ?IHd;
    try reflexivity; destruct (NilEmpty.string_of_uint d); reflexivity.
Qed.

Lemma ungroup_uint (d : Decimal.uint) :
  ungroup (NilEmpty.string_of_uint d) true = Some (NilEmpty.string_of_uint d).
Proof.
  induction d; cbn [NilEmpty.string_of_uint ungroup]; try reflexivity;
    rewrite IHd; reflexivity.
Qed.

Lemma strip_uint (c : ascii) (d : Decimal.uint) :
  isspace c = false ->
  strip (String c (NilEmpty.string_of_uint d))
  = String c (NilEmpty.string_of_uint d).
Proof.
  intros Hc. unfold strip. cbn [lstrip]. rewrite Hc. cbn [rstrip].
  rewrite rstrip_uint.
  destruct (NilEmpty.string_of_uint d); [now rewrite Hc | reflexivity].
Qed.

Lemma int_decimal_uint (d : Decimal.uint) :
  d <> Decimal.Nil ->
  int_decimal (NilEmpty.string_of_uint d) = Ok (Z.of_int (Decimal.Pos d)) /\
  int_decimal (String "-" (NilEmpty.string_of_uint d))
  = Ok (Z.of_int (Decimal.Neg d)).
Proof.
  intros Hd. pose proof (NilZero.usu d Hd) as Hu.
  unfold int_decimal. rewrite (strip_uint "-" d eq_refl).
  destruct d; try congruence;
    cbn [NilEmpty.string_of_uint NilZero.string_of_uint] in *;
    rewrite strip_uint by reflexivity;
    cbn [ungroup]; cbn -[NilZero.uint_of_string Z.of_int isdigit ungroup];
    rewrite ungroup_uint;
    match goal with
    | |- context [isdigit ?c] => change (isdigit c) with true
    end;
    cbn [option_map]; rewrite Hu; split; reflexivity.
Qed.

(** [int] reads back what [str] writes. *)
Lemma int_decimal_str (n : Z) : int_decimal (str n) = Ok n.
Proof.
  unfold str.
  destruct n as [|q|q]; [reflexivity| |];
    pose proof (Unsigned.to_uint_nonnil q) as Hq;
    cbn [Z.to_int NilZero.string_of_int];
    replace (NilZero.string_of_uint (Pos.to_uint q))
      with (NilEmpty.string_of_uint (Pos.to_uint q))
      by (now destruct (Pos.to_uint q));
    destruct (int_decimal_uint (Pos.to_uint q) Hq) as [Hp Hn].
  - rewrite Hp. f_equal. exact (DecimalZ.of_to (Z.pos q)).
  - rewrite Hn. f_equal. exact (DecimalZ.of_to (Z.neg q)).
Qed.

End Numerals.

(** X19. The decimal name that an f-string gives an integer parses back to
    that integer: a year directory named in plain decimal is read back
    under the very path it was listed with. *)
Theorem int_of_str (n : Z) :
  Adapter.int_decimal (Adapter.str n) = Ok n /\
  Adapter.year_dir n
  = (Adapter.era_dir ++ "/" ++ Adapter.str n)%string.
Proof. split; [apply int_decimal_str | reflexivity]. Qed.

(** ** String tests of the enumeration *)

Section StringTests.

Import Adapter.
Local Open Scope string_scope.

Lemma prefix_app (p s : string) : prefix p (p ++ s) = true.
Proof.
  induction p as [|c p IH]; cbn; [now destruct s|].
  destruct (ascii_dec c c); [exact IH | congruence].
Qed.

Lemma prefix_split (p x : string) :
  prefix p x = true -> exists s, x = p ++ s.
Proof.
  revert x. induction p as [|c p IH]; intros x H.
  - now exists x.
  - destruct x as [|b x]; cbn in H; [discriminate|].
    destruct (ascii_dec c b) as [->|]; [|discriminate].
    destruct (IH x H) as (s & ->). now exists s.
Qed.

Lemma contains_app (pattern a b : string) :
  contains pattern (a ++ pattern ++ b) = true.
Proof.
  induction a as [|c a IH].
  - cbn [append]. destruct (pattern ++ b) eqn:E; cbn [contains];
      rewrite <- E, prefix_app; reflexivity.
  - cbn [append contains]. rewrite IH. apply orb_true_r.
Qed.

Lemma contains_split (pattern x : string) :
  contains pattern x = true -> exists a b, x = a ++ pattern ++ b.
Proof.
  induction x as [|c x IH]; cbn [contains]; intros H.
  - rewrite orb_false_r in H. destruct (prefix_split _ _ H) as (s & E).
    now exists "", s.
  - apply orb_true_iff in H as [H|H].
    + destruct (prefix_split _ _ H) as (s & E). now exists "", s.
    + destruct (IH H) as (a & b & ->). now exists (String c a), b.
Qed.

Lemma substring_skip (a s : string) (m : nat) :
  substring (String.length a) m (a ++ s) = substring 0 m s.
Proof. induction a as [|c a IH]; [reflexivity | exact IH]. Qed.

Lemma substring_all (s : string) : substring 0 (String.length s) s = s.
Proof. induction s as [|c s IH]; [reflexivity | cbn; now rewrite IH]. Qed.

Lemma length_append (a b : string) :
  String.length (a ++ b) = (String.length a + String.length b)%nat.
Proof. induction a as [|c a IH]; [reflexivity | cbn; now rewrite IH]. Qed.

Lemma substring_cut (x : string) (k : nat) :
  (k <= String.length x)%nat ->
  x = substring 0 k x ++ substring k (String.length x - k) x.
Proof.
  revert k. induction x as [|c x IH]; intros k Hk.
  - cbn in Hk. now replace k with 0%nat by lia.
  - destruct k as [|k].
    + cbn [substring append Nat.sub String.length].
      now rewrite substring_all.
    + cbn [substring append Nat.sub String.length]. f_equal.
      apply IH. cbn in Hk. lia.
Qed.

End StringTests.

(** X20. [x.endswith(suffix)] holds exactly of the strings that are some
    prefix followed by [suffix]; [pattern in x] holds exactly of the
    strings that have [pattern] somewhere inside. *)
Theorem endswith_and_contains_are_exact (x s : string) :
  (Adapter.endswith x s = true <-> exists a, x = (a ++ s)%string) /\
  (Adapter.contains s x = true
   <-> exists a b, x = (a ++ s ++ b)%string).
Proof.
  split; split.
  - unfold Adapter.endswith. intros H.
    apply andb_true_iff in H as [Hle Heq].
    apply Nat.leb_le in Hle. apply String.eqb_eq in Heq.
    exists (substring 0 (String.length x - String.length s) x).
    pose proof (substring_cut x (String.length x - String.length s)
                  ltac:(lia)) as Hc.
    replace (String.length x - (String.length x - String.length s))%nat
      with (String.length s) in Hc by lia.
    now rewrite Heq in Hc.
  - intros (a & ->). unfold Adapter.endswith.
    rewrite length_append. apply andb_true_iff. split.
    + apply Nat.leb_le. lia.
    + apply String.eqb_eq.
      replace (String.length a + String.length s - String.length s)%nat
        with (String.length a) by lia.
      now rewrite substring_skip, substring_all.
  - apply contains_split.
  - intros (a & b & ->). apply contains_app.
Qed.

(** ** The aligned product, in general *)

(** [==] on binary64 labels is symmetric and transitive. *)
Section LabelEquality.

Lemma SFcompare_Eq s1 s2 :
  SFcompare s1 s2 = Some Eq ->
  s1 = s2 \/ (exists a b, s1 = S754_zero a /\ s2 = S754_zero b).
Proof.
  destruct s1 as [a|a| |a m1 e1], s2 as [b|b| |b m2 e2]; cbn.
  all: try discriminate.
  all: try (right; now exists a, b).
  all: try (destruct a; discriminate).
  all: try (destruct b; discriminate).
  all: try (destruct a, b; try discriminate; now left).
  change (PosDef.Pos.compare_cont Eq m1 m2) with (Pos.compare m1 m2).
  destruct a, b; try discriminate;
    destruct (Z.compare_spec e1 e2) as [->| |]; try discriminate;
    destruct (Pos.compare_spec m1 m2) as [->| |]; try discriminate;
    now left.
Qed.

Lemma float_eqb_sym x y : PrimFloat.eqb x y = true -> PrimFloat.eqb y x = true.
Proof.
  rewrite !FloatAxioms.eqb_spec. unfold SFeqb.
  destruct (SFcompare (Prim2SF x) (Prim2SF y)) as [[| |]|] eqn:E;
    try discriminate. intros _.
  destruct (SFcompare_Eq _ _ E) as [H|(a & b & Ha & Hb)].
  - rewrite H in *. now rewrite E.
  - now rewrite Ha, Hb.
Qed.

Lemma float_eqb_trans x y z :
  PrimFloat.eqb x y = true -> PrimFloat.eqb y z = true ->
  PrimFloat.eqb x z = true.
Proof.
  rewrite !FloatAxioms.eqb_spec. unfold SFeqb.
  destruct (SFcompare (Prim2SF x) (Prim2SF y)) as [[| |]|] eqn:E1;
    try discriminate. intros _.
  destruct (SFcompare (Prim2SF y) (Prim2SF z)) as [[| |]|] eqn:E2;
    try discriminate. intros _.
  destruct (SFcompare_Eq _ _ E1) as [H1|(a & b & Ha & Hb)].
  - now rewrite H1, E2.
  - destruct (SFcompare_Eq _ _ E2) as [H2|(a' & b' & Ha' & Hb')].
    + now rewrite <- H2, E1.
    + now rewrite Ha, Hb'.
Qed.

End LabelEquality.

Section InnerJoin.

Context {T : Type} {num : Num T}.

Import XArray.

Lemma multiply_sound (A B : DataArray) (e : T * T) :
  In e (multiply A B) ->
  exists a b,
    In a A /\ In b B /\ eqb (fst b) (fst a) = true /\
    e = (fst a, mul (snd a) (snd b)).
Proof.
  unfold multiply, sel. intros He.
  apply in_flat_map in He as (a & Ha & He).
  destruct (find _ B) as [b|] eqn:Ef; [|destruct He].
  destruct He as [<-|[]]. apply find_some in Ef as [Hb Hl].
  now exists a, b.
Qed.

Lemma multiply_length (A B : DataArray) :
  (List.length (multiply A B) <= List.length A)%nat.
Proof.
  unfold multiply, sel. induction A as [|a A IH]; [reflexivity|].
  cbn [flat_map]. rewrite length_app.
  destruct (find _ B); cbn [List.length] in *; lia.
Qed.

Lemma in_labelled (n : nat) (coord vals : Arr T) (e : T * T) :
  In e (labelled n coord vals) <->
  exists i, (i < n)%nat /\ e = (coord i, vals i).
Proof.
  unfold labelled. rewrite in_map_iff. split.
  - intros (i & <- & Hi). apply in_seq in Hi. exists i. split; [lia | easy].
  - intros (i & Hi & ->). exists i. split; [easy | apply in_seq; lia].
Qed.

(** The entry found under a label that one entry only answers to. *)
Lemma find_only (m : nat) (lb B : Arr T) (label : T) (j s k : nat) :
  (forall j', (j' < m)%nat -> eqb (lb j') label = (j' =? j)%nat) ->
  (s <= j)%nat -> (j < s + k)%nat -> (s + k <= m)%nat ->
  find (fun e => eqb (fst e) label) (map (fun i => (lb i, B i)) (seq s k))
  = Some (lb j, B j).
Proof.
  intros Hu. revert s. induction k as [|k IH]; intros s Hs Hj Hm; [lia|].
  cbn [seq map find fst]. rewrite (Hu s) by lia.
  destruct (Nat.eqb_spec s j) as [->|Hne]; [reflexivity|].
  apply IH; lia.
Qed.

Hypothesis eqb_sym : forall x y : T, eqb x y = true -> eqb y x = true.
Hypothesis eqb_trans :
  forall x y z : T, eqb x y = true -> eqb y z = true -> eqb x z = true.

Lemma sel_only (m : nat) (lb B : Arr T) (label : T) (j : nat) :
  index_ok m lb = true -> (j < m)%nat -> eqb (lb j) label = true ->
  sel label (labelled m lb B) = Some (B j).
Proof.
  intros Hok Hj Hl. unfold sel, labelled.
  rewrite (find_only m lb B label j 0 m); try lia; [reflexivity|].
  intros j' Hj'. destruct (Nat.eqb_spec j' j) as [->|Hne]; [exact Hl|].
  destruct (eqb (lb j') label) eqn:E; [|reflexivity].
  pose proof (eqb_trans _ _ _ E (eqb_sym _ _ Hl)) as E'.
  rewrite (index_ok_spec m lb j' j Hok Hj' Hj) in E'.
  apply Nat.eqb_eq in E'. contradiction.
Qed.

Lemma multiply_complete (n m : nat) (la lb A B : Arr T) (i j : nat) :
  index_ok m lb = true -> (i < n)%nat -> (j < m)%nat ->
  eqb (lb j) (la i) = true ->
  In (la i, mul (A i) (B j)) (multiply (labelled n la A) (labelled m lb B)).
Proof.
  intros Hok Hi Hj Hl. unfold multiply. apply in_flat_map.
  exists (la i, A i). split; [apply in_labelled; now exists i|].
  cbn [fst snd]. rewrite (sel_only m lb B (la i) j Hok Hj Hl). now left.
Qed.

End InnerJoin.

(** X21. For two arrays whose indexes have pairwise distinct labels, with
    an equality of labels that is symmetric and transitive, the aligned
    product is the inner join: its entries are exactly the products of
    the values that the two operands hold under equal labels.  It has no
    more entries than the first operand, and it is empty, not an error,
    when the operands share no label. *)
Theorem product_is_inner_join
  (T : Type) (num : Num T) (n m : nat) (la lb A B : Arr T) :
  (forall x y : T, eqb x y = true -> eqb y x = true) ->
  (forall x y z : T, eqb x y = true -> eqb y z = true -> eqb x z = true) ->
  XArray.index_ok n la = true -> XArray.index_ok m lb = true ->
  (forall e,
     In e (XArray.multiply (XArray.labelled n la A) (XArray.labelled m lb B))
     <->
     exists i j,
       (i < n)%nat /\ (j < m)%nat /\ eqb (lb j) (la i) = true /\
       e = (la i, mul (A i) (B j))) /\
  (List.length
     (XArray.multiply (XArray.labelled n la A) (XArray.labelled m lb B))
   <= n)%nat /\
  ((forall i j, (i < n)%nat -> (j < m)%nat -> eqb (lb j) (la i) = false) ->
   XArray.multiply (XArray.labelled n la A) (XArray.labelled m lb B) = []).
Proof.
  intros Hsym Htrans Hla Hlb.
  assert (Hsound : forall e,
            In e (XArray.multiply (XArray.labelled n la A)
                    (XArray.labelled m lb B)) ->
            exists i j,
              (i < n)%nat /\ (j < m)%nat /\ eqb (lb j) (la i) = true /\
              e = (la i, mul (A i) (B j))).
  { intros e He.
    destruct (multiply_sound _ _ e He) as (a & b & Ha & Hb & Hl & ->).
    apply in_labelled in Ha as (i & Hi & ->).
    apply in_labelled in Hb as (j & Hj & ->).
    now exists i, j. }
  split; [|split].
  - intros e. split; [apply Hsound|].
    intros (i & j & Hi & Hj & Hl & ->).
    now apply multiply_complete.
  - pose proof (multiply_length (XArray.labelled n la A)
                  (XArray.labelled m lb B)) as Hlen.
    unfold XArray.labelled in Hlen at 3.
    now rewrite length_map, length_seq in Hlen.
  - intros Hd.
    destruct (XArray.multiply _ _) as [|e l]; [reflexivity|].
    destruct (Hsound e (or_introl eq_refl)) as (i & j & Hi & Hj & Hl & _).
    rewrite (Hd i j Hi Hj) in Hl. discriminate.
Qed.

(** Two binary64 latitude grids that share two of their three labels. *)
Lemma product_is_inner_join_witness :
  (forall e,
     In e (XArray.multiply
             (XArray.labelled 3 Grids64.lat_a Grids64.v_prime)
             (XArray.labelled 3 Grids64.lat_b Grids64.theta_prime))
     <->
     exists i j,
       (i < 3)%nat /\ (j < 3)%nat /\
       PrimFloat.eqb (Grids64.lat_b j) (Grids64.lat_a i) = true /\
       e = (Grids64.lat_a i,
            PrimFloat.mul (Grids64.v_prime i) (Grids64.theta_prime j))) /\
  (List.length
     (XArray.multiply
        (XArray.labelled 3 Grids64.lat_a Grids64.v_prime)
        (XArray.labelled 3 Grids64.lat_b Grids64.theta_prime)) <= 3)%nat.
Proof.
  destruct (product_is_inner_join float float_Num 3 3
              Grids64.lat_a Grids64.lat_b Grids64.v_prime
              Grids64.theta_prime float_eqb_sym float_eqb_trans)
    as (Hin & Hlen & _); try (vm_compute; reflexivity).
  split; [exact Hin | exact Hlen].
Defined.

(** ** Finite differences of a parabola *)

Section Parabola.

Local Open Scope R_scope.

Lemma parabola_derivative (a b c y : R) :
  derivable_pt_lim (fun u => a * u * u + b * u + c) y (2 * a * y + b).
Proof.
  replace (2 * a * y + b)
    with (((0 * y + a * 1) * y + a * y * 1) + (0 * y + b * 1) + 0) by ring.
  apply (derivable_pt_lim_plus (fun u => a * u * u + b * u) (fun _ => c));
    [|apply derivable_pt_lim_const].
  apply (derivable_pt_lim_plus (fun u => a * u * u) (fun u => b * u)).
  - apply (derivable_pt_lim_mult (fun u => a * u) (fun u => u));
      [|apply derivable_pt_lim_id].
    apply (derivable_pt_lim_mult (fun _ => a) (fun u => u));
      [apply derivable_pt_lim_const | apply derivable_pt_lim_id].
  - apply (derivable_pt_lim_mult (fun _ => b) (fun u => u));
      [apply derivable_pt_lim_const | apply derivable_pt_lim_id].
Qed.

Lemma gradient_at_of_parabola (n : nat) (x : Arr R) (a b c : R) (i : nat) :
  strictly_monotone n x -> (0 < i)%nat -> (S i < n)%nat ->
  gradient_at n x (fun k => a * x k * x k + b * x k + c) i = 2 * a * x i + b.
Proof.
  intros Hm H0 Hi.
  rewrite finite_difference_of_gradient by (auto; lia).
  unfold Spec.finite_difference.
  replace (i =? 0)%nat with false by (symmetry; apply Nat.eqb_neq; lia).
  replace (i =? n - 1)%nat with false by (symmetry; apply Nat.eqb_neq; lia).
  destruct i as [|i]; [lia|].
  destruct (strictly_monotone_steps n x i Hm Hi) as (H1 & H2 & H3).
  apply centred_difference_parabola;
    replace (S i - 1)%nat with i by lia;
    replace (S i + 1)%nat with (S (S i)) by lia; try assumption. lra.
Qed.

End Parabola.

(** X24. In exact arithmetic [differentiate] is exact on parabolas away
    from the ends: on a strictly monotone coordinate, evenly spaced or
    not, the finite difference of the samples of a quadratic function at
    an interior point is the derivative of that function there. *)
Theorem gradient_at_parabola
  (n : nat) (x : Arr R) (a b c : R) (i : nat) :
  strictly_monotone n x -> (0 < i)%nat -> (S i < n)%nat ->
  gradient_at n x (fun k => (a * x k * x k + b * x k + c)%R) i
  = (2 * a * x i + b)%R /\
  derivable_pt_lim (fun u => (a * u * u + b * u + c)%R) (x i)
    (gradient_at n x (fun k => (a * x k * x k + b * x k + c)%R) i).
Proof.
  intros Hm H0 Hi.
  rewrite (gradient_at_of_parabola n x a b c i Hm H0 Hi).
  split; [reflexivity | apply parabola_derivative].
Qed.

(** The square on the unevenly spaced levels 8192, 2048, 0, at the middle
    one. *)
Lemma gradient_at_parabola_witness :
  gradient_at 3 (of_list 0%R [8192; 2048; 0]%R)
    (fun k => (1 * of_list 0%R [8192; 2048; 0]%R k
                 * of_list 0%R [8192; 2048; 0]%R k
               + 0 * of_list 0%R [8192; 2048; 0]%R k + 0)%R) 1
  = (2 * 1 * 2048 + 0)%R.
Proof.
  refine (proj1 (gradient_at_parabola 3 (of_list 0%R [8192; 2048; 0]%R)
                   1 0 0 1 _ _ _)); try lia.
  right. intros [|[|i]] Hi; cbn; try lra. lia.
Defined.

(** ** The sign of a finite difference *)

Section GradientSign.

Local Open Scope R_scope.

Lemma weighted_slopes (d1 d2 s1 s2 : R) :
  (0 < d1 /\ 0 < d2) \/ (d1 < 0 /\ d2 < 0) -> 0 < s1 -> 0 < s2 ->
  0 < s1 * (d2 / (d1 + d2)) + s2 * (d1 / (d1 + d2)).
Proof.
  intros Hd H1 H2.
  assert (0 < d2 / (d1 + d2) /\ 0 < d1 / (d1 + d2)) as [Hw2 Hw1].
  { destruct Hd as [[Ha Hb]|[Ha Hb]].
    - split; apply Rdiv_lt_0_compat; lra.
    - split.
      + replace (d2 / (d1 + d2)) with ((- d2) / (- (d1 + d2)))
          by (field; lra).
        apply Rdiv_lt_0_compat; lra.
      + replace (d1 / (d1 + d2)) with ((- d1) / (- (d1 + d2)))
          by (field; lra).
        apply Rdiv_lt_0_compat; lra. }
  apply Rplus_lt_0_compat; apply Rmult_lt_0_compat; assumption.
Qed.

Lemma gradient_at_positive_aux (m : nat) (x f : Arr R) (i : nat) :
  (i < S (S m))%nat -> strictly_monotone (S (S m)) x ->
  (forall k, (S k < S (S m))%nat ->
     0 < (f (S k) - f k) / (x (S k) - x k)) ->
  0 < gradient_at (S (S m)) x f i.
Proof.
  intros Hi Hm Hs. unfold gradient_at, diff.
  cbn [add sub mul div neg of_Z R_Num].
  destruct i as [|i]; cbn [Nat.eqb].
  { apply Hs. lia. }
  replace (S (S m) - 1)%nat with (S m) by lia.
  replace (S (S m) - 2)%nat with m by lia.
  destruct (Nat.eqb_spec i m) as [->|E].
  - destruct (uniform_spacing (S (S m)) x) eqn:U.
    + rewrite <- (uniform_spacing_R _ x m U ltac:(lia)). apply Hs. lia.
    + apply Hs. lia.
  - replace (S i + 1)%nat with (S (S i)) by lia.
    replace (S i - 1)%nat with i by lia.
    destruct (strictly_monotone_steps _ x i Hm ltac:(lia)) as (H1 & H2 & H3).
    pose proof (Hs i ltac:(lia)) as Hs1.
    pose proof (Hs (S i) ltac:(lia)) as Hs2.
    set (d1 := x (S i) - x i) in *. set (d2 := x (S (S i)) - x (S i)) in *.
    assert (Hd : (0 < d1 /\ 0 < d2) \/ (d1 < 0 /\ d2 < 0)).
    { destruct Hm as [H|H];
        pose proof (H i ltac:(lia)); pose proof (H (S i) ltac:(lia));
        unfold d1, d2; [left | right]; lra. }
    pose proof (weighted_slopes d1 d2 _ _ Hd Hs1 Hs2) as Hw.
    destruct (uniform_spacing (S (S m)) x) eqn:U.
    + pose proof (uniform_spacing_R _ x i U ltac:(lia)) as E1.
      pose proof (uniform_spacing_R _ x (S i) U ltac:(lia)) as E2.
      fold d1 in E1. fold d2 in E2.
      replace ((f (S (S i)) - f i) / (2 * (x 1%nat - x 0%nat)))
        with ((f (S i) - f i) / d1 * (d2 / (d1 + d2))
              + (f (S (S i)) - f (S i)) / d2 * (d1 / (d1 + d2)));
        [exact Hw|].
      rewrite <- E1 in *. rewrite E2 in *. field. lra.
    + replace (- d2 / (d1 * (d1 + d2)) * f i
               + (d2 - d1) / (d1 * d2) * f (S i)
               + d1 / (d2 * (d1 + d2)) * f (S (S i)))
        with ((f (S i) - f i) / d1 * (d2 / (d1 + d2))
              + (f (S (S i)) - f (S i)) / d2 * (d1 / (d1 + d2)));
        [exact Hw|].
      field. repeat split; assumption.
Qed.

End GradientSign.

(** X22. In exact arithmetic [differentiate] keeps the sign of the data's
    slopes: on a strictly monotone coordinate, if every slope between
    neighbouring points is positive, the finite difference is positive at
    every index.  So [N2 = theta_bar.differentiate('z')] is positive
    wherever the potential temperature increases with height from level to
    level. *)
Theorem gradient_at_positive (n : nat) (x f : Arr R) (i : nat) :
  (2 <= n)%nat -> (i < n)%nat -> strictly_monotone n x ->
  (forall k, (S k < n)%nat ->
     (0 < (f (S k) - f k) / (x (S k) - x k))%R) ->
  (0 < gradient_at n x f i)%R.
Proof.
  intros Hn Hi Hm Hs. destruct n as [|[|m]]; try lia.
  now apply gradient_at_positive_aux.
Qed.

(** Potential temperatures 400, 320, 300 K at heights 8192, 2048, 0 m. *)
Lemma gradient_at_positive_witness :
  (0 < gradient_at 3 (of_list 0 [8192; 2048; 0])
         (of_list 0 [400; 320; 300]) 1)%R.
Proof.
  apply (gradient_at_positive 3 (of_list 0%R [8192; 2048; 0]%R)
           (of_list 0%R [400; 320; 300]%R) 1); try lia.
  - right. intros [|[|k]] Hk; cbn; try lra. lia.
  - intros [|[|k]] Hk; cbn; try lia.
    + replace ((320 - 400) / (2048 - 8192))%R with (80 / 6144)%R by field.
      apply Rdiv_lt_0_compat; lra.
    + replace ((300 - 320) / (0 - 2048))%R with (20 / 2048)%R by field.
      apply Rdiv_lt_0_compat; lra.
Defined.


